(** * Granule discovery task (tasks/discover-granules/index.js)

    A shallow embedding of the discovery task: classification of listed
    files by granule id, enrichment from the collection file rules, the
    duplicate check against the granules API and the orchestration of
    the three.  The task is written against plain JavaScript objects,
    lodash helpers and promises; the fragment of their behaviour the task
    relies on is embedded first (modules [Js] and [Lodash]), the task
    itself follows (module [DiscoverGranules]). *)

From Stdlib Require Import List String Ascii NArith ZArith Bool Arith Lia DecimalString.
Import ListNotations.
Open Scope string_scope.

(* ===================================================================== *)
(** ** JavaScript values, objects and promises *)
(* ===================================================================== *)

Module Js.

(** Primitive values that reach the task through its configuration and
    through the file descriptors of a listing. *)
Inductive Value : Type :=
| undefined
| null
| VBool (b : bool)
| VNum (z : Z)
| VStr (s : string).

(** [Boolean(v)]: the truthiness of a value. *)
Definition truthy (v : Value) : bool :=
  match v with
  | undefined | null => false
  | VBool b => b
  | VNum z => negb (z =? 0)%Z
  | VStr s => negb (s =? "")
  end.

(** [Boolean(s)] for a string: only the empty string is falsy. *)
Definition truthy_string (s : string) : bool := negb (s =? "").

(** [a || b] on values. *)
Definition or_else (a b : Value) : Value := if truthy a then a else b.

(** [String(v)], which is also the conversion of a primitive value to a
    property key ([null] becomes the key "null") and the way a value is
    spliced into a template literal. *)
Definition ToString (v : Value) : string :=
  match v with
  | undefined => "undefined"
  | null => "null"
  | VBool true => "true"
  | VBool false => "false"
  | VNum z => if (z <? 0)%Z then "-" ++ NilZero.string_of_uint (N.to_uint (Z.to_N (- z)))
              else NilZero.string_of_uint (N.to_uint (Z.to_N z))
  | VStr s => s
  end.

(** *** Array indices

    A property key is an array index when it is the canonical decimal
    form of an integer between 0 and 2^32 - 2.  Own keys of an ordinary
    object are enumerated with the array indices first, in ascending
    numeric order, and the other string keys after them, in the order in
    which they were created. *)

Definition digit_of (c : ascii) : option N :=
  let n := N_of_ascii c in
  if ((48 <=? n) && (n <=? 57))%N then Some (n - 48)%N else None.

Fixpoint parse_digits (s : string) (acc : N) : option N :=
  match s with
  | EmptyString => Some acc
  | String c s' =>
      match digit_of c with
      | Some d => parse_digits s' (10 * acc + d)%N
      | None => None
      end
  end.

Definition max_array_index : N := 4294967294.

Definition array_index (s : string) : option N :=
  match s with
  | EmptyString => None
  | String "0"%char EmptyString => Some 0%N
  | String "0"%char _ => None
  | _ =>
      match parse_digits s 0 with
      | Some n => if (n <=? max_array_index)%N then Some n else None
      | None => None
      end
  end.

Definition is_array_index (s : string) : bool :=
  match array_index s with Some _ => true | None => false end.

(** *** Ordinary objects

    An object is the list of its own properties in enumeration order.
    Every object of the task is created empty and filled by assignment,
    so the list is built by [obj_set] only. *)

Section Objects.
Context {V : Type}.

Definition Obj : Type := list (string * V).

Definition empty_obj : Obj := [].

(** [o[k]], with [None] for an absent own property. *)
Fixpoint obj_get (k : string) (o : Obj) : option V :=
  match o with
  | [] => None
  | (k', v) :: o' => if k' =? k then Some v else obj_get k o'
  end.

(** [hasOwnProperty.call(o, k)] *)
Definition obj_has (k : string) (o : Obj) : bool :=
  match obj_get k o with Some _ => true | None => false end.

(** Assignment to an existing property keeps its place. *)
Fixpoint obj_update (k : string) (v : V) (o : Obj) : Obj :=
  match o with
  | [] => []
  | (k', v') :: o' =>
      if k' =? k then (k', v) :: o' else (k', v') :: obj_update k v o'
  end.

(** A new array index [n] goes after the indices below it.  Two
    distinct keys never are the same index, so the comparison is never
    between equal numbers. *)
Fixpoint obj_insert_index (n : N) (k : string) (v : V) (o : Obj) : Obj :=
  match o with
  | [] => [(k, v)]
  | (k', v') :: o' =>
      match array_index k' with
      | Some n' =>
          if (n' <=? n)%N then (k', v') :: obj_insert_index n k v o'
          else (k, v) :: o
      | None => (k, v) :: o
      end
  end.

(** [o[k] = v] *)
Definition obj_set (k : string) (v : V) (o : Obj) : Obj :=
  if obj_has k o then obj_update k v o
  else
    match array_index k with
    | Some n => obj_insert_index n k v o
    | None => (o ++ [(k, v)])%list
    end.

(** [delete o[k]] *)
Fixpoint obj_delete (k : string) (o : Obj) : Obj :=
  match o with
  | [] => []
  | (k', v) :: o' =>
      if k' =? k then obj_delete k o' else (k', v) :: obj_delete k o'
  end.

(** [Object.keys(o)] *)
Definition Object_keys (o : Obj) : list string := map fst o.

(** The enumeration order: no array index after a string key, and the
    array indices ascending from [lo]. *)
Fixpoint enumeration_order (lo : N) (o : Obj) : bool :=
  match o with
  | [] => true
  | (k, _) :: o' =>
      match array_index k with
      | Some n => (lo <=? n)%N && enumeration_order n o'
      | None => forallb (fun kv => negb (is_array_index (fst kv))) o'
      end
  end.
End Objects.

Arguments Obj : clear implicits.

(** *** Object.prototype

    An object written as a literal or returned by [JSON.parse] inherits
    the members of [Object.prototype].  Reading a key that the object
    does not own finds them: the methods, which are functions with a
    name, and, under the key __proto__, [Object.prototype] itself.
    Assigning to the key __proto__ of such an object does not create a
    property: it calls the setter of [Object.prototype], which makes the
    assigned object the prototype. *)
Inductive Inherited : Type :=
| InheritedMethod (name : string)
| ThePrototype.

Definition Object_prototype_methods : list string :=
  ["__defineGetter__"; "__defineSetter__"; "hasOwnProperty"; "__lookupGetter__";
   "__lookupSetter__"; "isPrototypeOf"; "propertyIsEnumerable"; "toString";
   "valueOf"; "toLocaleString"].

(** What a key finds on [Object.prototype]; [constructor] is the
    function [Object]. *)
Definition inherited (key : string) : option Inherited :=
  if key =? "constructor" then Some (InheritedMethod "Object")
  else if key =? "__proto__" then Some ThePrototype
  else if existsb (String.eqb key) Object_prototype_methods
       then Some (InheritedMethod key)
       else None.

(** The [name] of an inherited member: the name of the function, and
    nothing for [Object.prototype]. *)
Definition inherited_name (member : Inherited) : Value :=
  match member with
  | InheritedMethod name => VStr name
  | ThePrototype => undefined
  end.

(** *** Regular expressions

    A pattern is taken by what [String.prototype.match] returns for it:
    nothing when the string does not match, and otherwise the array of
    the whole match followed by the captures, a capture that took no part
    in the match being [undefined]. *)
Definition MatchArray : Type := list (option string).

Definition RegExp : Type := string -> option MatchArray.

(** [m[i]] on a match array; reading past the end gives [undefined]. *)
Definition match_at (m : MatchArray) (i : nat) : Value :=
  match nth_error m i with
  | Some (Some s) => VStr s
  | _ => undefined
  end.

(** [name.match(re)] used as a condition. *)
Definition matches (re : RegExp) (name : string) : bool :=
  match re name with Some _ => true | None => false end.

(** *** Exceptions, results and promises *)

(** What the task and its collaborators throw. *)
Inductive Thrown : Type :=
| DuplicateGranule (granuleId : string)
    (* new Error(`Duplicate granule found for ${granuleId} with duplicate
       configuration set to error`) *)
| InvalidDuplicateHandling (duplicateHandling : Value)
    (* new Error(`Invalid duplicate handling configuration encountered:
       ${JSON.stringify(duplicateHandling)}`) *)
| TypeError (message : string)
    (* reading a property of undefined *)
| HTTPError (statusCode : Z) (statusMessage : string)
    (* got: the server answered with an error status *)
| RequestError (code : string)
    (* got: the request itself failed; the error has no statusCode *)
| CollaboratorError (origin message : string).
    (* thrown by the provider client, the secrets manager or the token
       service *)

Inductive Result (A : Type) : Type :=
| Ok (a : A)
| Err (e : Thrown).
Arguments Ok {A} a.
Arguments Err {A} e.

(** A pending asynchronous operation: the instant at which it settles
    and what it settles to. *)
Record Promise (A : Type) : Type := mkPromise {
  settles_at : nat;
  settled : Result A
}.
Arguments mkPromise {A}.
Arguments settles_at {A}.
Arguments settled {A}.

(** The rejection that [Promise.all] observes first: the earliest one,
    and among rejections of the same instant the one of the promise that
    comes first in the array. *)
Fixpoint first_rejection {A} (ps : list (Promise A)) : option (nat * Thrown) :=
  match ps with
  | [] => None
  | p :: ps' =>
      match settled p, first_rejection ps' with
      | Ok _, r => r
      | Err e, None => Some (settles_at p, e)
      | Err e, Some (t', e') =>
          if (settles_at p <=? t')%nat then Some (settles_at p, e)
          else Some (t', e')
      end
  end.

Fixpoint fulfilled_values {A} (ps : list (Promise A)) : list A :=
  match ps with
  | [] => []
  | p :: ps' =>
      match settled p with
      | Ok a => a :: fulfilled_values ps'
      | Err _ => fulfilled_values ps'
      end
  end.

(** [await Promise.all(ps)]: rejected with the first rejection, and
    otherwise the values in the order of the array. *)
Definition Promise_all {A} (ps : list (Promise A)) : Result (list A) :=
  match first_rejection ps with
  | Some (_, e) => Err e
  | None => Ok (fulfilled_values ps)
  end.

End Js.

(* ===================================================================== *)
(** ** The lodash helpers of the task *)
(* ===================================================================== *)

Module Lodash.
Import Js.

(** [isBoolean(v)] *)
Definition isBoolean (v : Value) : bool :=
  match v with VBool _ => true | _ => false end.

Section Collections.
Context {A B : Type}.

(** [groupBy(collection, iteratee)]: the result starts as the empty
    object; a value whose key the result owns is pushed on that key's
    array, and otherwise [result[key] = [value]] is assigned.  The
    assignment creates the key, except for the key __proto__: there it
    makes the array [[value]] the prototype of the result and creates
    nothing, so the result never owns that key.  [groupBy] gives the own
    properties of the result, [groupBy_prototype] the value in the array
    that ends as its prototype, if there is one. *)
Definition groupBy_step (iteratee : A -> Value) (result : Obj (list A)) (value : A)
  : Obj (list A) :=
  let key := ToString (iteratee value) in
  match obj_get key result with
  | Some group => obj_update key (group ++ [value])%list result
  | None => if key =? "__proto__" then result else obj_set key [value] result
  end.

Definition groupBy (collection : list A) (iteratee : A -> Value) : Obj (list A) :=
  fold_left (groupBy_step iteratee) collection empty_obj.

Definition groupBy_prototype_step (iteratee : A -> Value) (prototype : option A)
    (value : A) : option A :=
  if ToString (iteratee value) =? "__proto__" then Some value else prototype.

Definition groupBy_prototype (collection : list A) (iteratee : A -> Value) : option A :=
  fold_left (groupBy_prototype_step iteratee) collection None.

(** [pick(object, props)]: a new object that gets, in the order of
    [props], the properties of [object] that exist. *)
Definition pick_step (object : Obj A) (result : Obj A) (key : string) : Obj A :=
  match obj_get key object with
  | Some value => obj_set key value result
  | None => result
  end.

Definition pick (object : Obj A) (props : list string) : Obj A :=
  fold_left (pick_step object) props empty_obj.

(** [map(object, iteratee)] on an ordinary object: the iteratee runs on
    each own property, in enumeration order, with the value and the
    key. *)
Definition map_object (object : Obj A) (iteratee : A -> string -> B) : list B :=
  List.map (fun kv => iteratee (snd kv) (fst kv)) object.
End Collections.

Section ArrayLike.
Context {V A B : Type}.

(** [isArrayLike(object)] for an object of arrays whose prototype is
    nothing special or the one-element array [[element]]: with that
    array as its prototype the object has the length 1 of the array,
    unless it owns a key length, whose value is then an array and no
    length. *)
Definition isArrayLike (object : Obj V) (prototype : option A) : bool :=
  match prototype with
  | Some _ => negb (obj_has "length" object)
  | None => false
  end.

(** [map(object, iteratee)] of lodash on such an object (the name [map]
    is left to the lists).  When the object is
    array-like, [map] does not walk its keys: it reads the indices below
    the length, here the index 0, which finds the property 0 of the
    object if it owns one and the element of the prototype otherwise,
    and hands the iteratee the index, a number. *)
Definition lodash_map (object : Obj V) (prototype : option A)
    (iteratee : V + A -> Value -> B) : list B :=
  match prototype with
  | Some element =>
      if isArrayLike object prototype then
        [iteratee (match obj_get "0" object with
                   | Some value => inl value
                   | None => inr element
                   end)
                  (VNum 0)]
      else map_object object (fun value key => iteratee (inl value) (VStr key))
  | None => map_object object (fun value key => iteratee (inl value) (VStr key))
  end.
End ArrayLike.

End Lodash.

(* ===================================================================== *)
(** ** The task *)
(* ===================================================================== *)

Module DiscoverGranules.
Import Js Lodash.

(** *** Data *)

(** A discovered file: its [name] and whatever else the provider client
    reports about it (path, size, time, ...). *)
Record File : Type := mkFile {
  name : string;
  properties : Obj Value
}.

(** An entry of [config.collection.files]. *)
Record CollectionFileConfig : Type := mkFileConfig {
  regex : RegExp;
  bucket : string;
  file_url_path : Value;   (* url_path *)
  type : Value
}.

(** An entry of [config.buckets]. *)
Record BucketConfig : Type := mkBucket {
  bucket_name : Value      (* name *)
}.

Record Collection : Type := mkCollection {
  provider_path : Value;
  granuleIdExtraction : RegExp;
  dataType : Value;
  version : Value;
  files : list CollectionFileConfig;
  url_path : Value;
  collection_ignoreFilesConfigForDiscovery : Value  (* ignoreFilesConfigForDiscovery *)
}.

Record Config : Type := mkConfig {
  provider : Obj Value;
  useList : Value;
  collection : Collection;
  buckets : Obj BucketConfig;
  ignoreFilesConfigForDiscovery : Value;
  duplicateHandling : Value
}.

(** What [buildGranule] is given as the files of a granule: the array of
    a group, or, when lodash walks the groups as an array-like, possibly
    a single file object. *)
Inductive Files : Type :=
| FileArray (files : list File)
| FileObject (file : File).

#[warnings="-uniform-inheritance"]
Coercion FileArray : list >-> Files.
Coercion VStr : string >-> Value.

(** A granule of the output.  Its id is the key that [map] hands to
    [buildGranule], a string for a key of the groups and a number for an
    index. *)
Record Granule : Type := mkGranule {
  granuleId : Value;
  granule_dataType : Value;   (* dataType *)
  granule_version : Value;    (* version *)
  granule_files : Files       (* files *)
}.

Record Output : Type := mkOutput {
  granules : list Granule
}.

(** The argument of [getAuthToken]. *)
Record TokenConfig : Type := mkTokenConfig {
  baseUrl : Value;
  username : Value;
  password : Value;
  launchpadPassphrase : Value;
  launchpadApi : Value;
  launchpadCertificate : Value
}.

Record DupeConfig : Type := mkDupeConfig {
  dupe_duplicateHandling : Value;   (* duplicateHandling *)
  token : Value
}.

(** What [got.get] resolves to. *)
Record Response : Type := mkResponse {
  statusCode : Z;
  body : string
}.

(** *** Collaborators

    Everything the task reaches outside of itself: the environment of
    the process, the provider client, the helpers of the ingest package,
    the secrets manager, the token service and the granules API. *)
Record World : Type := mkWorld {
  process_env : string -> Value;
  provider_list : Obj Value -> Value -> string -> Result (list File);
    (* buildProviderClient({ ...providerConfig, useList }).list(path) *)
  normalizeProviderPath : Value -> string;
  duplicateHandlingType : Config -> Value;
  getSecretString : Value -> Result Value;
  getAuthToken : Value -> TokenConfig -> Result Value;
  got_get : string -> string -> Promise Response
    (* got.get(url, { headers: { authorization } }) *)
}.

(** The calls that leave the task, in the order in which they are made. *)
Inductive Event : Type :=
| LogInfo (message : string)
| ListFiles (providerConfig : Obj Value) (useList : Value) (path : string)
| GetSecretString (secretName : Value)
| GetAuthToken (provider : Value) (tokenConfig : TokenConfig)
| HttpGet (url authorization : string).

(** An asynchronous function of the task: the calls it makes and what
    it returns or throws. *)
Definition Task (A : Type) : Type := (list Event * Result A)%type.

Definition ret {A} (a : A) : Task A := ([], Ok a).

Definition throw {A} (e : Thrown) : Task A := ([], Err e).

Definition bind {A B} (m : Task A) (f : A -> Task B) : Task B :=
  match m with
  | (tr, Ok a) => let (tr', r) := f a in ((tr ++ tr')%list, r)
  | (tr, Err e) => (tr, Err e)
  end.

Definition call {A} (ev : Event) (r : Result A) : Task A := ([ev], r).

Definition emit (evs : list Event) : Task unit := (evs, Ok tt).

Definition trace {A} (m : Task A) : list Event := fst m.

Definition outcome {A} (m : Task A) : Result A := snd m.

Notation "x <- m ;; k" := (bind m (fun x => k))
  (at level 61, m at next level, right associativity).
Notation "m ;;; k" := (bind m (fun _ => k))
  (at level 61, right associativity).

(** An array [map] whose callback may throw stops at the first throw. *)
Fixpoint all_ok {A} (rs : list (Result A)) : Result (list A) :=
  match rs with
  | [] => Ok []
  | Ok a :: rs' =>
      match all_ok rs' with
      | Ok l => Ok (a :: l)
      | Err e => Err e
      end
  | Err e :: _ => Err e
  end.

(** [array.includes(v)] for an array of strings. *)
Definition includes (strings : list string) (v : Value) : bool :=
  match v with
  | VStr s => existsb (String.eqb s) strings
  | _ => false
  end.

(** *** Functions of index.js *)

Definition listFiles (w : World) (providerConfig : Obj Value) (useList : Value)
    (path : string) : Task (list File) :=
  call (ListFiles providerConfig useList path)
       (provider_list w providerConfig useList path).

Definition granuleIdOfFile (granuleIdRegex : RegExp) (file : File) : Value :=
  match granuleIdRegex (name file) with
  | Some match_ => match_at match_ 1
  | None => null
  end.

(** The own properties of the object that the function returns. *)
Definition groupFilesByGranuleId (granuleIdRegex : RegExp) (files : list File)
  : Obj (list File) :=
  let result := groupBy files (granuleIdOfFile granuleIdRegex) in
  obj_delete "null" result.

(** The file in the array that is the prototype of that object, when
    [groupBy] has replaced its prototype. *)
Definition groupFilesByGranuleId_prototype (granuleIdRegex : RegExp)
    (files : list File) : option File :=
  groupBy_prototype files (granuleIdOfFile granuleIdRegex).

Definition getCollectionFileConfig (collectionFileConfigs : list CollectionFileConfig)
    (file : File) : option CollectionFileConfig :=
  find (fun c => matches (regex c) (name file)) collectionFileConfigs.

Definition fileHasCollectionFileConfig
    (collectionFileConfigs : list CollectionFileConfig) (file : File) : bool :=
  match getCollectionFileConfig collectionFileConfigs file with
  | Some _ => true
  | None => false
  end.

Definition returnAllFiles (config : Config) : Value :=
  if isBoolean (ignoreFilesConfigForDiscovery config) then
    ignoreFilesConfigForDiscovery config
  else if isBoolean (collection_ignoreFilesConfigForDiscovery (collection config)) then
    collection_ignoreFilesConfigForDiscovery (collection config)
  else VBool false.

(** [{ ...file, key: value }] *)
Definition with_property (key : string) (value : Value) (file : File) : File :=
  {| name := name file; properties := obj_set key value (properties file) |}.

(** [buckets[key].name]: the name of the entry that the table has under
    the key, or of what the table inherits under it; reading the name of
    nothing throws. *)
Definition bucket_name_at (buckets_ : Obj BucketConfig) (key : string) : Result Value :=
  match obj_get key buckets_ with
  | Some b => Ok (bucket_name b)
  | None =>
      match inherited key with
      | Some member => Ok (inherited_name member)
      | None => Err (TypeError "Cannot read property 'name' of undefined")
      end
  end.

Definition updateFileFromCollectionFileConfig (config : Config) (file : File)
  : Result File :=
  match getCollectionFileConfig (files (collection config)) file with
  | None => Ok file
  | Some fileConfig =>
      match bucket_name_at (buckets config) (bucket fileConfig) with
      | Err e => Err e
      | Ok bucket_ =>
          Ok (with_property "type" (or_else (type fileConfig) (VStr ""))
             (with_property "url_path"
                (or_else (or_else (file_url_path fileConfig)
                                  (url_path (collection config)))
                         (VStr ""))
             (with_property "bucket" bucket_ file)))
      end
  end.

(** A file object given as [files] has no [filter] to call. *)
Definition buildGranule (config : Config) (files_ : Files) (granuleId_ : Value)
  : Result Granule :=
  match
    (if truthy (returnAllFiles config) then Ok files_
     else
       match files_ with
       | FileArray array =>
           match
             all_ok
               (map (updateFileFromCollectionFileConfig config)
                    (filter (fileHasCollectionFileConfig (files (collection config)))
                            array))
           with
           | Ok updated => Ok (FileArray updated)
           | Err e => Err e
           end
       | FileObject _ => Err (TypeError "files.filter is not a function")
       end)
  with
  | Ok filesToReturn =>
      Ok {| granuleId := granuleId_;
            granule_dataType := dataType (collection config);
            granule_version := version (collection config);
            granule_files := filesToReturn |}
  | Err e => Err e
  end.

(** [error.statusCode === 404 && error.statusMessage === 'Not Found'] *)
Definition is_not_found (error : Thrown) : bool :=
  match error with
  | HTTPError code message => (code =? 404)%Z && (message =? "Not Found")
  | _ => false
  end.

Definition granule_url (baseUrl_ : Value) (granuleId_ : string) : string :=
  ToString baseUrl_ ++ "/granules/" ++ granuleId_.

Definition authorization_of (dupeConfig : DupeConfig) : string :=
  "Bearer " ++ ToString (token dupeConfig).

(** The request of [checkDuplicate] leaves when the function is called;
    the promise settles when the answer is there. *)
Definition checkDuplicate (w : World) (granuleId_ : string) (dupeConfig : DupeConfig)
    (baseUrl_ : Value) : Promise string :=
  let answer :=
    got_get w (granule_url baseUrl_ granuleId_) (authorization_of dupeConfig) in
  {| settles_at := settles_at answer;
     settled :=
       match settled answer with
       | Err error => if is_not_found error then Ok granuleId_ else Err error
       | Ok _ =>
           if includes ["error"] (dupe_duplicateHandling dupeConfig)
           then Err (DuplicateGranule granuleId_)
           else Ok ""
       end |}.

Definition tokenConfig_of (w : World) (password_ launchpadPassphrase_ : Value)
  : TokenConfig :=
  {| baseUrl := process_env w "archive_api_uri";
     username := process_env w "urs_id";
     password := password_;
     launchpadPassphrase := launchpadPassphrase_;
     launchpadApi := process_env w "launchpad_api";
     launchpadCertificate := process_env w "launchpad_certificate" |}.

Definition filterDuplicates (w : World) (granuleIds : list string)
    (duplicateHandling_ : Value) : Task (list string) :=
  let provider_ := process_env w "oauth_provider" in
  password_ <- call (GetSecretString (process_env w "urs_password_secret_name"))
                    (getSecretString w (process_env w "urs_password_secret_name")) ;;
  passphrase_ <- call (GetSecretString (process_env w "passphraseSecretName"))
                      (getSecretString w (process_env w "passphraseSecretName")) ;;
  let tokenConfig := tokenConfig_of w password_ passphrase_ in
  authToken <- call (GetAuthToken provider_ tokenConfig)
                    (getAuthToken w provider_ tokenConfig) ;;
  let dupeConfig :=
    {| dupe_duplicateHandling := duplicateHandling_; token := authToken |} in
  let keysPromises :=
    map (fun key => checkDuplicate w key dupeConfig (baseUrl tokenConfig))
        granuleIds in
  emit (map (fun key => HttpGet (granule_url (baseUrl tokenConfig) key)
                                (authorization_of dupeConfig))
            granuleIds) ;;;
  filteredKeys <- ([], Promise_all keysPromises) ;;
  ret (filter truthy_string filteredKeys).

Definition handleDuplicates (w : World) (filesByGranuleId : Obj (list File))
    (duplicateHandling_ : Value) : Task (Obj (list File)) :=
  let duplicateHandling_ :=
    match duplicateHandling_ with undefined => VStr "error" | v => v end in
  emit [LogInfo ("Running discoverGranules with duplicateHandling set to "
                 ++ ToString duplicateHandling_)] ;;;
  if includes ["skip"; "error"] duplicateHandling_ then
    filteredKeys <- filterDuplicates w (Object_keys filesByGranuleId)
                                     duplicateHandling_ ;;
    ret (pick filesByGranuleId filteredKeys)
  else if includes ["replace"; "version"] duplicateHandling_ then
    ret filesByGranuleId
  else throw (InvalidDuplicateHandling duplicateHandling_).

(** The prototype of the object that [handleDuplicates] returns: under
    'replace' and 'version' it returns the object that it was given,
    under 'skip' and 'error' an object that [pick] has made. *)
Definition prototype_after_handling {A} (duplicateHandling_ : Value)
    (prototype : option A) : option A :=
  let duplicateHandling_ :=
    match duplicateHandling_ with undefined => VStr "error" | v => v end in
  if includes ["replace"; "version"] duplicateHandling_ then prototype else None.

(** What [map] reads for the iteratee, as the files of [buildGranule]. *)
Definition files_argument (read : list File + File) : Files :=
  match read with
  | inl group => FileArray group
  | inr file => FileObject file
  end.

Definition discoverGranules (w : World) (config : Config) : Task Output :=
  discoveredFiles <-
    listFiles w (provider config) (useList config)
              (normalizeProviderPath w (provider_path (collection config))) ;;
  let filesByGranuleId :=
    groupFilesByGranuleId (granuleIdExtraction (collection config))
                          discoveredFiles in
  let prototype :=
    groupFilesByGranuleId_prototype (granuleIdExtraction (collection config))
                                    discoveredFiles in
  let duplicateHandling_ := duplicateHandlingType w config in
  filesByGranuleId <- handleDuplicates w filesByGranuleId duplicateHandling_ ;;
  let prototype := prototype_after_handling duplicateHandling_ prototype in
  granules_ <- ([], all_ok (lodash_map filesByGranuleId prototype
                              (fun files_ key => buildGranule config
                                                   (files_argument files_) key))) ;;
  emit [LogInfo ("Discovered "
                 ++ ToString (VNum (Z.of_nat (List.length granules_)))
                 ++ " granules.")] ;;;
  ret {| granules := granules_ |}.

End DiscoverGranules.

(* ===================================================================== *)
(** ** Notions used to state the properties *)
(* ===================================================================== *)

Module Notions.
Import Js Lodash DiscoverGranules.

(** The property key under which [groupBy] files a file. *)
Definition group_key (granuleIdRegex : RegExp) (file : File) : string :=
  ToString (granuleIdOfFile granuleIdRegex file).

(** The files of a listing that [groupBy] files under [key], in listing
    order. *)
Definition files_keyed (granuleIdRegex : RegExp) (key : string) (files_ : list File)
  : list File :=
  filter (fun f => group_key granuleIdRegex f =? key) files_.

Definition mem (k : string) (ks : list string) : bool :=
  existsb (String.eqb k) ks.

(** The elements of a list in the order of their first occurrence. *)
Fixpoint first_occurrences_from (seen ks : list string) : list string :=
  match ks with
  | [] => []
  | k :: ks' =>
      if mem k seen then first_occurrences_from seen ks'
      else k :: first_occurrences_from (k :: seen) ks'
  end.

Definition first_occurrences (ks : list string) : list string :=
  first_occurrences_from [] ks.

(** The order in which classification creates the keys of its result:
    first occurrence in the listing, without the key "null", which is
    deleted, and without the key __proto__, which is never created. *)
Definition insertion_order (granuleIdRegex : RegExp) (files_ : list File)
  : list string :=
  filter (fun k => negb (k =? "null") && negb (k =? "__proto__"))
         (first_occurrences (map (group_key granuleIdRegex) files_)).

(** A file of the listing is filed under [key]. *)
Definition some_file_keyed (granuleIdRegex : RegExp) (key : string)
    (files_ : list File) : bool :=
  existsb (fun f => group_key granuleIdRegex f =? key) files_.

(** The object whose groups become granules does not have the prototype
    of a plain object: the policy is one under which the classification
    object itself is walked, and a listed file is filed under
    __proto__. *)
Definition prototype_replaced (policy : Value) (granuleIdRegex : RegExp)
    (files_ : list File) : bool :=
  includes ["replace"; "version"] policy
  && some_file_keyed granuleIdRegex "__proto__" files_.

(** The groups of a listing are walked as an array and not key by key:
    the prototype is replaced and no listed file is filed under
    length. *)
Definition walked_as_array (policy : Value) (granuleIdRegex : RegExp)
    (files_ : list File) : bool :=
  prototype_replaced policy granuleIdRegex files_
  && negb (some_file_keyed granuleIdRegex "length" files_).

(** The last element of a list. *)
Definition last_of {A} (l : list A) : option A := hd_error (rev l).

(** The keys of a list that are not array indices, in their order. *)
Definition string_keys (ks : list string) : list string :=
  filter (fun k => negb (is_array_index k)) ks.

(** The token of an invocation: both secrets and the token itself were
    obtained. *)
Definition token_acquired (w : World) (tok : Value) : Prop :=
  exists password_ passphrase_,
    getSecretString w (process_env w "urs_password_secret_name") = Ok password_ /\
    getSecretString w (process_env w "passphraseSecretName") = Ok passphrase_ /\
    getAuthToken w (process_env w "oauth_provider")
                 (tokenConfig_of w password_ passphrase_) = Ok tok.

(** The base url of the granules API and the configuration of a check. *)
Definition api_base (w : World) : Value := process_env w "archive_api_uri".

Definition dupeConfig_of (policy tok : Value) : DupeConfig :=
  {| dupe_duplicateHandling := policy; token := tok |}.

(** The policy that [handleDuplicates] runs with. *)
Definition effective_policy (duplicateHandling_ : Value) : Value :=
  match duplicateHandling_ with undefined => VStr "error" | v => v end.

(** The lookup of one granule id in the catalog. *)
Definition lookup (w : World) (tok : Value) (id : string) : Promise Response :=
  got_get w (granule_url (api_base w) id) ("Bearer " ++ ToString tok).

(** The catalog has the granule: the lookup succeeds. *)
Definition found (w : World) (tok : Value) (id : string) : bool :=
  match settled (lookup w tok id) with Ok _ => true | Err _ => false end.

(** The catalog reports the granule as not found. *)
Definition absent (w : World) (tok : Value) (id : string) : bool :=
  match settled (lookup w tok id) with
  | Ok _ => false
  | Err e => is_not_found e
  end.

(** The lookup fails in another way. *)
Definition lookup_fails (w : World) (tok : Value) (id : string) (e : Thrown) : Prop :=
  settled (lookup w tok id) = Err e /\ is_not_found e = false.

Definition answered (w : World) (tok : Value) (id : string) : bool :=
  found w tok id || absent w tok id.

Definition is_lookup (ev : Event) : bool :=
  match ev with HttpGet _ _ => true | _ => false end.

Definition is_credential_fetch (ev : Event) : bool :=
  match ev with GetSecretString _ | GetAuthToken _ _ => true | _ => false end.

(** What the bucket table gives under a key: the name of its own entry
    under the key, and, when it has no such entry, the name of the member
    of [Object.prototype] that the key names. *)
Definition bucket_resolves (buckets_ : Obj BucketConfig) (key : string)
    (bucket_ : Value) : Prop :=
  (exists b, obj_get key buckets_ = Some b /\ bucket_ = bucket_name b) \/
  (obj_get key buckets_ = None /\
   exists member, inherited key = Some member /\ bucket_ = inherited_name member).

(** The enrichment of a file by a rule, with the bucket found for it. *)
Definition enriched (config : Config) (rule : CollectionFileConfig) (bucket_ : Value)
    (file : File) : File :=
  with_property "type"
    (if truthy (type rule) then type rule else VStr "")
    (with_property "url_path"
       (if truthy (file_url_path rule) then file_url_path rule
        else if truthy (url_path (collection config)) then url_path (collection config)
        else VStr "")
       (with_property "bucket" bucket_ file)).

(** What a file gains by the enrichment: the three properties are read
    back, the bucket as found, the url_path of the rule when that is
    truthy, else the one of the collection when that is truthy, else the
    empty string, the type of the rule when that is truthy, else the
    empty string; the name and every other property are those of the
    file. *)
Definition enriched_by (config : Config) (rule : CollectionFileConfig)
    (bucket_ : Value) (file out : File) : Prop :=
  name out = name file /\
  obj_get "bucket" (properties out) = Some bucket_ /\
  obj_get "url_path" (properties out) =
    Some (if truthy (file_url_path rule) then file_url_path rule
          else if truthy (url_path (collection config))
               then url_path (collection config)
               else VStr "") /\
  obj_get "type" (properties out) =
    Some (if truthy (type rule) then type rule else VStr "") /\
  forall k, k <> "bucket" -> k <> "url_path" -> k <> "type" ->
            obj_get k (properties out) = obj_get k (properties file).

(** Rule [i] is the first rule that matches the name. *)
Definition first_match (rules : list CollectionFileConfig) (i : nat)
    (rule : CollectionFileConfig) (file_name : string) : Prop :=
  nth_error rules i = Some rule /\
  matches (regex rule) file_name = true /\
  forall j earlier, (j < i)%nat -> nth_error rules j = Some earlier ->
                    matches (regex earlier) file_name = false.

Definition matches_some_rule (rules : list CollectionFileConfig) (file_name : string)
  : bool :=
  existsb (fun rule => matches (regex rule) file_name) rules.

End Notions.

(* ===================================================================== *)
(** ** Concrete patterns, listings and catalogs *)
(* ===================================================================== *)

Module Examples.
Import Js Lodash DiscoverGranules.

Fixpoint before_dot (s : string) : option string :=
  match s with
  | EmptyString => None
  | String c s' =>
      if (c =? ".")%char then Some EmptyString
      else option_map (String c) (before_dot s')
  end.

(** The pattern that captures what precedes the first dot of a name:
    a group of any number of characters other than a dot, anchored at
    the start and followed by a dot. *)
Definition stem_pattern : RegExp :=
  fun name_ =>
    match before_dot name_ with
    | Some stem => Some [Some (stem ++ "."); Some stem]
    | None => None
    end.

Fixpoint ends_with (suffix s : string) : bool :=
  (s =? suffix) ||
  match s with
  | EmptyString => false
  | String _ s' => ends_with suffix s'
  end.

(** A pattern without captures that matches the names with a given
    ending, as [/\.dat$/] for ".dat". *)
Definition ending_pattern (suffix : string) : RegExp :=
  fun name_ => if ends_with suffix name_ then Some [Some suffix] else None.

(** [/^(G)?x/]: the first capturing group is optional. *)
Definition optional_pattern : RegExp :=
  fun name_ =>
    match name_ with
    | String "G" (String "x" _) => Some [Some "Gx"; Some "G"]
    | String "x" _ => Some [Some "x"; None]
    | _ => None
    end.

Definition file (name_ : string) : File :=
  {| name := name_; properties := [("path", VStr "/data"); ("size", VNum 1)] |}.

Definition dat_rule : CollectionFileConfig :=
  {| regex := ending_pattern ".dat"; bucket := "protected";
     file_url_path := undefined; type := VStr "data" |}.

Definition qa_rule : CollectionFileConfig :=
  {| regex := ending_pattern ".qa"; bucket := "private";
     file_url_path := VStr "qa-files"; type := undefined |}.

(** A rule whose url_path is the empty string. *)
Definition blank_rule : CollectionFileConfig :=
  {| regex := ending_pattern ".dat"; bucket := "protected";
     file_url_path := VStr ""; type := VStr "data" |}.

(** A rule whose bucket key is not in the bucket table of the examples
    and names a member of [Object.prototype]. *)
Definition constructor_rule : CollectionFileConfig :=
  {| regex := ending_pattern ".dat"; bucket := "constructor";
     file_url_path := undefined; type := VStr "data" |}.

Definition example_collection (ignore : Value) : Collection :=
  {| provider_path := VStr "/data";
     granuleIdExtraction := stem_pattern;
     dataType := VStr "EX";
     version := VStr "001";
     files := [dat_rule; qa_rule];
     url_path := VStr "example";
     collection_ignoreFilesConfigForDiscovery := ignore |}.

Definition example_config (policy ignore_top ignore_collection : Value) : Config :=
  {| provider := [("protocol", VStr "s3")];
     useList := undefined;
     collection := example_collection ignore_collection;
     buckets := [("protected", {| bucket_name := VStr "bucket-x" |});
                 ("private", {| bucket_name := VStr "bucket-y" |})];
     ignoreFilesConfigForDiscovery := ignore_top;
     duplicateHandling := policy |}.

(** The configuration of the examples with other rules. *)
Definition example_config_with (rules : list CollectionFileConfig) : Config :=
  {| provider := [("protocol", VStr "s3")];
     useList := undefined;
     collection :=
       {| provider_path := VStr "/data";
          granuleIdExtraction := stem_pattern;
          dataType := VStr "EX";
          version := VStr "001";
          files := rules;
          url_path := VStr "example";
          collection_ignoreFilesConfigForDiscovery := undefined |};
     buckets := [("protected", {| bucket_name := VStr "bucket-x" |});
                 ("private", {| bucket_name := VStr "bucket-y" |})];
     ignoreFilesConfigForDiscovery := undefined;
     duplicateHandling := VStr "replace" |}.

Definition example_env (key : string) : Value :=
  if key =? "archive_api_uri" then VStr "https://api"
  else if key =? "oauth_provider" then VStr "earthdata"
  else if key =? "urs_id" then VStr "user"
  else if key =? "urs_password_secret_name" then VStr "pw-secret"
  else undefined.

(** A world in which the listing and the credentials succeed and the
    catalog answers as [catalog] says for each url. *)
Definition example_world (listing : list File)
    (catalog : string -> Promise Response) : World :=
  {| process_env := example_env;
     provider_list := fun _ _ _ => Ok listing;
     normalizeProviderPath := ToString;
     duplicateHandlingType := duplicateHandling;
     getSecretString := fun _ => Ok (VStr "secret");
     getAuthToken := fun _ _ => Ok (VStr "token");
     got_get := fun url _ => catalog url |}.

Definition exists_at (t : nat) : Promise Response :=
  {| settles_at := t; settled := Ok {| statusCode := 200; body := "{}" |} |}.

Definition not_found_at (t : nat) : Promise Response :=
  {| settles_at := t; settled := Err (HTTPError 404 "Not Found") |}.

Definition server_error_at (t : nat) : Promise Response :=
  {| settles_at := t; settled := Err (HTTPError 500 "Internal Server Error") |}.

(** A1 is in the catalog, everything else is not. *)
Definition catalog_with_A1 (url : string) : Promise Response :=
  if url =? "https://api/granules/A1" then exists_at 1 else not_found_at 1.

(** Nothing is in the catalog. *)
Definition empty_catalog (url : string) : Promise Response := not_found_at 1.

(** B2 is in the catalog, and the lookup of A1 fails before that answer
    is there. *)
Definition failing_catalog (url : string) : Promise Response :=
  if url =? "https://api/granules/A1" then server_error_at 1
  else if url =? "https://api/granules/B2" then exists_at 2
  else not_found_at 3.

(** A listing whose granule ids are numbers, 10 before 2. *)
Definition numbered_listing : list File := [file "10.dat"; file "2.dat"].

(** A listing with numbered and named granule ids; A1 is in the catalog. *)
Definition mixed_listing : list File :=
  [file "B2.dat"; file "10.dat"; file "A1.dat"; file "2.dat"; file "B2.qa"].

(** A listing with a file whose granule id is __proto__. *)
Definition proto_listing : list File :=
  [file "A1.dat"; file "__proto__.dat"; file "B2.dat"].

Definition mixed_output : Output :=
  match outcome (discoverGranules (example_world mixed_listing catalog_with_A1)
                                  (example_config (VStr "skip") undefined undefined)) with
  | Ok out => out
  | Err _ => {| granules := [] |}
  end.

(** What the task returns for the listing with the granule id __proto__
    under 'replace', the files configuration being ignored. *)
Definition proto_output : Output :=
  match outcome (discoverGranules (example_world proto_listing empty_catalog)
                                  (example_config (VStr "replace") (VBool true) undefined)) with
  | Ok out => out
  | Err _ => {| granules := [] |}
  end.

End Examples.

From Stdlib Require Import Permutation.

(* ===================================================================== *)
(** ** Further notions for the task *)
(* ===================================================================== *)

Module TaskNotions.
Import Js Lodash DiscoverGranules Notions.

Definition is_listing (ev : Event) : bool :=
  match ev with ListFiles _ _ _ => true | _ => false end.

(** The path that the task lists. *)
Definition listed_path (w : World) (config : Config) : string :=
  normalizeProviderPath w (provider_path (collection config)).

(** The groups that classification makes of a listing. *)
Definition groups_of (config : Config) (listing : list File) : Obj (list File) :=
  groupFilesByGranuleId (granuleIdExtraction (collection config)) listing.

(** All the files of the groups of an object, group after group. *)
Definition grouped_files {A} (o : Obj (list A)) : list A :=
  List.concat (map snd o).

(** The first rule that matches the file names a bucket that is found
    nowhere: the table has no entry under that key, and the key names no
    member of [Object.prototype]. *)
Definition bucket_missing (config : Config) (file : File) : Prop :=
  exists rule,
    getCollectionFileConfig (files (collection config)) file = Some rule /\
    obj_get (bucket rule) (buckets config) = None /\
    inherited (bucket rule) = None.

End TaskNotions.

Module TaskExamples.
Import Js Lodash DiscoverGranules Notions Examples.

(** A world whose provider cannot be reached. *)
Definition unreachable_world : World :=
  {| process_env := example_env;
     provider_list :=
       fun _ _ _ => Err (CollaboratorError "provider" "connection refused");
     normalizeProviderPath := ToString;
     duplicateHandlingType := duplicateHandling;
     getSecretString := fun _ => Ok (VStr "secret");
     getAuthToken := fun _ _ => Ok (VStr "token");
     got_get := fun url _ => empty_catalog url |}.

(** A catalog that answers 404 without the usual status message. *)
Definition terse_catalog (url : string) : Promise Response :=
  {| settles_at := 1; settled := Err (HTTPError 404 "") |}.

(** The collection of the examples with a rule whose bucket is not in
    the bucket table. *)
Definition txt_rule : CollectionFileConfig :=
  {| regex := ending_pattern ".txt"; bucket := "public";
     file_url_path := undefined; type := VStr "text" |}.

Definition config_with_unknown_bucket : Config :=
  {| provider := [("protocol", VStr "s3")];
     useList := undefined;
     collection :=
       {| provider_path := VStr "/data";
          granuleIdExtraction := stem_pattern;
          dataType := VStr "EX";
          version := VStr "001";
          files := [dat_rule; txt_rule];
          url_path := VStr "example";
          collection_ignoreFilesConfigForDiscovery := undefined |};
     buckets := [("protected", {| bucket_name := VStr "bucket-x" |})];
     ignoreFilesConfigForDiscovery := undefined;
     duplicateHandling := VStr "replace" |}.

End TaskExamples.

(* ===================================================================== *)
(** ** Migration of the provider records (data-migration1/src/providers.ts) *)
(* ===================================================================== *)

Module ProviderMigration.
Import Js.

(** [new Date(value)] *)
Inductive JsDate : Type :=
| NewDate (value : Value).

(** A provider record of the DynamoDB table.  Its [id] is the hash key of
    the table, a string; the other attributes are whatever the record
    holds, [undefined] when it lacks them. *)
Module Dynamo.
Record Record_ : Type := mkRecord {
  id : string;
  protocol : Value;
  host : Value;
  port : Value;
  username : Value;
  password : Value;
  encrypted : Value;
  globalConnectionLimit : Value;
  privateKey : Value;
  cmKeyId : Value;
  certificateUri : Value;
  createdAt : Value;
  updatedAt : Value
}.
End Dynamo.

(** [RDSProviderRecord], a row of the table [providers]. *)
Module RDS.
Record Record_ : Type := mkRecord {
  name : string;
  protocol : Value;
  host : Value;
  port : Value;
  username : Value;
  password : Value;
  globalConnectionLimit : Value;
  privateKey : Value;
  cmKeyId : Value;
  certificateUri : Value;
  created_at : JsDate;
  updated_at : option JsDate
}.
End RDS.

(** The table [providers] of the database. *)
Definition Table : Type := list RDS.Record_.

(** What the migration throws: its own two errors, and the failures of
    the services it calls. *)
Inductive MigrationError : Type :=
| RecordAlreadyMigrated (message : string)
| UnableToDecrypt
    (* new Error('Unable to decrypt') *)
| ServiceFailure (origin message : string).

Inductive Attempt (A : Type) : Type :=
| Done (a : A)
| Failed (e : MigrationError).
Arguments Done {A} a.
Arguments Failed {A} e.

(** The services around the migration: the validation of the API model,
    KMS, the S3 key pair provider, the database, the environment helper
    and the search queue over the DynamoDB table.  A service answers or
    fails with a message. *)
Record Services : Type := mkServices {
  recordIsValid : Dynamo.Record_ -> option string;
    (* Manager.recordIsValid(record, schemas.provider) throws *)
  decryptBase64String : Value -> Value + string;
  S3KeyPairProvider_decrypt : Value -> Value + string;
  KMS_encrypt : string -> Value -> Value + string;
  select_failure : string -> option string;
    (* knex('providers').where('name', id).first() rejects *)
  insert_failure : RDS.Record_ -> option string;
    (* knex('providers').insert(record) rejects *)
  getRequiredEnvVar : string -> (string -> Value) -> string + string;
  scan : string -> list Dynamo.Record_ * option string
    (* the records that the search queue of a table yields, in order,
       and the failure of the queue after them, if it fails *)
}.

Definition service {A} (origin : string) (answer : A + string) : Attempt A :=
  match answer with
  | inl a => Done a
  | inr message => Failed (ServiceFailure origin message)
  end.

Definition and_then {A B} (m : Attempt A) (f : A -> Attempt B) : Attempt B :=
  match m with
  | Done a => f a
  | Failed e => Failed e
  end.

(** [try { m } catch (error) { handler }] *)
Definition try_catch {A} (m : Attempt A) (handler : MigrationError -> Attempt A)
  : Attempt A :=
  match m with
  | Done a => Done a
  | Failed e => handler e
  end.

Definition decrypt (s : Services) (value : Value) : Attempt Value :=
  try_catch
    (and_then (service "KMS.decryptBase64String" (decryptBase64String s value))
       (fun plaintext =>
          match plaintext with
          | undefined => Failed UnableToDecrypt
          | _ => Done plaintext
          end))
    (fun _ => service "S3KeyPairProvider.decrypt" (S3KeyPairProvider_decrypt s value)).

Definition migrateProviderRecord (s : Services) (dynamoRecord : Dynamo.Record_)
    (providerKmsKeyId : string) (providers : Table) : Attempt unit * Table :=
  match recordIsValid s dynamoRecord with
  | Some message => (Failed (ServiceFailure "Manager.recordIsValid" message), providers)
  | None =>
  match select_failure s (Dynamo.id dynamoRecord) with
  | Some message => (Failed (ServiceFailure "knex" message), providers)
  | None =>
  let existingRecord :=
    find (fun row => RDS.name row =? Dynamo.id dynamoRecord) providers in
  match existingRecord with
  | Some _ =>
      (Failed (RecordAlreadyMigrated
                 ("Provider name " ++ Dynamo.id dynamoRecord
                  ++ " was already migrated, skipping")),
       providers)
  | None =>
  let encrypted := Dynamo.encrypted dynamoRecord in
  match
    (if truthy (Dynamo.username dynamoRecord) then
       and_then (if truthy encrypted then decrypt s (Dynamo.username dynamoRecord)
                 else Done (Dynamo.username dynamoRecord))
                (fun plaintext =>
                   service "KMS.encrypt" (KMS_encrypt s providerKmsKeyId plaintext))
     else Done (Dynamo.username dynamoRecord))
  with
  | Failed e => (Failed e, providers)
  | Done username =>
  match
    (if truthy (Dynamo.password dynamoRecord) then
       and_then (if truthy encrypted then decrypt s (Dynamo.password dynamoRecord)
                 else Done (Dynamo.password dynamoRecord))
                (fun plaintext =>
                   service "KMS.encrypt" (KMS_encrypt s providerKmsKeyId plaintext))
     else Done (Dynamo.password dynamoRecord))
  with
  | Failed e => (Failed e, providers)
  | Done password =>
  let updatedRecord :=
    {| RDS.name := Dynamo.id dynamoRecord;
       RDS.protocol := Dynamo.protocol dynamoRecord;
       RDS.host := Dynamo.host dynamoRecord;
       RDS.port := Dynamo.port dynamoRecord;
       RDS.username := username;
       RDS.password := password;
       RDS.globalConnectionLimit := Dynamo.globalConnectionLimit dynamoRecord;
       RDS.privateKey := Dynamo.privateKey dynamoRecord;
       RDS.cmKeyId := Dynamo.cmKeyId dynamoRecord;
       RDS.certificateUri := Dynamo.certificateUri dynamoRecord;
       RDS.created_at := NewDate (Dynamo.createdAt dynamoRecord);
       RDS.updated_at :=
         if truthy (Dynamo.updatedAt dynamoRecord)
         then Some (NewDate (Dynamo.updatedAt dynamoRecord))
         else None |} in
  match insert_failure s updatedRecord with
  | Some message => (Failed (ServiceFailure "knex" message), providers)
  | None => (Done tt, (providers ++ [updatedRecord])%list)
  end end end end end end.

Record MigrationSummary : Type := mkSummary {
  dynamoRecords : nat;
  success : nat;
  failed : nat;
  skipped : nat
}.

(** The lines that the migration logs. *)
Inductive LogLine : Type :=
| InfoError (e : MigrationError)                   (* logger.info(error) *)
| ErrorLine (message : string) (e : MigrationError) (* logger.error(message, error) *)
| InfoLine (message : string).                     (* logger.info(message) *)

(** [error instanceof RecordAlreadyMigrated] *)
Definition instanceof_RecordAlreadyMigrated (e : MigrationError) : bool :=
  match e with RecordAlreadyMigrated _ => true | _ => false end.

(** The loop of [migrateProviders] over the records that the queue
    yields. *)
Fixpoint migrate_queue (s : Services) (providerKmsKeyId : string)
    (records : list Dynamo.Record_) (migrationSummary : MigrationSummary)
    (providers : Table) (log : list LogLine)
  : MigrationSummary * Table * list LogLine :=
  match records with
  | [] => (migrationSummary, providers, log)
  | record :: rest =>
      let counted :=
        {| dynamoRecords := dynamoRecords migrationSummary + 1;
           success := success migrationSummary;
           failed := failed migrationSummary;
           skipped := skipped migrationSummary |} in
      match migrateProviderRecord s record providerKmsKeyId providers with
      | (Done _, providers') =>
          migrate_queue s providerKmsKeyId rest
            {| dynamoRecords := dynamoRecords counted;
               success := success counted + 1;
               failed := failed counted;
               skipped := skipped counted |}
            providers' log
      | (Failed error, providers') =>
          if instanceof_RecordAlreadyMigrated error then
            migrate_queue s providerKmsKeyId rest
              {| dynamoRecords := dynamoRecords counted;
                 success := success counted;
                 failed := failed counted;
                 skipped := skipped counted + 1 |}
              providers' (log ++ [InfoError error])%list
          else
            migrate_queue s providerKmsKeyId rest
              {| dynamoRecords := dynamoRecords counted;
                 success := success counted;
                 failed := failed counted + 1;
                 skipped := skipped counted |}
              providers'
              (log ++ [ErrorLine
                         ("Could not create provider record in RDS for Dynamo provider name "
                          ++ Dynamo.id record ++ ":")
                         error])%list
      end
  end.

Definition migrateProviders (s : Services) (env : string -> Value) (providers : Table)
  : Attempt MigrationSummary * Table * list LogLine :=
  match service "envUtils.getRequiredEnvVar" (getRequiredEnvVar s "ProvidersTable" env) with
  | Failed e => (Failed e, providers, [])
  | Done providersTable =>
  match service "envUtils.getRequiredEnvVar"
                (getRequiredEnvVar s "provider_kms_key_id" env) with
  | Failed e => (Failed e, providers, [])
  | Done providerKmsKeyId =>
      let migrationSummary :=
        {| dynamoRecords := 0; success := 0; failed := 0; skipped := 0 |} in
      match migrate_queue s providerKmsKeyId (fst (scan s providersTable))
                          migrationSummary providers [] with
      | (migrationSummary', providers', log) =>
          match snd (scan s providersTable) with
          | Some message =>
              (Failed (ServiceFailure "DynamoDbSearchQueue" message), providers', log)
          | None =>
              (Done migrationSummary', providers',
               (log ++ [InfoLine ("successfully migrated "
                                  ++ ToString (VNum (Z.of_nat (success migrationSummary')))
                                  ++ " provider records")])%list)
          end
      end
  end end.

(** The names of the rows of a table. *)
Definition names (providers : Table) : list string := map RDS.name providers.

(** The credential that a row gets for a credential of the record: kept
    when it is falsy, otherwise the encryption, under the key of the
    providers, of its plain text, which is the credential itself or, for
    a record marked encrypted, what [decrypt] makes of it. *)
Definition stored_credential (s : Services) (providerKmsKeyId : string)
    (encrypted credential stored : Value) : Prop :=
  if truthy credential then
    exists plaintext,
      (if truthy encrypted then decrypt s credential = Done plaintext
       else plaintext = credential) /\
      KMS_encrypt s providerKmsKeyId plaintext = inl stored
  else stored = credential.

(** Services for the examples: records with an empty id are invalid, KMS
    cannot decrypt what starts with "s3:", and the database answers. *)
Definition example_services_with (queue : list Dynamo.Record_)
    (queue_failure : option string) : Services :=
  {| recordIsValid := fun r => if Dynamo.id r =? "" then Some "id is required" else None;
     decryptBase64String :=
       fun v => if String.prefix "s3:" (ToString v) then inr "InvalidCiphertextException"
                else inl (VStr ("plain(" ++ ToString v ++ ")"));
     S3KeyPairProvider_decrypt := fun v => inl (VStr ("legacy(" ++ ToString v ++ ")"));
     KMS_encrypt := fun key v => inl (VStr ("kms[" ++ key ++ "](" ++ ToString v ++ ")"));
     select_failure := fun _ => None;
     insert_failure := fun _ => None;
     getRequiredEnvVar :=
       fun name env =>
         match env name with
         | VStr value => inl value
         | _ => inr ("The " ++ name ++ " environment variable must be set")
         end;
     scan := fun _ => (queue, queue_failure) |}.

Definition example_services (queue : list Dynamo.Record_) : Services :=
  example_services_with queue None.

Definition migration_env (name : string) : Value :=
  if name =? "ProvidersTable" then VStr "providers-table"
  else if name =? "provider_kms_key_id" then VStr "key-1"
  else undefined.

Definition provider_record (id username : string) (encrypted : bool) : Dynamo.Record_ :=
  {| Dynamo.id := id;
     Dynamo.protocol := VStr "s3";
     Dynamo.host := VStr "bucket";
     Dynamo.port := undefined;
     Dynamo.username := VStr username;
     Dynamo.password := undefined;
     Dynamo.encrypted := VBool encrypted;
     Dynamo.globalConnectionLimit := VNum 10;
     Dynamo.privateKey := undefined;
     Dynamo.cmKeyId := undefined;
     Dynamo.certificateUri := undefined;
     Dynamo.createdAt := VNum 1600000000000;
     Dynamo.updatedAt := undefined |}.

Definition example_queue : list Dynamo.Record_ :=
  [provider_record "p1" "alice" false;
   provider_record "" "nobody" false;
   provider_record "p2" "s3:bob" true;
   provider_record "p1" "alice" false].

End ProviderMigration.

(* ===================================================================== *)
(** ** Facts about objects *)
(* ===================================================================== *)

Import Js Lodash DiscoverGranules Notions Examples.

Section ObjectFacts.
Context {V : Type}.
Implicit Types (o : Obj V) (k : string) (v : V).

Lemma obj_has_false_get o k : obj_has k o = false -> obj_get k o = None.
Proof.
  unfold obj_has. destruct (obj_get k o); [discriminate | reflexivity].
Qed.

Lemma obj_get_update o k k' v :
  obj_get k' (obj_update k v o) =
  if k =? k' then (if obj_has k o then Some v else None) else obj_get k' o.
Proof.
  unfold obj_has.
  induction o as [|[k0 v0] o IH]; simpl.
  - destruct (k =? k'); reflexivity.
  - destruct (String.eqb_spec k0 k) as [->|Hk0]; simpl.
    + destruct (String.eqb_spec k k') as [->|Hkk']; reflexivity.
    + rewrite IH. destruct (String.eqb_spec k k') as [->|Hkk'].
      * apply String.eqb_neq in Hk0. rewrite Hk0. reflexivity.
      * reflexivity.
Qed.

Lemma obj_get_app o1 o2 k :
  obj_get k (o1 ++ o2)%list =
  match obj_get k o1 with Some v => Some v | None => obj_get k o2 end.
Proof.
  induction o1 as [|[k0 v0] o1 IH]; simpl; [reflexivity|].
  destruct (k0 =? k); [reflexivity | exact IH].
Qed.

Lemma obj_get_insert_index o n k k' v :
  obj_get k o = None ->
  obj_get k' (obj_insert_index n k v o) =
  if k =? k' then Some v else obj_get k' o.
Proof.
  induction o as [|[k0 v0] o IH]; simpl; intros Hnone.
  - reflexivity.
  - destruct (String.eqb_spec k0 k) as [->|Hk0]; [discriminate|].
    destruct (array_index k0) as [n0|].
    + destruct (n0 <=? n)%N; simpl.
      * rewrite (IH Hnone).
        destruct (String.eqb_spec k k') as [->|Hkk'].
        -- apply String.eqb_neq in Hk0. rewrite Hk0. reflexivity.
        -- reflexivity.
      * reflexivity.
    + simpl. reflexivity.
Qed.

(** Reading after an assignment. *)
Lemma obj_get_set o k k' v :
  obj_get k' (obj_set k v o) = if k =? k' then Some v else obj_get k' o.
Proof.
  unfold obj_set. destruct (obj_has k o) eqn:Hhas.
  - rewrite obj_get_update, Hhas. reflexivity.
  - pose proof (obj_has_false_get _ _ Hhas) as Hnone.
    destruct (array_index k) as [n|].
    + apply obj_get_insert_index, Hnone.
    + rewrite obj_get_app. simpl.
      destruct (String.eqb_spec k k') as [->|Hkk'].
      * rewrite Hnone. reflexivity.
      * destruct (obj_get k' o); reflexivity.
Qed.

(** Reading after a [delete]. *)
Lemma obj_get_delete o k k' :
  obj_get k' (obj_delete k o) = if k =? k' then None else obj_get k' o.
Proof.
  induction o as [|[k0 v0] o IH]; simpl.
  - destruct (k =? k'); reflexivity.
  - destruct (String.eqb_spec k0 k) as [->|Hk0].
    + rewrite IH. destruct (k =? k'); reflexivity.
    + simpl. rewrite IH.
      destruct (String.eqb_spec k k') as [->|Hkk'].
      * apply String.eqb_neq in Hk0. rewrite Hk0. reflexivity.
      * reflexivity.
Qed.

(** A key is enumerated exactly when reading it gives something. *)
Lemma in_Object_keys o k : In k (Object_keys o) <-> obj_get k o <> None.
Proof.
  unfold Object_keys. induction o as [|[k0 v0] o IH]; simpl.
  - split; [intros [] | intros H; apply H; reflexivity].
  - destruct (String.eqb_spec k0 k) as [->|Hk0].
    + split; [discriminate | intros _; left; reflexivity].
    + rewrite <- IH. split.
      * intros [H|H]; [contradiction | exact H].
      * intros H; right; exact H.
Qed.

Lemma in_obj_get o k v : obj_get k o = Some v -> In (k, v) o.
Proof.
  induction o as [|[k0 v0] o IH]; simpl; [discriminate|].
  destruct (String.eqb_spec k0 k) as [->|Hk0].
  - intros [= ->]. left; reflexivity.
  - intros H. right. apply IH, H.
Qed.

Lemma Object_keys_update o k v : Object_keys (obj_update k v o) = Object_keys o.
Proof.
  unfold Object_keys. induction o as [|[k0 v0] o IH]; simpl; [reflexivity|].
  destruct (k0 =? k); simpl; [reflexivity | rewrite IH; reflexivity].
Qed.

Lemma Object_keys_delete o k :
  Object_keys (obj_delete k o) = filter (fun k' => negb (k' =? k)) (Object_keys o).
Proof.
  unfold Object_keys. induction o as [|[k0 v0] o IH]; simpl; [reflexivity|].
  destruct (k0 =? k); simpl; [exact IH | rewrite IH; reflexivity].
Qed.

Lemma in_keys_insert_index o n k k' v :
  ~ In k (Object_keys o) ->
  In k' (Object_keys (obj_insert_index n k v o)) <-> k' = k \/ In k' (Object_keys o).
Proof.
  intros Hk. rewrite !in_Object_keys.
  assert (Hnone : obj_get k o = None).
  { destruct (obj_get k o) eqn:E; [|reflexivity].
    exfalso. apply Hk, in_Object_keys. rewrite E. discriminate. }
  rewrite (obj_get_insert_index _ _ _ _ _ Hnone).
  destruct (String.eqb_spec k k') as [->|Hne].
  - split; [intros _; left; reflexivity | discriminate].
  - split; [intros H; right; exact H | intros [->|H]; [contradiction | exact H]].
Qed.

Lemma NoDup_keys_insert_index o n k v :
  ~ In k (Object_keys o) -> NoDup (Object_keys o) ->
  NoDup (Object_keys (obj_insert_index n k v o)).
Proof.
  induction o as [|[k0 v0] o IH]; simpl; intros Hk Hnd.
  - constructor; [intros [] | constructor].
  - assert (Hk' : ~ In k (Object_keys o)) by (intros H; apply Hk; right; exact H).
    assert (Hcons : NoDup (Object_keys ((k, v) :: (k0, v0) :: o)))
      by (simpl; constructor; assumption).
    inversion Hnd as [|? ? Hk0 Hnd']; subst.
    destruct (array_index k0) as [n0|]; [|exact Hcons].
    destruct (n0 <=? n)%N; [|exact Hcons].
    simpl. constructor; [|apply IH; assumption].
    intros Hin. apply (in_keys_insert_index _ _ _ _ _ Hk') in Hin.
    destruct Hin as [->|Hin]; [apply Hk; left; reflexivity | contradiction].
Qed.

Lemma NoDup_keys_set o k v :
  NoDup (Object_keys o) -> NoDup (Object_keys (obj_set k v o)).
Proof.
  intros Hnd. unfold obj_set. destruct (obj_has k o) eqn:Hhas.
  - rewrite Object_keys_update. exact Hnd.
  - assert (Hk : ~ In k (Object_keys o)).
    { intros Hin. apply in_Object_keys in Hin.
      apply Hin, obj_has_false_get, Hhas. }
    destruct (array_index k) as [n|].
    + apply NoDup_keys_insert_index; assumption.
    + unfold Object_keys in *. rewrite map_app. simpl.
      apply NoDup_app; [exact Hnd | constructor; [intros [] | constructor] |].
      intros x Hx [<-|[]]. apply Hk, Hx.
Qed.

Lemma NoDup_keys_delete o k :
  NoDup (Object_keys o) -> NoDup (Object_keys (obj_delete k o)).
Proof.
  intros Hnd. rewrite Object_keys_delete. apply NoDup_filter, Hnd.
Qed.

(** With distinct keys, an entry of the object is what reading its key
    gives. *)
Lemma obj_get_of_in o k v :
  NoDup (Object_keys o) -> In (k, v) o -> obj_get k o = Some v.
Proof.
  unfold Object_keys.
  induction o as [|[k0 v0] o IH]; simpl; intros Hnd Hin; [contradiction|].
  inversion Hnd as [|? ? Hk0 Hnd']; subst.
  destruct Hin as [[= -> ->]|Hin].
  - rewrite String.eqb_refl. reflexivity.
  - destruct (String.eqb_spec k0 k) as [->|Hne].
    + exfalso. apply Hk0. apply (in_map fst) in Hin. exact Hin.
    + apply IH; assumption.
Qed.
End ObjectFacts.

(* ===================================================================== *)
(** ** Classification *)
(* ===================================================================== *)

Section Classification.
Variable granuleIdRegex : RegExp.

(** The result of [groupBy] never owns the key __proto__. *)
Lemma groupBy_step_no_proto (acc : Obj (list File)) (f : File) :
  obj_get "__proto__" acc = None ->
  obj_get "__proto__" (groupBy_step (granuleIdOfFile granuleIdRegex) acc f) = None.
Proof.
  intros Hacc. unfold groupBy_step. fold (group_key granuleIdRegex f).
  destruct (obj_get (group_key granuleIdRegex f) acc) as [g0|] eqn:Hg0.
  - rewrite obj_get_update.
    destruct (String.eqb_spec (group_key granuleIdRegex f) "__proto__") as [E|Hne].
    + rewrite E in Hg0. congruence.
    + exact Hacc.
  - destruct (String.eqb_spec (group_key granuleIdRegex f) "__proto__") as [E|Hne].
    + exact Hacc.
    + rewrite obj_get_set. apply String.eqb_neq in Hne. rewrite Hne. exact Hacc.
Qed.

Lemma groupBy_from_no_proto (files_ : list File) :
  forall acc : Obj (list File),
    obj_get "__proto__" acc = None ->
    obj_get "__proto__"
            (fold_left (groupBy_step (granuleIdOfFile granuleIdRegex)) files_ acc) = None.
Proof.
  induction files_ as [|f files_ IH]; intros acc Hacc; simpl; [exact Hacc|].
  apply IH, groupBy_step_no_proto, Hacc.
Qed.

Lemma groupBy_step_get (acc : Obj (list File)) (f : File) (k : string) :
  k <> "__proto__" ->
  obj_get k (groupBy_step (granuleIdOfFile granuleIdRegex) acc f) =
  if group_key granuleIdRegex f =? k then
    Some (match obj_get k acc with
          | Some group => group ++ [f]
          | None => [f]
          end)%list
  else obj_get k acc.
Proof.
  intros Hk. unfold groupBy_step. fold (group_key granuleIdRegex f).
  destruct (obj_get (group_key granuleIdRegex f) acc) as [g0|] eqn:Hg0.
  - rewrite obj_get_update. unfold obj_has. rewrite Hg0.
    destruct (String.eqb_spec (group_key granuleIdRegex f) k) as [<-|Hne];
      [rewrite Hg0|]; reflexivity.
  - destruct (String.eqb_spec (group_key granuleIdRegex f) "__proto__") as [E|Hp].
    + destruct (String.eqb_spec (group_key granuleIdRegex f) k) as [<-|Hne];
        [contradiction | reflexivity].
    + rewrite obj_get_set.
      destruct (String.eqb_spec (group_key granuleIdRegex f) k) as [<-|Hne];
        [rewrite Hg0|]; reflexivity.
Qed.

Lemma groupBy_from_get (files_ : list File) :
  forall (acc : Obj (list File)) (k : string),
    k <> "__proto__" ->
    obj_get k (fold_left (groupBy_step (granuleIdOfFile granuleIdRegex)) files_ acc) =
    match obj_get k acc, files_keyed granuleIdRegex k files_ with
    | Some group, more => Some (group ++ more)%list
    | None, [] => None
    | None, more => Some more
    end.
Proof.
  unfold files_keyed.
  induction files_ as [|f files_ IH]; intros acc k Hk; simpl.
  - destruct (obj_get k acc) as [g|]; [rewrite app_nil_r|]; reflexivity.
  - rewrite (IH _ _ Hk), (groupBy_step_get _ _ _ Hk).
    destruct (String.eqb_spec (group_key granuleIdRegex f) k) as [<-|Hne].
    + destruct (obj_get (group_key granuleIdRegex f) acc) as [g0|];
        [rewrite <- app_assoc|]; reflexivity.
    + reflexivity.
Qed.

(** What classification holds under a key: nothing under "null" and
    under __proto__, and under any other key the files filed under it,
    in listing order, when there are any. *)
Lemma groupFilesByGranuleId_get (files_ : list File) (k : string) :
  obj_get k (groupFilesByGranuleId granuleIdRegex files_) =
  if "null" =? k then None
  else if "__proto__" =? k then None
  else match files_keyed granuleIdRegex k files_ with
       | [] => None
       | group => Some group
       end.
Proof.
  unfold groupFilesByGranuleId, groupBy.
  rewrite obj_get_delete.
  destruct ("null" =? k); [reflexivity|].
  destruct (String.eqb_spec "__proto__" k) as [<-|Hne].
  - apply groupBy_from_no_proto. reflexivity.
  - rewrite groupBy_from_get by congruence. reflexivity.
Qed.

(** The prototype of the classification is the last listed file that is
    filed under __proto__. *)
Lemma groupBy_prototype_from (files_ : list File) :
  forall prototype : option File,
    fold_left (groupBy_prototype_step (granuleIdOfFile granuleIdRegex)) files_ prototype =
    match rev (files_keyed granuleIdRegex "__proto__" files_) with
    | last_ :: _ => Some last_
    | [] => prototype
    end.
Proof.
  unfold files_keyed.
  induction files_ as [|f files_ IH]; intros prototype; simpl; [reflexivity|].
  rewrite IH. unfold groupBy_prototype_step. fold (group_key granuleIdRegex f).
  destruct (group_key granuleIdRegex f =? "__proto__"); simpl.
  - destruct (rev (filter (fun f0 => group_key granuleIdRegex f0 =? "__proto__") files_));
      reflexivity.
  - reflexivity.
Qed.

Lemma groupFilesByGranuleId_prototype_none (files_ : list File) :
  files_keyed granuleIdRegex "__proto__" files_ = [] ->
  groupFilesByGranuleId_prototype granuleIdRegex files_ = None.
Proof.
  intros H. unfold groupFilesByGranuleId_prototype, groupBy_prototype.
  rewrite groupBy_prototype_from, H. reflexivity.
Qed.
End Classification.

Section ClassificationShape.
Variable granuleIdRegex : RegExp.

Lemma NoDup_keys_groupBy_step (acc : Obj (list File)) (f : File) :
  NoDup (Object_keys acc) ->
  NoDup (Object_keys (groupBy_step (granuleIdOfFile granuleIdRegex) acc f)).
Proof.
  intros Hnd. unfold groupBy_step.
  destruct (obj_get _ acc).
  - rewrite Object_keys_update. exact Hnd.
  - destruct (_ =? "__proto__"); [exact Hnd | apply NoDup_keys_set, Hnd].
Qed.

Lemma NoDup_keys_groupBy_from (files_ : list File) :
  forall acc : Obj (list File),
    NoDup (Object_keys acc) ->
    NoDup (Object_keys
             (fold_left (groupBy_step (granuleIdOfFile granuleIdRegex)) files_ acc)).
Proof.
  induction files_ as [|f files_ IH]; intros acc Hnd; simpl.
  - exact Hnd.
  - apply IH, NoDup_keys_groupBy_step, Hnd.
Qed.

(** The keys of a classification are distinct. *)
Lemma NoDup_keys_groupFilesByGranuleId (files_ : list File) :
  NoDup (Object_keys (groupFilesByGranuleId granuleIdRegex files_)).
Proof.
  unfold groupFilesByGranuleId, groupBy.
  apply NoDup_keys_delete, NoDup_keys_groupBy_from. constructor.
Qed.

(** The groups of a classification: a group is never empty, its key is
    neither "null" nor __proto__, and it holds the files filed under its
    key, in listing order. *)
Lemma groupFilesByGranuleId_entry_key (files_ : list File) (k : string)
    (group : list File) :
  In (k, group) (groupFilesByGranuleId granuleIdRegex files_) ->
  k <> "__proto__".
Proof.
  intros Hin ->.
  apply obj_get_of_in in Hin; [|apply NoDup_keys_groupFilesByGranuleId].
  rewrite groupFilesByGranuleId_get in Hin. discriminate.
Qed.

Lemma groupFilesByGranuleId_entry (files_ : list File) (k : string)
    (group : list File) :
  In (k, group) (groupFilesByGranuleId granuleIdRegex files_) ->
  k <> "null" /\ group <> [] /\ group = files_keyed granuleIdRegex k files_.
Proof.
  intros Hin.
  apply obj_get_of_in in Hin; [|apply NoDup_keys_groupFilesByGranuleId].
  rewrite groupFilesByGranuleId_get in Hin.
  destruct (String.eqb_spec "null" k) as [<-|Hne]; [discriminate|].
  destruct ("__proto__" =? k); [discriminate|].
  destruct (files_keyed granuleIdRegex k files_) as [|f0 fs] eqn:E; [discriminate|].
  injection Hin as <-.
  repeat split; [intros ->; apply Hne; reflexivity | discriminate].
Qed.

(** A file whose key is neither "null" nor __proto__ is in the group of
    its key. *)
Lemma groupFilesByGranuleId_member (files_ : list File) (f : File) :
  In f files_ -> group_key granuleIdRegex f <> "null" ->
  group_key granuleIdRegex f <> "__proto__" ->
  exists group,
    In (group_key granuleIdRegex f, group)
       (groupFilesByGranuleId granuleIdRegex files_) /\
    In f group /\
    group = files_keyed granuleIdRegex (group_key granuleIdRegex f) files_.
Proof.
  intros Hin Hkey Hproto.
  assert (Hmem : In f (files_keyed granuleIdRegex (group_key granuleIdRegex f) files_)).
  { unfold files_keyed. apply filter_In. split; [exact Hin | apply String.eqb_refl]. }
  exists (files_keyed granuleIdRegex (group_key granuleIdRegex f) files_).
  split; [|split; [exact Hmem | reflexivity]].
  apply in_obj_get. rewrite groupFilesByGranuleId_get.
  destruct (String.eqb_spec "null" (group_key granuleIdRegex f)) as [E|_].
  - exfalso. apply Hkey. symmetry. exact E.
  - destruct (String.eqb_spec "__proto__" (group_key granuleIdRegex f)) as [E|_].
    + exfalso. apply Hproto. symmetry. exact E.
    + destruct (files_keyed _ _ files_); [destruct Hmem | reflexivity].
Qed.
End ClassificationShape.

(** C9.  A file whose name matches the pattern with the string "null" as
    first capture is in no group of the classification: the group keyed
    "null" is deleted after grouping, so the result has no such key, and
    no group of the result holds the file. *)
Theorem null_capture_is_excluded
    (granuleIdRegex : RegExp) (files_ : list File) (f : File) (m : MatchArray) :
  In f files_ ->
  granuleIdRegex (name f) = Some m ->
  match_at m 1 = VStr "null" ->
  obj_get "null" (groupFilesByGranuleId granuleIdRegex files_) = None /\
  ~ In "null" (Object_keys (groupFilesByGranuleId granuleIdRegex files_)) /\
  forall k group,
    In (k, group) (groupFilesByGranuleId granuleIdRegex files_) -> ~ In f group.
Proof.
  intros Hin Hmatch Hcapture.
  assert (Hkey : group_key granuleIdRegex f = "null").
  { unfold group_key, granuleIdOfFile. rewrite Hmatch, Hcapture. reflexivity. }
  assert (Hget : obj_get "null" (groupFilesByGranuleId granuleIdRegex files_) = None).
  { rewrite groupFilesByGranuleId_get. reflexivity. }
  split; [exact Hget|]. split.
  - intros Hk. apply in_Object_keys in Hk. apply Hk, Hget.
  - intros k group Hentry Hf.
    apply groupFilesByGranuleId_entry in Hentry.
    destruct Hentry as (Hnull & _ & ->).
    unfold files_keyed in Hf. apply filter_In in Hf. destruct Hf as [_ Hf].
    apply String.eqb_eq in Hf. apply Hnull. rewrite <- Hf. exact Hkey.
Qed.

(** The listing of a file named null.dat, classified by what precedes the
    first dot. *)
Lemma null_capture_is_excluded_witness :
  In (file "null.dat") [file "A1.dat"; file "null.dat"] /\
  stem_pattern (name (file "null.dat")) = Some [Some "null."; Some "null"] /\
  Object_keys (groupFilesByGranuleId stem_pattern [file "A1.dat"; file "null.dat"])
  = ["A1"] /\
  forall k group,
    In (k, group) (groupFilesByGranuleId stem_pattern [file "A1.dat"; file "null.dat"]) ->
    ~ In (file "null.dat") group.
Proof.
  assert (Hin : In (file "null.dat") [file "A1.dat"; file "null.dat"])
    by (right; left; reflexivity).
  split; [exact Hin|]. split; [reflexivity|]. split; [reflexivity|].
  exact (proj2 (proj2 (null_capture_is_excluded stem_pattern _ _
                         [Some "null."; Some "null"] Hin eq_refl eq_refl))).
Defined.

(** C3 (the code departs from it).  The name null.dat matches the pattern
    and its first capture is the string "null", yet classification
    returns no group at all for a listing of that one file; and a name
    that matches a pattern whose first group takes no part in the match
    is filed under the key "undefined". *)
Theorem matching_file_lost_by_classification :
  stem_pattern "null.dat" = Some [Some "null."; Some "null"] /\
  groupFilesByGranuleId stem_pattern [file "null.dat"] = [] /\
  optional_pattern "x.dat" = Some [Some "x"; None] /\
  groupFilesByGranuleId optional_pattern [file "x.dat"]
  = [("undefined", [file "x.dat"])].
Proof.
  repeat split; reflexivity.
Qed.

(* ===================================================================== *)
(** ** Promises *)
(* ===================================================================== *)

Section PromiseFacts.
Context {A : Type}.
Implicit Types (ps : list (Promise A)) (p : Promise A).

Lemma first_rejection_none ps :
  first_rejection ps = None <->
  forall p, In p ps -> exists a, settled p = Ok a.
Proof.
  induction ps as [|p ps IH]; simpl.
  - split; [intros _ q [] | reflexivity].
  - destruct (settled p) as [a|e] eqn:Hp.
    + rewrite IH. split.
      * intros H q [<-|Hq]; [exists a; exact Hp | apply H, Hq].
      * intros H q Hq. apply H. right. exact Hq.
    + split.
      * destruct (first_rejection ps) as [[t' e']|];
          [destruct (settles_at p <=? t')%nat|]; discriminate.
      * intros H. destruct (H p (or_introl eq_refl)) as [a Ha].
        rewrite Hp in Ha. discriminate.
Qed.

(** The first rejection is the rejection of one of the promises, and
    no promise is rejected before it. *)
Lemma first_rejection_some ps t e :
  first_rejection ps = Some (t, e) ->
  exists p,
    In p ps /\ settled p = Err e /\ settles_at p = t /\
    forall q e', In q ps -> settled q = Err e' -> (t <= settles_at q)%nat.
Proof.
  revert t e. induction ps as [|p ps IH]; simpl; intros t e H; [discriminate|].
  destruct (settled p) as [a|e0] eqn:Hp.
  - destruct (IH _ _ H) as (p1 & Hin & Hs & Ht & Hmin).
    exists p1. repeat split; [right; exact Hin | exact Hs | exact Ht |].
    intros q e' [<-|Hq] Hq'; [rewrite Hp in Hq'; discriminate | eapply Hmin; eassumption].
  - destruct (first_rejection ps) as [[t' e']|] eqn:Hrest.
    + destruct (IH _ _ eq_refl) as (p1 & Hin & Hs & Ht & Hmin).
      destruct (Nat.leb_spec (settles_at p) t') as [Hle|Hgt].
      * injection H as <- <-. exists p.
        repeat split; [left; reflexivity | exact Hp |].
        intros q e1 [<-|Hq] Hq'; [lia|].
        specialize (Hmin q e1 Hq Hq'). lia.
      * injection H as <- <-. exists p1.
        repeat split; [right; exact Hin | exact Hs | exact Ht |].
        intros q e1 [<-|Hq] Hq'; [lia | eapply Hmin; eassumption].
    + injection H as <- <-. exists p.
      repeat split; [left; reflexivity | exact Hp |].
      intros q e1 [<-|Hq] Hq'; [lia|].
      apply first_rejection_none with (p := q) in Hrest; [|exact Hq].
      destruct Hrest as [a Ha]. rewrite Ha in Hq'. discriminate.
Qed.

(** [Promise.all] fails as soon as one promise is rejected. *)
Lemma Promise_all_rejected ps p e :
  In p ps -> settled p = Err e ->
  exists t e', first_rejection ps = Some (t, e') /\ Promise_all ps = Err e'.
Proof.
  intros Hin Hp. unfold Promise_all.
  destruct (first_rejection ps) as [[t e']|] eqn:H.
  - exists t, e'. split; reflexivity.
  - apply first_rejection_none with (p := p) in H; [|exact Hin].
    destruct H as [a Ha]. rewrite Ha in Hp. discriminate.
Qed.

Lemma Promise_all_map_fulfilled {B} (f : B -> Promise A) (g : B -> A) (l : list B) :
  (forall x, In x l -> settled (f x) = Ok (g x)) ->
  Promise_all (map f l) = Ok (map g l).
Proof.
  intros H. unfold Promise_all.
  assert (Hnone : first_rejection (map f l) = None).
  { apply first_rejection_none. intros p Hp.
    apply in_map_iff in Hp. destruct Hp as (x & <- & Hx).
    exists (g x). apply H, Hx. }
  rewrite Hnone. f_equal.
  induction l as [|x l IH]; simpl; [reflexivity|].
  rewrite (H x (or_introl eq_refl)). f_equal.
  apply IH.
  - intros y Hy. apply H. right. exact Hy.
  - apply first_rejection_none. intros p Hp.
    apply in_map_iff in Hp. destruct Hp as (y & <- & Hy).
    exists (g y). apply H. right. exact Hy.
Qed.
End PromiseFacts.

(* ===================================================================== *)
(** ** Duplicate resolution *)
(* ===================================================================== *)

Section DuplicateResolution.
Variable w : World.
Variable tok : Value.
Hypothesis Htoken : token_acquired w tok.

(** The promise of one check, in terms of the lookup of its id. *)
Lemma checkDuplicate_lookup (policy : Value) (id : string) :
  checkDuplicate w id (dupeConfig_of policy tok) (api_base w) =
  {| settles_at := settles_at (lookup w tok id);
     settled :=
       match settled (lookup w tok id) with
       | Err error => if is_not_found error then Ok id else Err error
       | Ok _ => if includes ["error"] policy then Err (DuplicateGranule id)
                 else Ok ""
       end |}.
Proof. reflexivity. Qed.

(** Once the token is there, [filterDuplicates] issues one lookup per
    id, waits for all of them and keeps the truthy results. *)
Lemma filterDuplicates_outcome (ids : list string) (policy : Value) :
  outcome (filterDuplicates w ids policy) =
  match Promise_all (map (fun id => checkDuplicate w id (dupeConfig_of policy tok) (api_base w)) ids) with
  | Ok filteredKeys => Ok (filter truthy_string filteredKeys)
  | Err e => Err e
  end.
Proof.
  destruct Htoken as (pw & pp & Hpw & Hpp & Hauth).
  unfold filterDuplicates, call, bind, emit, ret, outcome.
  rewrite Hpw, Hpp. unfold tokenConfig_of in *. simpl. rewrite Hauth. simpl.
  unfold dupeConfig_of, api_base.
  destruct (Promise_all _); reflexivity.
Qed.

Lemma filterDuplicates_trace (ids : list string) (policy : Value) :
  exists tokenConfig,
    trace (filterDuplicates w ids policy) =
    ([GetSecretString (process_env w "urs_password_secret_name");
      GetSecretString (process_env w "passphraseSecretName");
      GetAuthToken (process_env w "oauth_provider") tokenConfig]
     ++ map (fun id => HttpGet (granule_url (api_base w) id) ("Bearer " ++ ToString tok)) ids)%list.
Proof.
  destruct Htoken as (pw & pp & Hpw & Hpp & Hauth).
  exists (tokenConfig_of w pw pp).
  unfold filterDuplicates, call, bind, emit, ret, trace.
  rewrite Hpw, Hpp. unfold tokenConfig_of in *. simpl. rewrite Hauth. simpl.
  unfold api_base. destruct (Promise_all _); simpl; rewrite app_nil_r; reflexivity.
Qed.

(** A lookup that fails otherwise than by not-found rejects its check
    with the same error, under every policy. *)
Lemma checkDuplicate_hard_failure (policy : Value) (id : string) (e : Thrown) :
  lookup_fails w tok id e ->
  settled (checkDuplicate w id (dupeConfig_of policy tok) (api_base w)) = Err e.
Proof.
  intros [Hl Hnf]. rewrite checkDuplicate_lookup. simpl. rewrite Hl, Hnf. reflexivity.
Qed.

(** What each check resolves to when the policy is not 'error' and
    every lookup is answered. *)
Lemma checkDuplicate_skip (policy : Value) (id : string) :
  includes ["error"] policy = false ->
  answered w tok id = true ->
  settled (checkDuplicate w id (dupeConfig_of policy tok) (api_base w)) =
  Ok (if absent w tok id then id else "").
Proof.
  intros Hpol Hans. rewrite checkDuplicate_lookup. simpl.
  unfold answered, found, absent in *.
  destruct (settled (lookup w tok id)) as [r|e].
  - rewrite Hpol. reflexivity.
  - simpl in Hans. rewrite Hans. reflexivity.
Qed.

Lemma filter_truthy_marked (keep : string -> bool) (ids : list string) :
  filter truthy_string (map (fun id => if keep id then id else "") ids) =
  filter (fun id => truthy_string id && keep id) ids.
Proof.
  induction ids as [|id ids IH]; simpl; [reflexivity|].
  destruct (keep id); simpl.
  - rewrite andb_true_r. destruct (truthy_string id); rewrite IH; reflexivity.
  - rewrite andb_false_r. exact IH.
Qed.

(** Policy 'skip' with every lookup answered: the result is the input
    without the ids found in the catalog and without the empty id. *)
Lemma filterDuplicates_skip (ids : list string) :
  (forall id, In id ids -> answered w tok id = true) ->
  outcome (filterDuplicates w ids (VStr "skip")) =
  Ok (filter (fun id => truthy_string id && absent w tok id) ids).
Proof.
  intros Hans. rewrite filterDuplicates_outcome.
  rewrite (Promise_all_map_fulfilled _ (fun id => if absent w tok id then id else "")).
  - rewrite filter_truthy_marked. reflexivity.
  - intros id Hid. apply checkDuplicate_skip; [reflexivity | apply Hans, Hid].
Qed.

(** Policy 'error' with nothing found: the same result. *)
Lemma filterDuplicates_error_none_found (ids : list string) :
  (forall id, In id ids -> absent w tok id = true) ->
  outcome (filterDuplicates w ids (VStr "error")) = Ok (filter truthy_string ids).
Proof.
  intros Habs. rewrite filterDuplicates_outcome.
  rewrite (Promise_all_map_fulfilled _ (fun id => id)).
  - rewrite map_id. reflexivity.
  - intros id Hid. rewrite checkDuplicate_lookup. simpl.
    specialize (Habs id Hid). unfold absent in Habs.
    destruct (settled (lookup w tok id)); [discriminate|].
    rewrite Habs. reflexivity.
Qed.
End DuplicateResolution.

(* ===================================================================== *)
(** ** Sequencing of the asynchronous functions *)
(* ===================================================================== *)

Lemma outcome_bind {A B} (m : Task A) (f : A -> Task B) :
  outcome (bind m f) =
  match outcome m with
  | Ok a => outcome (f a)
  | Err e => Err e
  end.
Proof.
  destruct m as [tr [a|e]]; simpl; [|reflexivity].
  destruct (f a); reflexivity.
Qed.

Lemma trace_bind {A B} (m : Task A) (f : A -> Task B) :
  trace (bind m f) =
  (trace m ++ match outcome m with
              | Ok a => trace (f a)
              | Err _ => []
              end)%list.
Proof.
  destruct m as [tr [a|e]]; simpl; [|rewrite app_nil_r; reflexivity].
  destruct (f a); reflexivity.
Qed.

(** Under 'skip' and 'error' the groups are restricted to the keys that
    [filterDuplicates] returns, and its failure is the failure of
    [handleDuplicates]. *)
Lemma handleDuplicates_checked (w : World) (o : Obj (list File)) (policy : Value) :
  includes ["skip"; "error"] (effective_policy policy) = true ->
  outcome (handleDuplicates w o policy) =
  match outcome (filterDuplicates w (Object_keys o) (effective_policy policy)) with
  | Ok filteredKeys => Ok (pick o filteredKeys)
  | Err e => Err e
  end.
Proof.
  intros Hpol. unfold handleDuplicates. fold (effective_policy policy).
  rewrite outcome_bind. simpl. rewrite Hpol, outcome_bind.
  destruct (outcome (filterDuplicates _ _ _)); reflexivity.
Qed.

Lemma handleDuplicates_unchecked (w : World) (o : Obj (list File)) (policy : Value) :
  includes ["replace"; "version"] policy = true ->
  handleDuplicates w o policy =
  ([LogInfo ("Running discoverGranules with duplicateHandling set to "
             ++ ToString policy)], Ok o).
Proof.
  intros Hpol. unfold handleDuplicates.
  destruct policy as [| |b|z|s]; try discriminate.
  cbv beta iota zeta. unfold bind, emit, ret.
  replace (includes ["skip"; "error"] (VStr s)) with false.
  - rewrite Hpol. reflexivity.
  - simpl in *. rewrite !orb_false_r in *.
    apply orb_true_iff in Hpol.
    destruct Hpol as [H|H]; apply String.eqb_eq in H; subst; reflexivity.
Qed.

(** The result of the task, step by step. *)
Lemma discoverGranules_outcome (w : World) (config : Config) :
  outcome (discoverGranules w config) =
  match provider_list w (provider config) (useList config)
          (normalizeProviderPath w (provider_path (collection config))) with
  | Err e => Err e
  | Ok discoveredFiles =>
      match outcome (handleDuplicates w
                       (groupFilesByGranuleId (granuleIdExtraction (collection config))
                                              discoveredFiles)
                       (duplicateHandlingType w config)) with
      | Err e => Err e
      | Ok filesByGranuleId =>
          match all_ok (lodash_map filesByGranuleId
                          (prototype_after_handling
                             (duplicateHandlingType w config)
                             (groupFilesByGranuleId_prototype
                                (granuleIdExtraction (collection config))
                                discoveredFiles))
                          (fun files_ key => buildGranule config
                                               (files_argument files_) key)) with
          | Err e => Err e
          | Ok granules_ => Ok {| granules := granules_ |}
          end
      end
  end.
Proof.
  unfold discoverGranules. rewrite outcome_bind.
  unfold listFiles, call. simpl outcome at 1.
  destruct (provider_list _ _ _ _) as [discoveredFiles|e]; [|reflexivity].
  rewrite outcome_bind.
  destruct (outcome (handleDuplicates _ _ _)) as [filesByGranuleId|e]; [|reflexivity].
  rewrite outcome_bind. simpl outcome at 1.
  destruct (all_ok _) as [granules_|e]; reflexivity.
Qed.

(** Under 'skip' and 'error' the object that is walked is made by
    [pick], and its prototype is nothing special. *)
Lemma prototype_after_handling_checked {A} (policy : Value) (prototype : option A) :
  includes ["skip"; "error"] (effective_policy policy) = true ->
  prototype_after_handling policy prototype = None.
Proof.
  intros Hpol. unfold prototype_after_handling. fold (effective_policy policy).
  destruct (effective_policy policy) as [| |b|z|s]; try discriminate.
  simpl in *. rewrite !orb_false_r in *.
  apply orb_true_iff in Hpol.
  destruct Hpol as [H|H]; apply String.eqb_eq in H; subst; reflexivity.
Qed.

Lemma prototype_after_handling_unchecked {A} (policy : Value) (prototype : option A) :
  includes ["replace"; "version"] policy = true ->
  prototype_after_handling policy prototype = prototype.
Proof.
  intros Hpol. unfold prototype_after_handling.
  destruct policy as [| |b|z|s]; try discriminate.
  cbv beta iota zeta. rewrite Hpol. reflexivity.
Qed.

Lemma prototype_after_handling_invalid {A} (policy : Value) (prototype : option A) :
  includes ["replace"; "version"] (effective_policy policy) = false ->
  prototype_after_handling policy prototype = None.
Proof.
  intros Hpol. unfold prototype_after_handling. fold (effective_policy policy).
  rewrite Hpol. reflexivity.
Qed.

(** The walk of an object whose prototype is nothing special: one call
    for each own key, with the array of the key and the key. *)
Lemma lodash_map_plain {V A B} (object : Obj V) (iteratee : V + A -> Value -> B) :
  lodash_map object None iteratee =
  map_object object (fun value key => iteratee (inl value) (VStr key)).
Proof. reflexivity. Qed.

(* ===================================================================== *)
(** ** Properties of duplicate resolution *)
(* ===================================================================== *)

Lemma found_rejects_under_error (w : World) (tok : Value) (id : string) :
  found w tok id = true ->
  settled (checkDuplicate w id (dupeConfig_of (VStr "error") tok) (api_base w)) =
  Err (DuplicateGranule id).
Proof.
  intros Hfound. rewrite checkDuplicate_lookup. simpl.
  unfold found in Hfound.
  destruct (settled (lookup w tok id)); [reflexivity | discriminate].
Qed.

Lemma answered_rejection_is_duplicate (w : World) (tok : Value) (id : string)
    (e : Thrown) :
  answered w tok id = true ->
  settled (checkDuplicate w id (dupeConfig_of (VStr "error") tok) (api_base w)) = Err e ->
  found w tok id = true /\ e = DuplicateGranule id.
Proof.
  intros Hans. rewrite checkDuplicate_lookup. simpl.
  unfold answered, found, absent in *.
  destruct (settled (lookup w tok id)) as [r|e0]; simpl in *.
  - intros [= <-]. split; reflexivity.
  - rewrite Hans. discriminate.
Qed.

(** C1 (amended).  Under policy 'error', when an identifier of the input
    is found in the catalog, [filterDuplicates] fails, and so do
    [handleDuplicates] and the task: no list of kept identifiers and no
    granules are returned.  The error is the rejection of the check that
    is rejected first.  When every lookup is answered (found or not
    found), it is the duplicate error of an identifier that is in the
    catalog, and no lookup of an identifier in the catalog completes
    before the lookup of that one. *)
Theorem error_policy_fails_on_duplicate
    (w : World) (tok : Value) (ids : list string) (id : string) :
  token_acquired w tok ->
  In id ids ->
  found w tok id = true ->
  exists e,
    outcome (filterDuplicates w ids (VStr "error")) = Err e /\
    (forall o, Object_keys o = ids ->
               outcome (handleDuplicates w o (VStr "error")) = Err e) /\
    (forall config listing,
        provider_list w (provider config) (useList config)
          (normalizeProviderPath w (provider_path (collection config))) = Ok listing ->
        duplicateHandlingType w config = VStr "error" ->
        Object_keys (groupFilesByGranuleId (granuleIdExtraction (collection config))
                                           listing) = ids ->
        outcome (discoverGranules w config) = Err e) /\
    (exists first,
        In first ids /\
        settled (checkDuplicate w first (dupeConfig_of (VStr "error") tok) (api_base w))
        = Err e /\
        forall other e',
          In other ids ->
          settled (checkDuplicate w other (dupeConfig_of (VStr "error") tok) (api_base w))
          = Err e' ->
          (settles_at (lookup w tok first) <= settles_at (lookup w tok other))%nat) /\
    ((forall id', In id' ids -> answered w tok id' = true) ->
     exists dup,
       In dup ids /\ found w tok dup = true /\ e = DuplicateGranule dup /\
       forall id', In id' ids -> found w tok id' = true ->
                   (settles_at (lookup w tok dup) <= settles_at (lookup w tok id'))%nat).
Proof.
  intros Htok Hin Hfound.
  set (check := fun id => checkDuplicate w id (dupeConfig_of (VStr "error") tok) (api_base w)).
  destruct (Promise_all_rejected (map check ids) (check id) (DuplicateGranule id))
    as (t & e & Hfirst & Hall).
  { apply in_map, Hin. }
  { apply found_rejects_under_error, Hfound. }
  assert (Hfilter : outcome (filterDuplicates w ids (VStr "error")) = Err e).
  { rewrite (filterDuplicates_outcome w tok Htok). fold check. rewrite Hall. reflexivity. }
  assert (Hhandle : forall o, Object_keys o = ids ->
                              outcome (handleDuplicates w o (VStr "error")) = Err e).
  { intros o Ho. rewrite handleDuplicates_checked by reflexivity.
    simpl effective_policy. rewrite Ho, Hfilter. reflexivity. }
  apply first_rejection_some in Hfirst.
  destruct Hfirst as (p & Hp & Hsettled & Htime & Hmin).
  apply in_map_iff in Hp. destruct Hp as (first & <- & Hfirst_in).
  assert (Hearliest :
            forall other e',
              In other ids -> settled (check other) = Err e' ->
              (settles_at (lookup w tok first) <= settles_at (lookup w tok other))%nat).
  { intros other e' Hother Hrej.
    specialize (Hmin (check other) e' (in_map check _ _ Hother) Hrej).
    subst t. exact Hmin. }
  exists e. split; [exact Hfilter|]. split; [exact Hhandle|]. split.
  - intros config listing Hlist Hpolicy Hkeys.
    rewrite discoverGranules_outcome, Hlist, Hpolicy, (Hhandle _ Hkeys). reflexivity.
  - split.
    + exists first. split; [exact Hfirst_in|]. split; [exact Hsettled | exact Hearliest].
    + intros Hans.
      destruct (answered_rejection_is_duplicate w tok first e (Hans _ Hfirst_in) Hsettled)
        as [Hf ->].
      exists first. split; [exact Hfirst_in|]. split; [exact Hf|]. split; [reflexivity|].
      intros id' Hid' Hf'. apply (Hearliest id' (DuplicateGranule id') Hid').
      apply found_rejects_under_error, Hf'.
Qed.

Lemma example_token (listing : list File) (catalog : string -> Promise Response) :
  token_acquired (example_world listing catalog) (VStr "token").
Proof.
  exists (VStr "secret"), (VStr "secret"). repeat split; reflexivity.
Qed.

(** A1 is in the catalog and B2 is not: the error names A1. *)
Lemma error_policy_fails_on_duplicate_witness :
  exists e,
    outcome (filterDuplicates (example_world [] catalog_with_A1) ["A1"; "B2"]
                              (VStr "error")) = Err e /\
    e = DuplicateGranule "A1".
Proof.
  destruct (error_policy_fails_on_duplicate
              (example_world [] catalog_with_A1) (VStr "token") ["A1"; "B2"] "A1"
              (example_token _ _) (or_introl eq_refl) eq_refl)
    as (e & Hfilter & _).
  exists e. split; [exact Hfilter|].
  simpl in Hfilter. injection Hfilter as <-. reflexivity.
Defined.

(** C1 as stated fails: B2 is in the catalog, the lookup of A1 fails
    with a server error before the answer for B2 is there, and the
    operation fails with that server error, which is not the duplicate
    error of any identifier. *)
Lemma error_policy_other_failure_first :
  found (example_world [] failing_catalog) (VStr "token") "B2" = true /\
  outcome (filterDuplicates (example_world [] failing_catalog) ["A1"; "B2"]
                            (VStr "error"))
  = Err (HTTPError 500 "Internal Server Error") /\
  forall id,
    outcome (filterDuplicates (example_world [] failing_catalog) ["A1"; "B2"]
                              (VStr "error"))
    <> Err (DuplicateGranule id).
Proof.
  split; [reflexivity|]. split; [reflexivity|].
  intros id. discriminate.
Qed.

(** C2 (the code departs from it).  Policy 'skip', nothing in the
    catalog: the empty identifier is reported not found like B2, and it
    is not in the result. *)
Theorem absent_empty_identifier_is_dropped :
  absent (example_world [] empty_catalog) (VStr "token") "" = true /\
  absent (example_world [] empty_catalog) (VStr "token") "B2" = true /\
  outcome (filterDuplicates (example_world [] empty_catalog) [""; "B2"] (VStr "skip"))
  = Ok ["B2"].
Proof.
  repeat split; reflexivity.
Qed.

(** C6.  Under 'replace' and 'version', [handleDuplicates] returns the
    groups it was given, so every identifier is kept, and the only call
    it makes is the log line: no lookup in the catalog, no fetch of a
    secret or of a token. *)
Theorem replace_and_version_make_no_lookup
    (w : World) (filesByGranuleId : Obj (list File)) (policy : Value) :
  policy = VStr "replace" \/ policy = VStr "version" ->
  outcome (handleDuplicates w filesByGranuleId policy) = Ok filesByGranuleId /\
  (forall ev, In ev (trace (handleDuplicates w filesByGranuleId policy)) ->
              is_lookup ev = false /\ is_credential_fetch ev = false) /\
  trace (handleDuplicates w filesByGranuleId policy) =
  [LogInfo ("Running discoverGranules with duplicateHandling set to "
            ++ ToString policy)].
Proof.
  intros Hpol.
  assert (Hinc : includes ["replace"; "version"] policy = true)
    by (destruct Hpol as [-> | ->]; reflexivity).
  rewrite (handleDuplicates_unchecked w filesByGranuleId policy Hinc).
  split; [reflexivity|]. split; [|reflexivity].
  intros ev [<-|[]]. split; reflexivity.
Qed.

(** Policy 'version' on the groups A1 and B2, with A1 in the catalog. *)
Lemma replace_and_version_make_no_lookup_witness :
  outcome (handleDuplicates (example_world [] catalog_with_A1)
             (groupFilesByGranuleId stem_pattern [file "A1.dat"; file "B2.dat"])
             (VStr "version"))
  = Ok [("A1", [file "A1.dat"]); ("B2", [file "B2.dat"])].
Proof.
  exact (proj1 (replace_and_version_make_no_lookup
                  (example_world [] catalog_with_A1)
                  (groupFilesByGranuleId stem_pattern [file "A1.dat"; file "B2.dat"])
                  (VStr "version") (or_intror eq_refl))).
Defined.

(** A lookup answered with 404 Not Found resolves the check with the
    identifier itself, which is how [checkDuplicate] reports that there
    is no duplicate.  Every other failure of the lookup, an error status
    other than that one or a failure of the request, rejects the check
    with the same error, under every policy, and the rejection makes
    [filterDuplicates] and [handleDuplicates] fail as a whole. *)
Lemma lookup_failures_other_than_not_found_abort
    (w : World) (dupeConfig : DupeConfig) (baseUrl_ : Value) (id : string) :
  (forall e,
      settled (got_get w (granule_url baseUrl_ id) (authorization_of dupeConfig)) = Err e ->
      is_not_found e = true ->
      settled (checkDuplicate w id dupeConfig baseUrl_) = Ok id) /\
  (forall e,
      settled (got_get w (granule_url baseUrl_ id) (authorization_of dupeConfig)) = Err e ->
      is_not_found e = false ->
      settled (checkDuplicate w id dupeConfig baseUrl_) = Err e) /\
  (forall code message, code <> 404%Z -> is_not_found (HTTPError code message) = false) /\
  (forall code, is_not_found (RequestError code) = false) /\
  (forall tok ids policy e,
      token_acquired w tok -> In id ids -> lookup_fails w tok id e ->
      exists e',
        outcome (filterDuplicates w ids policy) = Err e' /\
        (forall o, Object_keys o = ids ->
                   policy = VStr "skip" \/ policy = VStr "error" ->
                   outcome (handleDuplicates w o policy) = Err e')).
Proof.
  split; [|split; [|split; [|split]]].
  - intros e He Hnf. unfold checkDuplicate. simpl. rewrite He, Hnf. reflexivity.
  - intros e He Hnf. unfold checkDuplicate. simpl. rewrite He, Hnf. reflexivity.
  - intros code message Hcode. simpl.
    destruct (Z.eqb_spec code 404); [contradiction | reflexivity].
  - reflexivity.
  - intros tok ids policy e Htok Hin Hfail.
    set (check := fun id => checkDuplicate w id (dupeConfig_of policy tok) (api_base w)).
    destruct (Promise_all_rejected (map check ids) (check id) e)
      as (t & e' & _ & Hall).
    { apply in_map, Hin. }
    { apply checkDuplicate_hard_failure, Hfail. }
    assert (Hfilter : outcome (filterDuplicates w ids policy) = Err e').
    { rewrite (filterDuplicates_outcome w tok Htok). fold check. rewrite Hall. reflexivity. }
    exists e'. split; [exact Hfilter|].
    intros o Ho Hpol.
    rewrite handleDuplicates_checked by (destruct Hpol as [-> | ->]; reflexivity).
    replace (effective_policy policy) with policy
      by (destruct Hpol as [-> | ->]; reflexivity).
    rewrite Ho, Hfilter. reflexivity.
Qed.

Lemma Promise_all_fulfilled_member {A} (ps : list (Promise A)) (p : Promise A)
    (values : list A) (a : A) :
  Promise_all ps = Ok values -> In p ps -> settled p = Ok a -> In a values.
Proof.
  unfold Promise_all.
  destruct (first_rejection ps) as [[t e]|]; [discriminate|].
  intros [= <-]. induction ps as [|q ps IH]; simpl; [intros []|].
  intros [->|Hin] Hp.
  - rewrite Hp. left. reflexivity.
  - destruct (settled q); [right|]; apply IH; assumption.
Qed.

(** An identifier other than the empty string whose lookup is answered
    404 Not Found is in the list that [filterDuplicates] returns,
    whenever it returns one. *)
Lemma not_found_identifier_is_kept (w : World) (tok : Value) (ids : list string)
    (policy : Value) (kept : list string) (id : string) :
  token_acquired w tok -> In id ids -> absent w tok id = true -> id <> "" ->
  outcome (filterDuplicates w ids policy) = Ok kept -> In id kept.
Proof.
  intros Htok Hin Habs Hid. rewrite (filterDuplicates_outcome w tok Htok).
  destruct (Promise_all _) as [filteredKeys|] eqn:Hall; [|discriminate].
  intros [= <-]. apply filter_In. split.
  - apply (Promise_all_fulfilled_member _ _ _ _ Hall (in_map _ _ _ Hin)).
    rewrite checkDuplicate_lookup. simpl. unfold absent in Habs.
    destruct (settled (lookup w tok id)); [discriminate|].
    rewrite Habs. reflexivity.
  - unfold truthy_string. apply negb_true_iff, String.eqb_neq, Hid.
Qed.

(** C7 (the code departs from it).  Policy 'error', nothing in the
    catalog, the files A1.dat and .dat listed: the lookup of the empty
    identifier is answered 404 Not Found like the lookup of A1, and its
    check resolves with the identifier itself, the empty string, which
    is also what the check of a duplicate resolves with under 'skip'.
    The identifier is not kept: it is neither in the list that
    [filterDuplicates] returns nor among the granules of the task. *)
Theorem not_found_empty_identifier_is_not_kept :
  settled (lookup (example_world [] empty_catalog) (VStr "token") "")
  = Err (HTTPError 404 "Not Found") /\
  settled (checkDuplicate (example_world [] empty_catalog) ""
             (dupeConfig_of (VStr "error") (VStr "token")) (VStr "https://api"))
  = Ok "" /\
  settled (checkDuplicate (example_world [] catalog_with_A1) "A1"
             (dupeConfig_of (VStr "skip") (VStr "token")) (VStr "https://api"))
  = Ok "" /\
  outcome (filterDuplicates (example_world [] empty_catalog) ["A1"; ""] (VStr "error"))
  = Ok ["A1"] /\
  Object_keys (groupFilesByGranuleId stem_pattern [file "A1.dat"; file ".dat"])
  = ["A1"; ""] /\
  exists out,
    outcome (discoverGranules
               (example_world [file "A1.dat"; file ".dat"] empty_catalog)
               (example_config (VStr "error") undefined undefined)) = Ok out /\
    map granuleId (granules out) = [VStr "A1"].
Proof.
  repeat split. eexists. split; reflexivity.
Qed.

Lemma filterDuplicates_keeps_truthy (w : World) (ids : list string) (policy : Value)
    (kept : list string) :
  outcome (filterDuplicates w ids policy) = Ok kept ->
  forall id, In id kept -> truthy_string id = true.
Proof.
  unfold filterDuplicates, call, bind, emit, ret, outcome.
  destruct (getSecretString w (process_env w "urs_password_secret_name")) as [pw|];
    [|discriminate].
  destruct (getSecretString w (process_env w "passphraseSecretName")) as [pp|];
    [|discriminate].
  destruct (getAuthToken w _ _) as [authToken|]; [|discriminate].
  destruct (Promise_all _) as [filteredKeys|]; [|discriminate].
  simpl. intros [= <-] id Hid.
  apply filter_In in Hid. apply Hid.
Qed.

(** C10.  Under 'skip' and 'error' the empty identifier is never in the
    list that [filterDuplicates] returns.  When the catalog reports it
    not found, its check resolves with the identifier itself, the empty
    string, and the final filter, which keeps the truthy results only,
    removes it: with every identifier of the input reported not found,
    the result is the input without its empty strings. *)
Theorem empty_identifier_is_never_kept
    (w : World) (ids : list string) (policy : Value) :
  policy = VStr "skip" \/ policy = VStr "error" ->
  (forall kept, outcome (filterDuplicates w ids policy) = Ok kept -> ~ In "" kept) /\
  (forall tok,
      token_acquired w tok ->
      absent w tok "" = true ->
      settled (checkDuplicate w "" (dupeConfig_of policy tok) (api_base w)) = Ok "" /\
      ((forall id, In id ids -> absent w tok id = true) ->
       outcome (filterDuplicates w ids policy) = Ok (filter truthy_string ids))).
Proof.
  intros Hpol. split.
  - intros kept Hkept Hin.
    pose proof (filterDuplicates_keeps_truthy w ids policy kept Hkept "" Hin) as H.
    discriminate.
  - intros tok Htok Habs. split.
    + rewrite checkDuplicate_lookup. simpl. unfold absent in Habs.
      destruct (settled (lookup w tok "")); [discriminate|].
      rewrite Habs. reflexivity.
    + intros Hall. destruct Hpol as [-> | ->].
      * rewrite (filterDuplicates_skip w tok Htok).
        -- f_equal. apply filter_ext_in. intros id Hid.
           rewrite (Hall id Hid). apply andb_true_r.
        -- intros id Hid. unfold answered. rewrite (Hall id Hid). apply orb_true_r.
      * apply (filterDuplicates_error_none_found w tok Htok), Hall.
Qed.

(** Policy 'error', nothing in the catalog, the empty identifier among
    the input. *)
Lemma empty_identifier_is_never_kept_witness :
  outcome (filterDuplicates (example_world [] empty_catalog) ["A1"; ""; "B2"]
                            (VStr "error")) = Ok ["A1"; "B2"] /\
  ~ In "" ["A1"; "B2"].
Proof.
  pose proof (empty_identifier_is_never_kept
                (example_world [] empty_catalog) ["A1"; ""; "B2"] (VStr "error")
                (or_intror eq_refl)) as [Hnever Habsent].
  assert (Hout : outcome (filterDuplicates (example_world [] empty_catalog)
                            ["A1"; ""; "B2"] (VStr "error")) = Ok ["A1"; "B2"]).
  { apply (proj2 (Habsent (VStr "token") (example_token _ _) eq_refl)).
    intros id _. reflexivity. }
  split; [exact Hout | exact (Hnever _ Hout)].
Defined.

(* ===================================================================== *)
(** ** Enrichment *)
(* ===================================================================== *)

Section Enrichment.
Variable config : Config.

Lemma fileHasCollectionFileConfig_matches (file_ : File) :
  fileHasCollectionFileConfig (files (collection config)) file_ =
  matches_some_rule (files (collection config)) (name file_).
Proof.
  unfold fileHasCollectionFileConfig, getCollectionFileConfig, matches_some_rule.
  induction (files (collection config)) as [|c cs IH]; simpl; [reflexivity|].
  destruct (matches (regex c) (name file_)); [reflexivity | exact IH].
Qed.

(** [find] returns the first rule that matches. *)
Lemma getCollectionFileConfig_first_match (rs : list CollectionFileConfig)
    (file_ : File) (i : nat) (rule : CollectionFileConfig) :
  first_match rs i rule (name file_) ->
  getCollectionFileConfig rs file_ = Some rule.
Proof.
  unfold getCollectionFileConfig.
  revert i. induction rs as [|c cs IH]; intros i (Hnth & Hm & Hearlier).
  - destruct i; discriminate.
  - destruct i as [|i]; simpl in *.
    + injection Hnth as ->. rewrite Hm. reflexivity.
    + rewrite (Hearlier 0%nat c) by (reflexivity || lia).
      apply (IH i). split; [exact Hnth|]. split; [exact Hm|].
      intros j earlier Hj Hnthj. apply (Hearlier (S j) earlier); [lia | exact Hnthj].
Qed.

Lemma getCollectionFileConfig_some (rs : list CollectionFileConfig)
    (file_ : File) (rule : CollectionFileConfig) :
  getCollectionFileConfig rs file_ = Some rule ->
  exists i, first_match rs i rule (name file_).
Proof.
  unfold getCollectionFileConfig.
  induction rs as [|c cs IH]; simpl; [discriminate|].
  destruct (matches (regex c) (name file_)) eqn:Hc.
  - intros [= ->]. exists 0%nat. split; [reflexivity|]. split; [exact Hc|].
    intros j earlier Hj. lia.
  - intros Hfind. destruct (IH Hfind) as (i & Hnth & Hm & Hearlier).
    exists (S i). split; [exact Hnth|]. split; [exact Hm|].
    intros [|j] earlier Hj Hnthj; simpl in Hnthj.
    + injection Hnthj as <-. exact Hc.
    + apply (Hearlier j earlier); [lia | exact Hnthj].
Qed.

Lemma or_else_truthy (a b : Value) :
  or_else a b = if truthy a then a else b.
Proof. reflexivity. Qed.

(** Reading the name of a bucket succeeds exactly when the table or
    [Object.prototype] has something under the key. *)
Lemma bucket_name_at_ok (key : string) (bucket_ : Value) :
  bucket_name_at (buckets config) key = Ok bucket_ <->
  bucket_resolves (buckets config) key bucket_.
Proof.
  unfold bucket_name_at, bucket_resolves.
  destruct (obj_get key (buckets config)) as [b|].
  - split.
    + intros [= <-]. left. exists b. split; reflexivity.
    + intros [(b' & [= <-] & ->)|[Hnone _]]; [reflexivity | discriminate].
  - destruct (inherited key) as [member|].
    + split.
      * intros [= <-]. right. split; [reflexivity|]. exists member. split; reflexivity.
      * intros [(b' & Hb & _)|(_ & member' & [= <-] & ->)]; [discriminate | reflexivity].
    + split; [discriminate|].
      intros [(b' & Hb & _)|(_ & member' & Hm & _)]; discriminate.
Qed.

Lemma bucket_name_at_err (key : string) (e : Thrown) :
  bucket_name_at (buckets config) key = Err e ->
  obj_get key (buckets config) = None /\ inherited key = None /\
  e = TypeError "Cannot read property 'name' of undefined".
Proof.
  unfold bucket_name_at.
  destruct (obj_get key (buckets config)) as [b|]; [discriminate|].
  destruct (inherited key) as [member|]; [discriminate|].
  intros [= <-]. repeat split.
Qed.

Lemma updateFile_first_match (file_ : File) (i : nat)
    (rule : CollectionFileConfig) :
  first_match (files (collection config)) i rule (name file_) ->
  updateFileFromCollectionFileConfig config file_ =
  match bucket_name_at (buckets config) (bucket rule) with
  | Ok bucket_ => Ok (enriched config rule bucket_ file_)
  | Err e => Err e
  end.
Proof.
  intros Hfirst. unfold updateFileFromCollectionFileConfig.
  rewrite (getCollectionFileConfig_first_match _ _ _ _ Hfirst).
  destruct (bucket_name_at (buckets config) (bucket rule)) as [bucket_|e];
    [|reflexivity].
  unfold enriched. rewrite !or_else_truthy.
  destruct (truthy (file_url_path rule)) eqn:Hu; [rewrite Hu|]; reflexivity.
Qed.

(** Reading the enriched file. *)
Lemma enriched_is_enriched_by (rule : CollectionFileConfig) (bucket_ : Value)
    (file_ : File) :
  enriched_by config rule bucket_ file_ (enriched config rule bucket_ file_).
Proof.
  unfold enriched_by, enriched, with_property. simpl.
  split; [reflexivity|].
  rewrite !obj_get_set. simpl.
  split; [reflexivity|]. split; [reflexivity|]. split; [reflexivity|].
  intros k Hb Hu Ht. rewrite !obj_get_set.
  destruct (String.eqb_spec "type" k) as [E|_]; [exfalso; apply Ht; symmetry; exact E|].
  destruct (String.eqb_spec "url_path" k) as [E|_]; [exfalso; apply Hu; symmetry; exact E|].
  destruct (String.eqb_spec "bucket" k) as [E|_]; [exfalso; apply Hb; symmetry; exact E|].
  reflexivity.
Qed.

(** The files of the granule when the rules are applied. *)
Lemma enrich_all (fs out : list File) :
  all_ok (map (updateFileFromCollectionFileConfig config)
              (filter (fileHasCollectionFileConfig (files (collection config))) fs))
  = Ok out ->
  Forall2
    (fun file_ out_ =>
       exists i rule bucket_,
         first_match (files (collection config)) i rule (name file_) /\
         bucket_resolves (buckets config) (bucket rule) bucket_ /\
         out_ = enriched config rule bucket_ file_)
    (filter (fun f => matches_some_rule (files (collection config)) (name f)) fs)
    out.
Proof.
  rewrite (filter_ext _ _ fileHasCollectionFileConfig_matches).
  revert out. induction fs as [|f fs IH]; simpl; intros out Hall.
  - injection Hall as <-. constructor.
  - destruct (matches_some_rule (files (collection config)) (name f)) eqn:Hm;
      [|apply IH, Hall].
    simpl in Hall.
    destruct (updateFileFromCollectionFileConfig config f) as [f'|] eqn:Hf;
      [|discriminate].
    destruct (all_ok _) as [out'|] eqn:Hrest; [|discriminate].
    injection Hall as <-. constructor; [|apply IH; reflexivity].
    destruct (getCollectionFileConfig (files (collection config)) f) as [rule|] eqn:Hfind.
    + destruct (getCollectionFileConfig_some _ _ _ Hfind) as [i Hfirst].
      rewrite (updateFile_first_match f i rule Hfirst) in Hf.
      destruct (bucket_name_at (buckets config) (bucket rule)) as [bucket_|] eqn:Hb;
        [|discriminate].
      injection Hf as <-.
      exists i, rule, bucket_. split; [exact Hfirst|].
      split; [apply bucket_name_at_ok, Hb | reflexivity].
    + exfalso. rewrite <- fileHasCollectionFileConfig_matches in Hm.
      unfold fileHasCollectionFileConfig in Hm. rewrite Hfind in Hm. discriminate.
Qed.

(** With the bucket of every rule in the table, or else among the
    members of [Object.prototype], the enrichment of a list of files
    does not fail. *)
Lemma enrich_all_succeeds (fs : list File) :
  (forall rule, In rule (files (collection config)) ->
                obj_get (bucket rule) (buckets config) <> None \/
                inherited (bucket rule) <> None) ->
  exists out,
    all_ok (map (updateFileFromCollectionFileConfig config)
                (filter (fileHasCollectionFileConfig (files (collection config))) fs))
    = Ok out.
Proof.
  intros Hbuckets. induction fs as [|f fs [out IH]]; simpl.
  - exists []. reflexivity.
  - destruct (fileHasCollectionFileConfig _ f) eqn:Hhas; [|exists out; exact IH].
    simpl. rewrite IH. unfold updateFileFromCollectionFileConfig.
    destruct (getCollectionFileConfig _ f) as [rule|] eqn:Hfind.
    + assert (Hin : In rule (files (collection config))).
      { unfold getCollectionFileConfig in Hfind. apply find_some in Hfind. apply Hfind. }
      specialize (Hbuckets rule Hin).
      destruct (bucket_name_at (buckets config) (bucket rule)) as [bucket_|e] eqn:Hb;
        [eexists; reflexivity|].
      apply bucket_name_at_err in Hb. destruct Hb as (Hown & Hinh & _).
      destruct Hbuckets as [H|H]; contradiction.
    + eexists; reflexivity.
Qed.
End Enrichment.

Lemma Forall2_in_right {A B} (R : A -> B -> Prop) (l : list A) (l' : list B) (y : B) :
  Forall2 R l l' -> In y l' -> exists x, In x l /\ R x y.
Proof.
  induction 1 as [|x y0 l l' Hxy _ IH]; intros Hin; [destruct Hin|].
  destruct Hin as [<-|Hin].
  - exists x. split; [left; reflexivity | exact Hxy].
  - destruct (IH Hin) as (x' & Hx' & Hr). exists x'. split; [right; exact Hx' | exact Hr].
Qed.

(** C4 (amended).  When the files configuration is not ignored: a file
    whose name matches rule i and no earlier rule is returned with the
    values of rule i and everything else as it was, its bucket being the
    name of the entry that the bucket table has under the bucket key of
    the rule, when the table has such an entry, its url_path the one of
    the rule when that is truthy, else the one of the collection when
    that is truthy, else the empty string, and its type the one of the
    rule when that is truthy, else the empty string.  The files of the
    granule are the files of the group whose name matches a rule, each
    enriched so, in their order; a file whose name matches no rule has no
    counterpart among them; and the granule is built whenever the bucket
    table has an entry for the bucket key of every rule. *)
Theorem file_rules_enrich_or_drop (config : Config) (files_ : list File) (id : Value) :
  returnAllFiles config = VBool false ->
  (forall file_ i rule b,
      first_match (files (collection config)) i rule (name file_) ->
      obj_get (bucket rule) (buckets config) = Some b ->
      updateFileFromCollectionFileConfig config file_
      = Ok (enriched config rule (bucket_name b) file_) /\
      enriched_by config rule (bucket_name b) file_
                  (enriched config rule (bucket_name b) file_)) /\
  (forall g,
      buildGranule config files_ id = Ok g ->
      exists outs,
        granule_files g = FileArray outs /\
        Forall2
          (fun file_ out =>
             exists i rule bucket_,
               first_match (files (collection config)) i rule (name file_) /\
               out = enriched config rule bucket_ file_ /\
               forall b, obj_get (bucket rule) (buckets config) = Some b ->
                         bucket_ = bucket_name b)
          (filter (fun f => matches_some_rule (files (collection config)) (name f))
                  files_)
          outs /\
        (forall file_,
            matches_some_rule (files (collection config)) (name file_) = false ->
            forall out, In out outs -> name out <> name file_)) /\
  ((forall rule, In rule (files (collection config)) ->
                 obj_get (bucket rule) (buckets config) <> None) ->
   exists g, buildGranule config files_ id = Ok g).
Proof.
  intros Hoverride. split; [|split].
  - intros file_ i rule b Hfirst Hb. split; [|apply enriched_is_enriched_by].
    rewrite (updateFile_first_match config file_ i rule Hfirst).
    unfold bucket_name_at. rewrite Hb. reflexivity.
  - intros g Hg. unfold buildGranule in Hg. rewrite Hoverride in Hg. simpl in Hg.
    destruct (all_ok _) as [out|] eqn:Hall; [|discriminate].
    injection Hg as <-. simpl. exists out. split; [reflexivity|].
    pose proof (enrich_all config files_ out Hall) as Hshape.
    split.
    + revert Hshape. apply Forall2_impl.
      intros file_ out_ (i & rule & bucket_ & Hfirst & Hres & ->).
      exists i, rule, bucket_. split; [exact Hfirst|]. split; [reflexivity|].
      intros b Hb.
      destruct Hres as [(b' & Hb' & ->)|[Hnone _]]; congruence.
    + intros file_ Hnone out_ Hout Hname.
      destruct (Forall2_in_right _ _ _ _ Hshape Hout)
        as (f & Hf & i & rule & b & _ & _ & ->).
      apply filter_In in Hf. destruct Hf as [_ Hf].
      simpl in Hname. rewrite Hname in Hf. rewrite Hf in Hnone. discriminate.
  - intros Hbuckets. unfold buildGranule. rewrite Hoverride. simpl.
    destruct (enrich_all_succeeds config files_) as [out Hout].
    { intros rule Hin. left. apply Hbuckets, Hin. }
    rewrite Hout. eexists. reflexivity.
Qed.

(** A1.dat, A1.qa and A1.txt under the rules for .dat and .qa. *)
Lemma file_rules_enrich_or_drop_witness :
  exists g outs,
    buildGranule (example_config (VStr "skip") undefined undefined)
                 [file "A1.dat"; file "A1.txt"; file "A1.qa"] "A1" = Ok g /\
    granule_files g = FileArray outs /\
    map name outs = ["A1.dat"; "A1.qa"] /\
    map (fun f => obj_get "bucket" (properties f)) outs
    = [Some (VStr "bucket-x"); Some (VStr "bucket-y")] /\
    map (fun f => obj_get "url_path" (properties f)) outs
    = [Some (VStr "example"); Some (VStr "qa-files")] /\
    map (fun f => obj_get "type" (properties f)) outs
    = [Some (VStr "data"); Some (VStr "")].
Proof.
  destruct (proj2 (proj2 (file_rules_enrich_or_drop
                            (example_config (VStr "skip") undefined undefined)
                            [file "A1.dat"; file "A1.txt"; file "A1.qa"] (VStr "A1")
                            eq_refl)))
    as [g Hg].
  { intros rule [<-|[<-|[]]]; discriminate. }
  exists g. simpl in Hg. injection Hg as <-.
  eexists. repeat split; reflexivity.
Defined.

(** C4 as stated fails: the first rule that matches A1.dat has the empty
    string as its url_path, and the file is returned with the url_path
    of the collection, not with the one of the rule. *)
Lemma empty_rule_url_path_is_replaced :
  returnAllFiles (example_config_with [blank_rule]) = VBool false /\
  first_match (files (collection (example_config_with [blank_rule]))) 0 blank_rule
              (name (file "A1.dat")) /\
  file_url_path blank_rule = VStr "" /\
  exists out,
    updateFileFromCollectionFileConfig (example_config_with [blank_rule]) (file "A1.dat")
    = Ok out /\
    obj_get "url_path" (properties out) = Some (VStr "example") /\
    obj_get "url_path" (properties out) <> Some (file_url_path blank_rule) /\
    buildGranule (example_config_with [blank_rule]) [file "A1.dat"] "A1"
    = Ok {| granuleId := "A1";
            granule_dataType := VStr "EX";
            granule_version := VStr "001";
            granule_files := [out] |}.
Proof.
  split; [reflexivity|]. split.
  - split; [reflexivity|]. split; [reflexivity|]. intros j earlier Hj. lia.
  - split; [reflexivity|]. eexists. split; [reflexivity|].
    split; [reflexivity|]. split; [discriminate | reflexivity].
Qed.

(** C5.  The override is the top-level flag when that is a boolean,
    otherwise the flag of the collection when that is a boolean,
    otherwise false; and when it is true the granule holds the files of
    the group as they are, none dropped and none changed. *)
Theorem ignore_files_config_returns_all_files (config : Config) :
  returnAllFiles config =
  VBool (match ignoreFilesConfigForDiscovery config with
         | VBool top => top
         | _ =>
             match collection_ignoreFilesConfigForDiscovery (collection config) with
             | VBool of_collection => of_collection
             | _ => false
             end
         end) /\
  forall files_ id,
    returnAllFiles config = VBool true ->
    buildGranule config files_ id =
    Ok {| granuleId := id;
          granule_dataType := dataType (collection config);
          granule_version := version (collection config);
          granule_files := files_ |}.
Proof.
  split.
  - unfold returnAllFiles.
    destruct (ignoreFilesConfigForDiscovery config); simpl; try reflexivity;
      destruct (collection_ignoreFilesConfigForDiscovery (collection config));
      reflexivity.
  - intros files_ id Hoverride. unfold buildGranule. rewrite Hoverride. reflexivity.
Qed.

(** The flag of the collection is true and the top-level flag is not a
    boolean. *)
Lemma ignore_files_config_returns_all_files_witness :
  buildGranule (example_config (VStr "skip") (VStr "no") (VBool true))
               [file "A1.dat"; file "A1.txt"] "A1"
  = Ok {| granuleId := "A1";
          granule_dataType := VStr "EX";
          granule_version := VStr "001";
          granule_files := [file "A1.dat"; file "A1.txt"] |}.
Proof.
  exact (proj2 (ignore_files_config_returns_all_files
                  (example_config (VStr "skip") (VStr "no") (VBool true)))
               [file "A1.dat"; file "A1.txt"] "A1" eq_refl).
Defined.

(* ===================================================================== *)
(** ** Enumeration order of the keys *)
(* ===================================================================== *)

Section EnumerationOrder.
Context {V : Type}.
Implicit Types (o : Obj V) (k : string) (v : V).

Lemma array_index_is_index k n : array_index k = Some n -> is_array_index k = true.
Proof. unfold is_array_index. intros ->. reflexivity. Qed.

Lemma array_index_not_index k : array_index k = None -> is_array_index k = false.
Proof. unfold is_array_index. intros ->. reflexivity. Qed.

Lemma enumeration_order_weaken o lo n :
  (lo <= n)%N -> enumeration_order n o = true -> enumeration_order lo o = true.
Proof.
  destruct o as [|[k0 v0] o]; simpl; [reflexivity|].
  destruct (array_index k0) as [n0|]; [|intros _ H; exact H].
  intros Hle H. apply andb_true_iff in H. destruct H as [H1 H2].
  apply N.leb_le in H1. apply andb_true_iff. split; [apply N.leb_le; lia | exact H2].
Qed.

Lemma enumeration_order_strings o lo :
  forallb (fun kv => negb (is_array_index (fst kv))) o = true ->
  enumeration_order lo o = true.
Proof.
  destruct o as [|[k0 v0] o]; simpl; [reflexivity|].
  intros H. apply andb_true_iff in H. destruct H as [H1 H2].
  unfold is_array_index in H1.
  destruct (array_index k0); [discriminate | exact H2].
Qed.

Lemma enumeration_order_same_keys o :
  forall (o' : Obj V) lo,
    Object_keys o = Object_keys o' ->
    enumeration_order lo o = enumeration_order lo o'.
Proof.
  unfold Object_keys.
  induction o as [|[k0 v0] o IH]; intros [|[k1 v1] o'] lo Hkeys;
    try discriminate; [reflexivity|].
  simpl in *. injection Hkeys as -> Hkeys.
  destruct (array_index k1) as [n1|].
  - rewrite (IH o' n1 Hkeys). reflexivity.
  - clear IH. revert o' Hkeys.
    induction o as [|[k2 v2] o IH]; intros [|[k3 v3] o'] Hkeys;
      try discriminate; [reflexivity|].
    simpl in *. injection Hkeys as -> Hkeys. rewrite (IH o' Hkeys). reflexivity.
Qed.

Lemma enumeration_order_update o lo k v :
  enumeration_order lo (obj_update k v o) = enumeration_order lo o.
Proof. apply enumeration_order_same_keys, Object_keys_update. Qed.

Lemma enumeration_order_insert_index o :
  forall lo n k v,
    array_index k = Some n -> (lo <= n)%N ->
    enumeration_order lo o = true ->
    enumeration_order lo (obj_insert_index n k v o) = true.
Proof.
  induction o as [|[k0 v0] o IH]; intros lo n k v Hk Hlo Ho; simpl.
  - rewrite Hk. apply andb_true_iff. split; [apply N.leb_le, Hlo | reflexivity].
  - simpl in Ho. destruct (array_index k0) as [n0|] eqn:Hk0.
    + apply andb_true_iff in Ho. destruct Ho as [H1 H2].
      destruct (N.leb_spec n0 n) as [Hle|Hgt]; simpl.
      * rewrite Hk0. apply andb_true_iff. split; [exact H1|].
        apply IH; assumption.
      * rewrite Hk, Hk0. apply andb_true_iff. split; [apply N.leb_le, Hlo|].
        apply andb_true_iff. split; [apply N.leb_le; lia | exact H2].
    + simpl. rewrite Hk, Hk0. apply andb_true_iff.
      split; [apply N.leb_le, Hlo | exact Ho].
Qed.

Lemma enumeration_order_append_string o :
  forall lo k v,
    array_index k = None ->
    enumeration_order lo o = true ->
    enumeration_order lo (o ++ [(k, v)])%list = true.
Proof.
  induction o as [|[k0 v0] o IH]; intros lo k v Hk Ho; simpl.
  - rewrite Hk. reflexivity.
  - simpl in Ho. destruct (array_index k0) as [n0|].
    + apply andb_true_iff in Ho. destruct Ho as [H1 H2].
      apply andb_true_iff. split; [exact H1 | apply IH; assumption].
    + rewrite forallb_app, Ho. simpl.
      rewrite (array_index_not_index _ Hk). reflexivity.
Qed.

Lemma enumeration_order_set o k v :
  enumeration_order 0 o = true -> enumeration_order 0 (obj_set k v o) = true.
Proof.
  intros Ho. unfold obj_set. destruct (obj_has k o).
  - rewrite enumeration_order_update. exact Ho.
  - destruct (array_index k) as [n|] eqn:Hk.
    + apply enumeration_order_insert_index; [exact Hk | lia | exact Ho].
    + apply enumeration_order_append_string; assumption.
Qed.

Lemma forallb_delete (p : string * V -> bool) o k :
  forallb p o = true -> forallb p (obj_delete k o) = true.
Proof.
  induction o as [|[k0 v0] o IH]; simpl; [reflexivity|].
  intros H. apply andb_true_iff in H. destruct H as [H1 H2].
  destruct (k0 =? k); simpl; [apply IH, H2 | rewrite H1; apply IH, H2].
Qed.

Lemma enumeration_order_delete o :
  forall lo k,
    enumeration_order lo o = true -> enumeration_order lo (obj_delete k o) = true.
Proof.
  induction o as [|[k0 v0] o IH]; intros lo k Ho; simpl; [reflexivity|].
  simpl in Ho. destruct (array_index k0) as [n0|] eqn:Hk0.
  - apply andb_true_iff in Ho. destruct Ho as [H1 H2].
    destruct (k0 =? k).
    + apply IH. apply (enumeration_order_weaken _ lo n0); [apply N.leb_le, H1 | exact H2].
    + simpl. rewrite Hk0, H1. apply IH, H2.
  - destruct (k0 =? k).
    + apply enumeration_order_strings, forallb_delete, Ho.
    + simpl. rewrite Hk0. apply forallb_delete, Ho.
Qed.

(** Before an array index there are only array indices that are not
    above it. *)
Lemma enumeration_order_before_index (o1 : Obj V) :
  forall lo k v (o2 : Obj V) n,
    enumeration_order lo (o1 ++ (k, v) :: o2)%list = true ->
    array_index k = Some n ->
    (lo <= n)%N /\
    Forall (fun kv => exists m, array_index (fst kv) = Some m /\ (m <= n)%N) o1.
Proof.
  induction o1 as [|[k1 v1] o1 IH]; intros lo k v o2 n Ho Hk; simpl in Ho.
  - rewrite Hk in Ho. apply andb_true_iff in Ho. destruct Ho as [H1 _].
    split; [apply N.leb_le, H1 | constructor].
  - destruct (array_index k1) as [n1|] eqn:Hk1.
    + apply andb_true_iff in Ho. destruct Ho as [H1 H2].
      apply N.leb_le in H1.
      destruct (IH _ _ _ _ _ H2 Hk) as [Hn1 Hall].
      split; [lia|]. constructor; [|exact Hall].
      exists n1. split; [exact Hk1 | exact Hn1].
    + rewrite forallb_app in Ho. apply andb_true_iff in Ho. destruct Ho as [_ Ho].
      simpl in Ho. rewrite (array_index_is_index _ _ Hk) in Ho. discriminate.
Qed.

Lemma obj_insert_index_last o n k v :
  Forall (fun kv => exists m, array_index (fst kv) = Some m /\ (m <= n)%N) o ->
  obj_insert_index n k v o = (o ++ [(k, v)])%list.
Proof.
  induction 1 as [|[k0 v0] o (m & Hm & Hle) _ IH]; simpl; [reflexivity|].
  simpl in Hm. rewrite Hm. apply N.leb_le in Hle. rewrite Hle, IH. reflexivity.
Qed.
End EnumerationOrder.

Section Pick.
Context {V : Type}.
Implicit Types (o : Obj V) (k : string) (v : V).

Lemma obj_get_filter_none (p : string -> bool) o k :
  obj_get k o = None -> obj_get k (filter (fun kv => p (fst kv)) o) = None.
Proof.
  induction o as [|[k0 v0] o IH]; simpl; [reflexivity|].
  destruct (String.eqb_spec k0 k) as [->|Hne]; [discriminate|].
  intros H. destruct (p k0); simpl; [|apply IH, H].
  apply String.eqb_neq in Hne. rewrite Hne. apply IH, H.
Qed.

Lemma obj_get_not_in o k : ~ In k (Object_keys o) -> obj_get k o = None.
Proof.
  intros H. destruct (obj_get k o) eqn:E; [|reflexivity].
  exfalso. apply H, in_Object_keys. rewrite E. discriminate.
Qed.

Lemma pick_from (p : string -> bool) o (o2 : Obj V) :
  forall o1 : Obj V,
    o = (o1 ++ o2)%list ->
    NoDup (Object_keys o) ->
    enumeration_order 0 o = true ->
    fold_left (pick_step o) (filter p (Object_keys o2))
              (filter (fun kv => p (fst kv)) o1)
    = filter (fun kv => p (fst kv)) o.
Proof.
  induction o2 as [|[k v] o2 IH]; intros o1 Ho Hnd Hord; simpl.
  - rewrite Ho, app_nil_r. reflexivity.
  - assert (Ho' : o = ((o1 ++ [(k, v)]) ++ o2)%list)
      by (rewrite <- app_assoc; exact Ho).
    assert (Hstep : filter (fun kv => p (fst kv)) (o1 ++ [(k, v)])%list
                    = if p k then (filter (fun kv => p (fst kv)) o1 ++ [(k, v)])%list
                      else filter (fun kv => p (fst kv)) o1).
    { rewrite filter_app. simpl. destruct (p k); [reflexivity | apply app_nil_r]. }
    destruct (p k) eqn:Hpk; [|rewrite <- Hstep; apply IH; assumption].
    simpl.
    replace (pick_step o (filter (fun kv => p (fst kv)) o1) k)
      with (filter (fun kv => p (fst kv)) (o1 ++ [(k, v)])%list);
      [apply IH; assumption|].
    rewrite Hstep. unfold pick_step.
    assert (Hget : obj_get k o = Some v).
    { apply obj_get_of_in; [exact Hnd|]. rewrite Ho. apply in_or_app.
      right. left. reflexivity. }
    rewrite Hget.
    assert (Hfresh : ~ In k (Object_keys o1)).
    { rewrite Ho in Hnd. unfold Object_keys in *. rewrite map_app in Hnd. simpl in Hnd.
      apply NoDup_remove_2 in Hnd. intros Hin. apply Hnd. apply in_or_app.
      left. exact Hin. }
    unfold obj_set, obj_has.
    rewrite (obj_get_filter_none p o1 k (obj_get_not_in _ _ Hfresh)).
    destruct (array_index k) as [n|] eqn:Hk; [|reflexivity].
    symmetry. apply obj_insert_index_last.
    rewrite Ho in Hord.
    destruct (enumeration_order_before_index o1 0%N k v o2 n Hord Hk) as [_ Hall].
    apply Forall_forall. intros kv Hkv. apply filter_In in Hkv.
    rewrite Forall_forall in Hall. apply Hall, Hkv.
Qed.

(** Picking a selection of the enumerated keys keeps the selected
    properties in their order. *)
Lemma pick_filter_keys (p : string -> bool) o :
  NoDup (Object_keys o) ->
  enumeration_order 0 o = true ->
  pick o (filter p (Object_keys o)) = filter (fun kv => p (fst kv)) o.
Proof.
  intros Hnd Hord. unfold pick.
  apply (pick_from p o o []); [reflexivity | exact Hnd | exact Hord].
Qed.

Lemma Object_keys_filter (p : string -> bool) o :
  Object_keys (filter (fun kv => p (fst kv)) o) = filter p (Object_keys o).
Proof.
  unfold Object_keys. induction o as [|[k0 v0] o IH]; simpl; [reflexivity|].
  destruct (p k0); simpl; rewrite IH; reflexivity.
Qed.
End Pick.

Lemma mem_In (k : string) (ks : list string) : mem k ks = true <-> In k ks.
Proof.
  unfold mem. rewrite existsb_exists. split.
  - intros (x & Hx & E). apply String.eqb_eq in E. subst. exact Hx.
  - intros H. exists k. split; [exact H | apply String.eqb_refl].
Qed.

Lemma filter_mem_filter (p : string -> bool) (ks : list string) :
  filter (fun k => mem k (filter p ks)) ks = filter p ks.
Proof.
  apply filter_ext_in. intros k Hk.
  destruct (p k) eqn:Hp.
  - apply mem_In, filter_In. split; assumption.
  - destruct (mem k (filter p ks)) eqn:Hm; [|reflexivity].
    apply mem_In, filter_In in Hm. destruct Hm as [_ Hm]. congruence.
Qed.

Lemma filter_mem_self (ks : list string) : filter (fun k => mem k ks) ks = ks.
Proof.
  assert (H : forall l, (forall x, In x l -> In x ks) ->
                        filter (fun k => mem k ks) l = l).
  { induction l as [|x l IH]; simpl; intros Hsub; [reflexivity|].
    rewrite (proj2 (mem_In x ks)) by (apply Hsub; left; reflexivity).
    f_equal. apply IH. intros y Hy. apply Hsub. right. exact Hy. }
  apply H. intros x Hx. exact Hx.
Qed.

(* ===================================================================== *)
(** ** Order of the groups of a classification *)
(* ===================================================================== *)

Section StringKeys.
Context {V : Type}.
Implicit Types (o : Obj V) (k : string) (v : V).

Lemma string_keys_insert_index o n k v :
  array_index k = Some n ->
  string_keys (Object_keys (obj_insert_index n k v o)) = string_keys (Object_keys o).
Proof.
  intros Hk. pose proof (array_index_is_index _ _ Hk) as Hidx.
  unfold string_keys, Object_keys.
  induction o as [|[k0 v0] o IH]; simpl.
  - rewrite Hidx. reflexivity.
  - destruct (array_index k0) as [n0|] eqn:Hk0.
    + destruct (n0 <=? n)%N; simpl.
      * rewrite IH. reflexivity.
      * rewrite Hidx. reflexivity.
    + simpl. rewrite Hidx. reflexivity.
Qed.

Lemma string_keys_set_new o k v :
  obj_has k o = false ->
  string_keys (Object_keys (obj_set k v o)) =
  (string_keys (Object_keys o) ++ string_keys [k])%list.
Proof.
  intros Hhas. unfold obj_set. rewrite Hhas.
  destruct (array_index k) as [n|] eqn:Hk.
  - rewrite (string_keys_insert_index _ _ _ _ Hk).
    unfold string_keys at 3. simpl. rewrite (array_index_is_index _ _ Hk). simpl.
    rewrite app_nil_r. reflexivity.
  - unfold string_keys, Object_keys. rewrite map_app, filter_app. reflexivity.
Qed.
End StringKeys.

Lemma filter_filter_comm {A} (p q : A -> bool) (l : list A) :
  filter p (filter q l) = filter q (filter p l).
Proof.
  induction l as [|x l IH]; simpl; [reflexivity|].
  destruct (p x) eqn:Hp, (q x) eqn:Hq; simpl; rewrite ?Hp, ?Hq, IH; reflexivity.
Qed.

Section ClassificationOrder.
Variable granuleIdRegex : RegExp.

Lemma filter_filter_and {A} (p q : A -> bool) (l : list A) :
  filter p (filter q l) = filter (fun x => p x && q x) l.
Proof.
  induction l as [|x l IH]; simpl; [reflexivity|].
  destruct (q x); simpl; [|rewrite andb_false_r; exact IH].
  rewrite andb_true_r. destruct (p x); rewrite IH; reflexivity.
Qed.

Lemma groupBy_from_string_keys (files_ : list File) :
  forall (acc : Obj (list File)) (seen : list string),
    (forall k, k <> "__proto__" -> mem k seen = obj_has k acc) ->
    obj_get "__proto__" acc = None ->
    string_keys (Object_keys
                   (fold_left (groupBy_step (granuleIdOfFile granuleIdRegex)) files_ acc))
    = (string_keys (Object_keys acc)
       ++ filter (fun k => negb (k =? "__proto__"))
            (string_keys (first_occurrences_from seen
                            (map (group_key granuleIdRegex) files_))))%list.
Proof.
  induction files_ as [|f files_ IH]; intros acc seen Hseen Hproto; simpl.
  - rewrite app_nil_r. reflexivity.
  - unfold groupBy_step at 2. fold (group_key granuleIdRegex f).
    destruct (String.eqb_spec (group_key granuleIdRegex f) "__proto__") as [E|Hne].
    + rewrite E, Hproto.
      destruct (mem "__proto__" seen).
      * apply IH; assumption.
      * rewrite (IH acc ("__proto__" :: seen)); [reflexivity| |exact Hproto].
        intros k Hk. simpl. apply String.eqb_neq in Hk. rewrite Hk. simpl.
        apply Hseen. apply String.eqb_neq, Hk.
    + rewrite (Hseen _ Hne). unfold obj_has.
      destruct (obj_get (group_key granuleIdRegex f) acc) as [g|] eqn:Hget.
      * rewrite (IH _ seen).
        -- rewrite Object_keys_update. reflexivity.
        -- intros k Hk. rewrite (Hseen k Hk). unfold obj_has. rewrite obj_get_update.
           unfold obj_has. rewrite Hget.
           destruct (String.eqb_spec (group_key granuleIdRegex f) k) as [<-|_];
             [rewrite Hget|]; reflexivity.
        -- rewrite obj_get_update. apply String.eqb_neq in Hne. rewrite Hne.
           exact Hproto.
      * rewrite (IH _ (group_key granuleIdRegex f :: seen)).
        -- rewrite string_keys_set_new by (unfold obj_has; rewrite Hget; reflexivity).
           rewrite <- app_assoc. f_equal.
           unfold string_keys. simpl.
           destruct (is_array_index (group_key granuleIdRegex f)); [reflexivity|].
           simpl. apply String.eqb_neq in Hne. rewrite Hne. reflexivity.
        -- intros k Hk. unfold obj_has. rewrite obj_get_set. simpl.
           rewrite String.eqb_sym.
           destruct (group_key granuleIdRegex f =? k); [reflexivity|].
           simpl. apply (Hseen k Hk).
        -- rewrite obj_get_set. apply String.eqb_neq in Hne. rewrite Hne.
           exact Hproto.
Qed.

(** Among the keys that are not array indices, the groups are in the
    order in which classification created them. *)
Lemma groupFilesByGranuleId_string_keys (files_ : list File) :
  string_keys (Object_keys (groupFilesByGranuleId granuleIdRegex files_))
  = string_keys (insertion_order granuleIdRegex files_).
Proof.
  unfold groupFilesByGranuleId, groupBy, insertion_order, first_occurrences.
  rewrite Object_keys_delete. unfold string_keys at 1 2.
  rewrite filter_filter_comm. fold (string_keys (Object_keys
    (fold_left (groupBy_step (granuleIdOfFile granuleIdRegex)) files_ empty_obj))).
  rewrite (groupBy_from_string_keys files_ empty_obj []) by reflexivity.
  simpl. unfold string_keys.
  rewrite (filter_filter_comm (fun k => negb (is_array_index k))).
  rewrite <- filter_filter_and.
  rewrite (filter_filter_comm (fun k => negb (k =? "__proto__"))).
  reflexivity.
Qed.

Lemma enumeration_order_groupBy_from (files_ : list File) :
  forall acc : Obj (list File),
    enumeration_order 0 acc = true ->
    enumeration_order 0
      (fold_left (groupBy_step (granuleIdOfFile granuleIdRegex)) files_ acc) = true.
Proof.
  induction files_ as [|f files_ IH]; intros acc Hacc; simpl; [exact Hacc|].
  apply IH. unfold groupBy_step. destruct (obj_get _ acc).
  - rewrite enumeration_order_update. exact Hacc.
  - destruct (_ =? "__proto__"); [exact Hacc | apply enumeration_order_set, Hacc].
Qed.

(** The groups are enumerated with the array indices first, in
    ascending order. *)
Lemma enumeration_order_groupFilesByGranuleId (files_ : list File) :
  enumeration_order 0 (groupFilesByGranuleId granuleIdRegex files_) = true.
Proof.
  unfold groupFilesByGranuleId, groupBy.
  apply enumeration_order_delete, enumeration_order_groupBy_from. reflexivity.
Qed.
End ClassificationOrder.

(* ===================================================================== *)
(** ** Order of the granules *)
(* ===================================================================== *)

Lemma filterDuplicates_ok_token (w : World) (ids : list string) (policy : Value)
    (kept : list string) :
  outcome (filterDuplicates w ids policy) = Ok kept ->
  exists tok, token_acquired w tok.
Proof.
  unfold filterDuplicates, call, bind, emit, ret, outcome, token_acquired.
  destruct (getSecretString w (process_env w "urs_password_secret_name")) as [pw|];
    [|discriminate].
  destruct (getSecretString w (process_env w "passphraseSecretName")) as [pp|];
    [|discriminate].
  destruct (getAuthToken w _ _) as [authToken|] eqn:Hauth; [|discriminate].
  intros _. exists authToken, pw, pp. repeat split. exact Hauth.
Qed.

(** Whenever [filterDuplicates] returns, under any policy, it returns the
    non-empty identifiers that the catalog reported not found, in the
    order of the input. *)
Lemma filterDuplicates_ok_shape (w : World) (tok : Value) (ids : list string)
    (policy : Value) (kept : list string) :
  token_acquired w tok ->
  outcome (filterDuplicates w ids policy) = Ok kept ->
  kept = filter (fun id => truthy_string id && absent w tok id) ids.
Proof.
  intros Htok. rewrite (filterDuplicates_outcome w tok Htok).
  destruct (Promise_all _) as [filteredKeys|] eqn:Hall; [|discriminate].
  intros [= <-].
  assert (Hnone : forall id, In id ids ->
            settled (checkDuplicate w id (dupeConfig_of policy tok) (api_base w))
            = Ok (if absent w tok id then id else "")).
  { intros id Hid.
    unfold Promise_all in Hall.
    destruct (first_rejection _) as [[t e]|] eqn:Hfirst; [discriminate|].
    destruct (proj1 (first_rejection_none _) Hfirst
                (checkDuplicate w id (dupeConfig_of policy tok) (api_base w)))
      as [a Ha].
    { apply (in_map (fun id => checkDuplicate w id (dupeConfig_of policy tok) (api_base w))).
      exact Hid. }
    rewrite checkDuplicate_lookup in Ha |- *. simpl in Ha |- *. unfold absent.
    destruct (settled (lookup w tok id)) as [r|e].
    - destruct (includes ["error"] policy); [discriminate | reflexivity].
    - destruct (is_not_found e); [reflexivity | discriminate]. }
  rewrite (Promise_all_map_fulfilled _ _ ids Hnone) in Hall.
  injection Hall as <-. apply filter_truthy_marked.
Qed.

(** The granules are built in the enumeration order of the groups, one
    for each key. *)
Lemma granule_ids_of_groups (config : Config) (o : Obj (list File))
    (gs : list Granule) :
  all_ok (map_object o (fun files_ key => buildGranule config (FileArray files_)
                                                       (VStr key))) = Ok gs ->
  map granuleId gs = map VStr (Object_keys o).
Proof.
  unfold map_object, Object_keys.
  revert gs. induction o as [|[k fs] o IH]; simpl; intros gs Hall.
  - injection Hall as <-. reflexivity.
  - destruct (buildGranule config fs k) as [g|] eqn:Hg; [|discriminate].
    destruct (all_ok _) as [gs'|]; [|discriminate].
    injection Hall as <-. simpl. rewrite (IH gs' eq_refl). f_equal.
    unfold buildGranule in Hg.
    destruct (if truthy (returnAllFiles config) then _ else _); [|discriminate].
    injection Hg as <-. reflexivity.
Qed.

Lemma buildGranule_id (config : Config) (files_ : Files) (id : Value) (g : Granule) :
  buildGranule config files_ id = Ok g -> granuleId g = id.
Proof.
  unfold buildGranule.
  destruct (if truthy (returnAllFiles config) then _ else _); [|discriminate].
  intros [= <-]. reflexivity.
Qed.

Lemma policy_cases (policy : Value) :
  includes ["skip"; "error"] policy = true /\
  includes ["replace"; "version"] policy = false \/
  includes ["skip"; "error"] policy = false.
Proof.
  destruct (includes ["skip"; "error"] policy) eqn:H; [left | right; reflexivity].
  split; [reflexivity|].
  destruct policy as [| |b|z|s]; try reflexivity. simpl in *.
  rewrite !orb_false_r in *. apply orb_true_iff in H.
  destruct H as [H|H]; apply String.eqb_eq in H; subst; reflexivity.
Qed.

(** *** When the groups are walked as an array *)

Lemma some_file_keyed_spec (granuleIdRegex : RegExp) (key : string)
    (files_ : list File) :
  some_file_keyed granuleIdRegex key files_ =
  match files_keyed granuleIdRegex key files_ with [] => false | _ => true end.
Proof.
  unfold some_file_keyed, files_keyed.
  induction files_ as [|f files_ IH]; simpl; [reflexivity|].
  destruct (group_key granuleIdRegex f =? key); [reflexivity | exact IH].
Qed.

(** The prototype of the classification is the last listed file that is
    filed under __proto__. *)
Lemma groupFilesByGranuleId_prototype_last (granuleIdRegex : RegExp)
    (files_ : list File) :
  groupFilesByGranuleId_prototype granuleIdRegex files_ =
  last_of (files_keyed granuleIdRegex "__proto__" files_).
Proof.
  unfold groupFilesByGranuleId_prototype, groupBy_prototype, last_of.
  rewrite groupBy_prototype_from.
  destruct (rev (files_keyed granuleIdRegex "__proto__" files_)); reflexivity.
Qed.

Lemma last_of_some {A} (l : list A) :
  match last_of l with Some _ => true | None => false end =
  match l with [] => false | _ => true end.
Proof.
  unfold last_of. destruct l as [|x l]; [reflexivity|].
  simpl. destruct (rev l); reflexivity.
Qed.

(** The object that [map] walks is array-like exactly in the case that
    [walked_as_array] describes. *)
Lemma isArrayLike_walked (granuleIdRegex : RegExp) (files_ : list File)
    (policy : Value) :
  isArrayLike (groupFilesByGranuleId granuleIdRegex files_)
              (prototype_after_handling policy
                 (groupFilesByGranuleId_prototype granuleIdRegex files_))
  = walked_as_array (effective_policy policy) granuleIdRegex files_.
Proof.
  unfold walked_as_array, prototype_replaced, prototype_after_handling.
  fold (effective_policy policy).
  destruct (includes ["replace"; "version"] (effective_policy policy));
    [|reflexivity].
  simpl andb. unfold isArrayLike.
  rewrite groupFilesByGranuleId_prototype_last.
  pose proof (last_of_some (files_keyed granuleIdRegex "__proto__" files_)) as Hlast.
  rewrite !some_file_keyed_spec.
  destruct (last_of (files_keyed granuleIdRegex "__proto__" files_)) as [last_|].
  - rewrite <- Hlast. simpl. f_equal.
    unfold obj_has. rewrite groupFilesByGranuleId_get. simpl.
    destruct (files_keyed granuleIdRegex "length" files_); reflexivity.
  - rewrite <- Hlast. reflexivity.
Qed.

Lemma lodash_map_not_array_like {V A B} (object : Obj V) (prototype : option A)
    (iteratee : V + A -> Value -> B) :
  isArrayLike object prototype = false ->
  lodash_map object prototype iteratee =
  map_object object (fun value key => iteratee (inl value) (VStr key)).
Proof.
  intros Hlike. unfold lodash_map. rewrite Hlike.
  destruct prototype; reflexivity.
Qed.

Lemma lodash_map_array_like {V A B} (object : Obj V) (prototype : option A)
    (iteratee : V + A -> Value -> B) :
  isArrayLike object prototype = true ->
  exists element,
    prototype = Some element /\
    lodash_map object prototype iteratee =
    [iteratee (match obj_get "0" object with
               | Some value => inl value
               | None => inr element
               end) (VNum 0)].
Proof.
  intros Hlike. unfold lodash_map. rewrite Hlike.
  destruct prototype as [element|]; [|discriminate].
  exists element. split; reflexivity.
Qed.

(** C8 (amended).  When the object whose groups become granules has
    the prototype of a plain object, which is so under 'skip' and 'error'
    and whenever no listed file is filed under __proto__, the task
    returns one granule for each key that duplicate resolution keeps and
    none for any other key, in the order in which the keys of the
    classification are enumerated.  That order has the keys that are
    array indices first, in ascending numeric order; the other keys
    follow in the order in which classification created them, which is
    the order of their first file in the listing. *)
Theorem granules_follow_key_enumeration (w : World) (config : Config) (out : Output) :
  outcome (discoverGranules w config) = Ok out ->
  exists listing kept,
    provider_list w (provider config) (useList config)
      (normalizeProviderPath w (provider_path (collection config))) = Ok listing /\
    (includes ["skip"; "error"] (effective_policy (duplicateHandlingType w config)) = true /\
     outcome (filterDuplicates w
                (Object_keys (groupFilesByGranuleId
                                (granuleIdExtraction (collection config)) listing))
                (effective_policy (duplicateHandlingType w config))) = Ok kept
     \/
     includes ["replace"; "version"] (effective_policy (duplicateHandlingType w config)) = true /\
     kept = Object_keys (groupFilesByGranuleId
                           (granuleIdExtraction (collection config)) listing)) /\
    (prototype_replaced (effective_policy (duplicateHandlingType w config))
                        (granuleIdExtraction (collection config)) listing = false ->
     map granuleId (granules out) =
     map VStr
         (filter (fun k => mem k kept)
                 (Object_keys (groupFilesByGranuleId
                                 (granuleIdExtraction (collection config)) listing)))) /\
    enumeration_order 0 (groupFilesByGranuleId
                           (granuleIdExtraction (collection config)) listing) = true /\
    string_keys (Object_keys (groupFilesByGranuleId
                                (granuleIdExtraction (collection config)) listing))
    = string_keys (insertion_order (granuleIdExtraction (collection config)) listing).
Proof.
  rewrite discoverGranules_outcome.
  destruct (provider_list _ _ _ _) as [listing|] eqn:Hlist; [|discriminate].
  set (groups := groupFilesByGranuleId (granuleIdExtraction (collection config)) listing).
  set (policy := duplicateHandlingType w config).
  destruct (outcome (handleDuplicates w groups policy)) as [surviving|] eqn:Hhandle;
    [|discriminate].
  destruct (all_ok _) as [gs|] eqn:Hgs; [|discriminate].
  intros [= <-]. simpl granules.
  pose proof (NoDup_keys_groupFilesByGranuleId
                (granuleIdExtraction (collection config)) listing) as Hnd.
  pose proof (enumeration_order_groupFilesByGranuleId
                (granuleIdExtraction (collection config)) listing) as Hord.
  fold groups in Hnd, Hord.
  destruct (policy_cases (effective_policy policy)) as [[Hchecked Hnot]|Hunchecked].
  - rewrite (handleDuplicates_checked w groups policy Hchecked) in Hhandle.
    destruct (outcome (filterDuplicates w (Object_keys groups) (effective_policy policy)))
      as [kept|] eqn:Hkept; [|discriminate].
    injection Hhandle as <-.
    destruct (filterDuplicates_ok_token _ _ _ _ Hkept) as [tok Htok].
    pose proof (filterDuplicates_ok_shape w tok _ _ _ Htok Hkept) as Hshape.
    rewrite (prototype_after_handling_checked _ _ Hchecked), lodash_map_plain in Hgs.
    exists listing, kept. split; [reflexivity|].
    split; [left; split; [exact Hchecked | exact Hkept]|].
    split; [|split; [exact Hord | apply groupFilesByGranuleId_string_keys]].
    intros _. rewrite (granule_ids_of_groups config _ gs Hgs). f_equal.
    rewrite Hshape.
    rewrite (pick_filter_keys (fun id => truthy_string id && absent w tok id)
                              groups Hnd Hord).
    rewrite (Object_keys_filter (fun id => truthy_string id && absent w tok id)).
    symmetry. apply filter_mem_filter.
  - unfold handleDuplicates in Hhandle. fold (effective_policy policy) in Hhandle.
    rewrite outcome_bind in Hhandle. simpl outcome at 1 in Hhandle.
    rewrite Hunchecked in Hhandle.
    destruct (includes ["replace"; "version"] (effective_policy policy)) eqn:Hrv;
      [|discriminate].
    injection Hhandle as <-.
    pose proof (isArrayLike_walked (granuleIdExtraction (collection config)) listing
                                   policy) as Hwalk.
    fold groups in Hwalk.
    exists listing, (Object_keys groups). split; [reflexivity|].
    split; [right; split; reflexivity|].
    split; [|split; [exact Hord | apply groupFilesByGranuleId_string_keys]].
    intros Hplain. unfold walked_as_array in Hwalk. rewrite Hplain in Hwalk.
    rewrite (lodash_map_not_array_like _ _ _ Hwalk) in Hgs.
    rewrite (granule_ids_of_groups config _ gs Hgs). f_equal.
    symmetry. apply filter_mem_self.
Qed.

(** Policy 'skip' on a listing with the granule ids B2, 10, A1 and 2, of
    which A1 is in the catalog. *)
Lemma granules_follow_key_enumeration_witness :
  outcome (discoverGranules (example_world mixed_listing catalog_with_A1)
                            (example_config (VStr "skip") undefined undefined))
  = Ok mixed_output /\
  map granuleId (granules mixed_output) = [VStr "2"; VStr "10"; VStr "B2"] /\
  prototype_replaced (VStr "skip") stem_pattern mixed_listing = false /\
  exists listing kept,
    Ok mixed_listing = Ok listing /\
    (includes ["skip"; "error"] (effective_policy (VStr "skip")) = true /\
     outcome (filterDuplicates (example_world mixed_listing catalog_with_A1)
                (Object_keys (groupFilesByGranuleId stem_pattern listing))
                (VStr "skip")) = Ok kept
     \/
     includes ["replace"; "version"] (effective_policy (VStr "skip")) = true /\
     kept = Object_keys (groupFilesByGranuleId stem_pattern listing)) /\
    (prototype_replaced (effective_policy (VStr "skip")) stem_pattern listing = false ->
     map granuleId (granules mixed_output) =
     map VStr (filter (fun k => mem k kept)
                      (Object_keys (groupFilesByGranuleId stem_pattern listing)))) /\
    enumeration_order 0 (groupFilesByGranuleId stem_pattern listing) = true /\
    string_keys (Object_keys (groupFilesByGranuleId stem_pattern listing))
    = string_keys (insertion_order stem_pattern listing).
Proof.
  split; [reflexivity|]. split; [reflexivity|]. split; [reflexivity|].
  exact (granules_follow_key_enumeration
           (example_world mixed_listing catalog_with_A1)
           (example_config (VStr "skip") undefined undefined)
           mixed_output eq_refl).
Defined.

(** C8 as stated fails: with the files 10.dat and 2.dat listed in that
    order and every granule kept, classification creates the key 10
    before the key 2, and the task returns the granule 2 before the
    granule 10. *)
Lemma granules_not_in_insertion_order :
  exists out,
    outcome (discoverGranules (example_world numbered_listing empty_catalog)
                              (example_config (VStr "replace") (VBool true) undefined))
    = Ok out /\
    insertion_order stem_pattern numbered_listing = ["10"; "2"] /\
    map granuleId (granules out) = [VStr "2"; VStr "10"] /\
    map granuleId (granules out) <>
    map VStr (filter (fun k => mem k ["10"; "2"])
                     (insertion_order stem_pattern numbered_listing)).
Proof.
  eexists. split; [reflexivity|]. split; [reflexivity|]. split; [reflexivity|].
  discriminate.
Qed.

(* ===================================================================== *)
(** ** Further properties of duplicate handling *)
(* ===================================================================== *)

Import TaskNotions TaskExamples.

Lemma includes_four_split (policy : Value) :
  includes ["skip"; "error"; "replace"; "version"] policy = false ->
  includes ["skip"; "error"] policy = false /\
  includes ["replace"; "version"] policy = false.
Proof.
  destruct policy as [| |b|z|s]; simpl; try (intros _; split; reflexivity).
  rewrite !orb_false_r.
  destruct (s =? "skip"), (s =? "error"), (s =? "replace"), (s =? "version");
    simpl; intros H; try discriminate; split; reflexivity.
Qed.

(** X1.  A duplicate handling that is none of 'skip', 'error', 'replace'
    and 'version' (and is not left undefined) makes [handleDuplicates]
    throw the invalid-configuration error that carries the value, after
    the log line and without any lookup or fetch of credentials, and the
    task fails with that error. *)
Theorem unknown_duplicate_handling_is_rejected
    (w : World) (filesByGranuleId : Obj (list File)) (policy : Value) :
  policy <> undefined ->
  includes ["skip"; "error"; "replace"; "version"] policy = false ->
  handleDuplicates w filesByGranuleId policy =
  ([LogInfo ("Running discoverGranules with duplicateHandling set to "
             ++ ToString policy)],
   Err (InvalidDuplicateHandling policy)) /\
  forall config listing,
    provider_list w (provider config) (useList config) (listed_path w config)
    = Ok listing ->
    duplicateHandlingType w config = policy ->
    outcome (discoverGranules w config) = Err (InvalidDuplicateHandling policy).
Proof.
  intros Hdef Hnone.
  destruct (includes_four_split policy Hnone) as [Hchecked Hunchecked].
  assert (Hhandle : forall o, handleDuplicates w o policy =
            ([LogInfo ("Running discoverGranules with duplicateHandling set to "
                       ++ ToString policy)],
             Err (InvalidDuplicateHandling policy))).
  { intros o. unfold handleDuplicates.
    replace (match policy with undefined => VStr "error" | _ => policy end)
      with policy by (destruct policy; [contradiction | reflexivity ..]).
    unfold bind, emit, throw. rewrite Hchecked, Hunchecked. reflexivity. }
  split; [apply Hhandle|].
  intros config listing Hlist Hpolicy.
  rewrite discoverGranules_outcome. unfold listed_path in Hlist.
  rewrite Hlist, Hpolicy, Hhandle. reflexivity.
Qed.

(** The policy is compared as written: 'Skip' is not 'skip'. *)
Lemma unknown_duplicate_handling_is_rejected_witness :
  outcome (discoverGranules (example_world [file "A1.dat"] catalog_with_A1)
                            (example_config (VStr "Skip") undefined undefined))
  = Err (InvalidDuplicateHandling (VStr "Skip")).
Proof.
  refine (proj2 (unknown_duplicate_handling_is_rejected
                   (example_world [file "A1.dat"] catalog_with_A1) []
                   (VStr "Skip") _ eq_refl)
                (example_config (VStr "Skip") undefined undefined)
                [file "A1.dat"] eq_refl eq_refl).
  discriminate.
Defined.

Lemma filterDuplicates_trace_no_listing (w : World) (ids : list string)
    (policy : Value) :
  filter is_listing (trace (filterDuplicates w ids policy)) = [].
Proof.
  unfold filterDuplicates, call, bind, emit, ret, trace.
  destruct (getSecretString w (process_env w "urs_password_secret_name")) as [pw|];
    [|reflexivity].
  destruct (getSecretString w (process_env w "passphraseSecretName")) as [pp|];
    [|reflexivity].
  destruct (getAuthToken w _ _) as [authToken|]; [|reflexivity].
  destruct (Promise_all _); simpl; rewrite app_nil_r;
    induction ids as [|id ids IH]; simpl; auto.
Qed.

Lemma handleDuplicates_trace_no_listing (w : World) (o : Obj (list File))
    (policy : Value) :
  filter is_listing (trace (handleDuplicates w o policy)) = [].
Proof.
  unfold handleDuplicates. rewrite trace_bind. simpl.
  destruct (includes ["skip"; "error"] _).
  - rewrite trace_bind, filter_app, filterDuplicates_trace_no_listing.
    destruct (outcome (filterDuplicates _ _ _)); reflexivity.
  - destruct (includes ["replace"; "version"] _); reflexivity.
Qed.

(** X2.  Every run of the task begins with the listing of the normalized
    provider path, with the provider configuration and the listing mode
    of the configuration, and lists nothing else; when the listing fails,
    the task fails with the same error and makes no other call. *)
Theorem task_lists_once_and_first (w : World) (config : Config) :
  (exists rest,
      trace (discoverGranules w config) =
      ListFiles (provider config) (useList config) (listed_path w config) :: rest /\
      filter is_listing rest = []) /\
  (forall e,
      provider_list w (provider config) (useList config) (listed_path w config) = Err e ->
      discoverGranules w config =
      ([ListFiles (provider config) (useList config) (listed_path w config)], Err e)).
Proof.
  unfold listed_path. split.
  - unfold discoverGranules. rewrite trace_bind.
    unfold listFiles, call. simpl trace at 1. simpl outcome at 1.
    eexists. split; [reflexivity|].
    destruct (provider_list _ _ _ _) as [discoveredFiles|]; [|reflexivity].
    rewrite trace_bind, filter_app, handleDuplicates_trace_no_listing.
    destruct (outcome (handleDuplicates _ _ _)) as [o|]; [|reflexivity].
    rewrite trace_bind. simpl trace at 1. simpl outcome at 1.
    destruct (all_ok _); reflexivity.
  - intros e He. unfold discoverGranules, listFiles, call, bind. rewrite He. reflexivity.
Qed.

(** The provider refuses the connection. *)
Lemma task_lists_once_and_first_witness :
  discoverGranules unreachable_world
                   (example_config (VStr "skip") undefined undefined)
  = ([ListFiles [("protocol", VStr "s3")] undefined "/data"],
     Err (CollaboratorError "provider" "connection refused")).
Proof.
  exact (proj2 (task_lists_once_and_first
                  unreachable_world
                  (example_config (VStr "skip") undefined undefined))
               (CollaboratorError "provider" "connection refused") eq_refl).
Defined.

(** X3.  [filterDuplicates] asks the catalog only once it has the token:
    with the two secrets and the token obtained, it makes those three
    calls and then one lookup for each identifier, in the order of the
    input, each at the url of the granule and with the bearer token,
    whatever the catalog answers; when a secret or the token cannot be
    obtained it fails without a single lookup. *)
Theorem lookups_follow_the_token (w : World) (ids : list string) (policy : Value) :
  (forall tok,
      token_acquired w tok ->
      exists tokenConfig,
        trace (filterDuplicates w ids policy) =
        ([GetSecretString (process_env w "urs_password_secret_name");
          GetSecretString (process_env w "passphraseSecretName");
          GetAuthToken (process_env w "oauth_provider") tokenConfig]
         ++ map (fun id => HttpGet (granule_url (api_base w) id)
                                   ("Bearer " ++ ToString tok)) ids)%list) /\
  ((forall tok, ~ token_acquired w tok) ->
   filter is_lookup (trace (filterDuplicates w ids policy)) = [] /\
   exists e, outcome (filterDuplicates w ids policy) = Err e).
Proof.
  split.
  - intros tok Htok. apply (filterDuplicates_trace w tok Htok).
  - intros Hnone. unfold token_acquired in Hnone.
    unfold filterDuplicates, call, bind, emit, ret, trace, outcome.
    destruct (getSecretString w (process_env w "urs_password_secret_name"))
      as [pw|e1] eqn:Hpw; [|split; [reflexivity | exists e1; reflexivity]].
    destruct (getSecretString w (process_env w "passphraseSecretName"))
      as [pp|e2] eqn:Hpp; [|split; [reflexivity | exists e2; reflexivity]].
    destruct (getAuthToken w _ _) as [authToken|e3] eqn:Hauth;
      [|split; [reflexivity | exists e3; reflexivity]].
    exfalso. apply (Hnone authToken). exists pw, pp. repeat split; assumption.
Qed.

(** Two lookups although the first one fails. *)
Lemma lookups_follow_the_token_witness :
  exists tokenConfig,
    trace (filterDuplicates (example_world [] failing_catalog) ["A1"; "B2"]
                            (VStr "error")) =
    [GetSecretString (VStr "pw-secret"); GetSecretString undefined;
     GetAuthToken (VStr "earthdata") tokenConfig;
     HttpGet "https://api/granules/A1" "Bearer token";
     HttpGet "https://api/granules/B2" "Bearer token"].
Proof.
  exact (proj1 (lookups_follow_the_token (example_world [] failing_catalog)
                  ["A1"; "B2"] (VStr "error"))
               (VStr "token") (example_token _ _)).
Defined.

Lemma Promise_all_error_source {A} (ps : list (Promise A)) (e : Thrown) :
  Promise_all ps = Err e -> exists p, In p ps /\ settled p = Err e.
Proof.
  unfold Promise_all.
  destruct (first_rejection ps) as [[t e']|] eqn:H; [|discriminate].
  intros [= <-]. destruct (first_rejection_some _ _ _ H) as (p & Hin & Hp & _).
  exists p. split; assumption.
Qed.

(** X4.  Under 'skip', once the token is there, [filterDuplicates] fails
    only with the error of a lookup that failed otherwise than by not
    found; a granule that is in the catalog never makes it fail. *)
Theorem skip_fails_only_on_lookup_failure
    (w : World) (tok : Value) (ids : list string) (e : Thrown) :
  token_acquired w tok ->
  outcome (filterDuplicates w ids (VStr "skip")) = Err e ->
  exists id, In id ids /\ lookup_fails w tok id e.
Proof.
  intros Htok. rewrite (filterDuplicates_outcome w tok Htok).
  destruct (Promise_all _) as [keys|e'] eqn:Hall; [discriminate|].
  intros [= ->].
  destruct (Promise_all_error_source _ _ Hall) as (p & Hin & Hp).
  apply in_map_iff in Hin. destruct Hin as (id & <- & Hid).
  exists id. split; [exact Hid|].
  rewrite checkDuplicate_lookup in Hp. simpl in Hp. unfold lookup_fails.
  destruct (settled (lookup w tok id)) as [r|e0]; [discriminate|].
  destruct (is_not_found e0) eqn:Hnf; [discriminate|].
  injection Hp as ->. split; [reflexivity | exact Hnf].
Qed.

(** The lookup of A1 is answered with a server error. *)
Lemma skip_fails_only_on_lookup_failure_witness :
  exists id,
    In id ["B2"; "A1"] /\
    lookup_fails (example_world [] failing_catalog) (VStr "token") id
                 (HTTPError 500 "Internal Server Error").
Proof.
  exact (skip_fails_only_on_lookup_failure
           (example_world [] failing_catalog) (VStr "token") ["B2"; "A1"]
           (HTTPError 500 "Internal Server Error") (example_token _ _) eq_refl).
Defined.

(** X5.  Under 'error', when [filterDuplicates] returns, the catalog has
    reported every identifier of the input as not found, and the result
    is the input without its empty strings. *)
Theorem error_policy_returns_only_when_all_absent
    (w : World) (tok : Value) (ids kept : list string) :
  token_acquired w tok ->
  outcome (filterDuplicates w ids (VStr "error")) = Ok kept ->
  (forall id, In id ids -> absent w tok id = true) /\
  kept = filter truthy_string ids.
Proof.
  intros Htok Hkept.
  assert (Habs : forall id, In id ids -> absent w tok id = true).
  { intros id Hid. rewrite (filterDuplicates_outcome w tok Htok) in Hkept.
    unfold Promise_all in Hkept.
    destruct (first_rejection _) as [[t e]|] eqn:Hfirst; [discriminate|].
    destruct (proj1 (first_rejection_none _) Hfirst
                (checkDuplicate w id (dupeConfig_of (VStr "error") tok) (api_base w)))
      as [a Ha].
    { apply (in_map (fun id => checkDuplicate w id (dupeConfig_of (VStr "error") tok)
                                              (api_base w))).
      exact Hid. }
    rewrite checkDuplicate_lookup in Ha. simpl in Ha. unfold absent.
    destruct (settled (lookup w tok id)) as [r|e]; [discriminate|].
    destruct (is_not_found e); [reflexivity | discriminate]. }
  split; [exact Habs|].
  rewrite (filterDuplicates_error_none_found w tok Htok ids Habs) in Hkept.
  injection Hkept as <-. reflexivity.
Qed.

(** Nothing is in the catalog. *)
Lemma error_policy_returns_only_when_all_absent_witness :
  (forall id, In id ["A1"; "B2"] ->
              absent (example_world [] empty_catalog) (VStr "token") id = true) /\
  ["A1"; "B2"] = filter truthy_string ["A1"; "B2"].
Proof.
  exact (error_policy_returns_only_when_all_absent
           (example_world [] empty_catalog) (VStr "token") ["A1"; "B2"] ["A1"; "B2"]
           (example_token _ _) eq_refl).
Defined.

Lemma is_not_found_exact (e : Thrown) :
  is_not_found e = true <-> e = HTTPError 404 "Not Found".
Proof.
  split.
  - destruct e as [| | |code message| |]; simpl; try discriminate.
    intros H. apply andb_true_iff in H. destruct H as [Hc Hm].
    apply Z.eqb_eq in Hc. apply String.eqb_eq in Hm. subst. reflexivity.
  - intros ->. reflexivity.
Qed.

(** X6.  The only answer that counts as not found is the error with
    status code 404 and status message 'Not Found': a lookup answered 404
    with any other status message rejects its check with that error and
    makes [filterDuplicates] fail, under every policy. *)
Theorem not_found_needs_the_status_message
    (w : World) (tok : Value) (ids : list string) (policy : Value)
    (id message : string) :
  token_acquired w tok ->
  In id ids ->
  settled (lookup w tok id) = Err (HTTPError 404 message) ->
  message <> "Not Found" ->
  settled (checkDuplicate w id (dupeConfig_of policy tok) (api_base w))
  = Err (HTTPError 404 message) /\
  exists e, outcome (filterDuplicates w ids policy) = Err e.
Proof.
  intros Htok Hin Hlookup Hmessage.
  assert (Hfails : lookup_fails w tok id (HTTPError 404 message)).
  { split; [exact Hlookup|].
    destruct (is_not_found (HTTPError 404 message)) eqn:Hnf; [|reflexivity].
    apply is_not_found_exact in Hnf. injection Hnf as ->. contradiction. }
  pose proof (checkDuplicate_hard_failure w tok policy id _ Hfails) as Hcheck.
  split; [exact Hcheck|].
  destruct (Promise_all_rejected
              (map (fun id => checkDuplicate w id (dupeConfig_of policy tok) (api_base w)) ids)
              _ _ (in_map _ _ _ Hin) Hcheck) as (t & e & _ & Hall).
  exists e. rewrite (filterDuplicates_outcome w tok Htok), Hall. reflexivity.
Qed.

(** A 404 with an empty status message. *)
Lemma not_found_needs_the_status_message_witness :
  settled (checkDuplicate (example_world [] terse_catalog) "A1"
             (dupeConfig_of (VStr "skip") (VStr "token")) (VStr "https://api"))
  = Err (HTTPError 404 "") /\
  exists e,
    outcome (filterDuplicates (example_world [] terse_catalog) ["A1"] (VStr "skip"))
    = Err e.
Proof.
  refine (not_found_needs_the_status_message
            (example_world [] terse_catalog) (VStr "token") ["A1"] (VStr "skip")
            "A1" "" (example_token _ _) (or_introl eq_refl) eq_refl _).
  discriminate.
Defined.

(* ===================================================================== *)
(** ** Further properties of the task as a whole *)
(* ===================================================================== *)

Lemma obj_get_filter_keys {V} (p : string -> bool) (o : Obj V) (k : string) :
  obj_get k (filter (fun kv => p (fst kv)) o) = if p k then obj_get k o else None.
Proof.
  induction o as [|[k0 v0] o IH]; simpl.
  - destruct (p k); reflexivity.
  - destruct (p k0) eqn:Hp0; simpl.
    + destruct (String.eqb_spec k0 k) as [->|Hne]; [rewrite Hp0; reflexivity | exact IH].
    + destruct (String.eqb_spec k0 k) as [->|Hne]; [rewrite Hp0 in IH |- *; exact IH | exact IH].
Qed.

(** What [handleDuplicates] returns for the groups of a classification:
    the groups of a selection of the keys. *)
Lemma handleDuplicates_selects (w : World) (granuleIdRegex : RegExp)
    (listing : list File) (policy : Value) (surviving : Obj (list File)) :
  outcome (handleDuplicates w (groupFilesByGranuleId granuleIdRegex listing) policy)
  = Ok surviving ->
  exists keep : string -> bool,
    surviving = filter (fun kv => keep (fst kv))
                       (groupFilesByGranuleId granuleIdRegex listing).
Proof.
  set (groups := groupFilesByGranuleId granuleIdRegex listing).
  intros Hhandle.
  destruct (policy_cases (effective_policy policy)) as [[Hchecked _]|Hunchecked].
  - rewrite (handleDuplicates_checked w groups policy Hchecked) in Hhandle.
    destruct (outcome (filterDuplicates w (Object_keys groups) (effective_policy policy)))
      as [kept|] eqn:Hkept; [|discriminate].
    injection Hhandle as <-.
    destruct (filterDuplicates_ok_token _ _ _ _ Hkept) as [tok Htok].
    rewrite (filterDuplicates_ok_shape w tok _ _ _ Htok Hkept).
    exists (fun id => truthy_string id && absent w tok id).
    apply (pick_filter_keys (fun id => truthy_string id && absent w tok id)).
    + apply NoDup_keys_groupFilesByGranuleId.
    + apply enumeration_order_groupFilesByGranuleId.
  - unfold handleDuplicates in Hhandle. fold (effective_policy policy) in Hhandle.
    rewrite outcome_bind in Hhandle. simpl outcome at 1 in Hhandle.
    rewrite Hunchecked in Hhandle.
    destruct (includes ["replace"; "version"] (effective_policy policy)); [|discriminate].
    injection Hhandle as <-. exists (fun _ => true).
    clear. induction groups as [|kv o IH]; simpl; [reflexivity | rewrite <- IH; reflexivity].
Qed.

(** X7.  Whatever the policy, the groups that [handleDuplicates] returns
    for a classification are groups of that classification, with the
    files they had and in the order they had: duplicate handling removes
    whole groups and changes nothing else. *)
Theorem surviving_groups_are_unchanged
    (w : World) (granuleIdRegex : RegExp) (listing : list File) (policy : Value)
    (surviving : Obj (list File)) :
  outcome (handleDuplicates w (groupFilesByGranuleId granuleIdRegex listing) policy)
  = Ok surviving ->
  (exists keep : string -> bool,
      surviving = filter (fun kv => keep (fst kv))
                         (groupFilesByGranuleId granuleIdRegex listing)) /\
  (forall k group,
      obj_get k surviving = Some group ->
      obj_get k (groupFilesByGranuleId granuleIdRegex listing) = Some group /\
      group = files_keyed granuleIdRegex k listing).
Proof.
  intros Hhandle.
  destruct (handleDuplicates_selects _ _ _ _ _ Hhandle) as [keep Hkeep].
  split; [exists keep; exact Hkeep|].
  intros k group Hget. rewrite Hkeep, obj_get_filter_keys in Hget.
  destruct (keep k); [|discriminate].
  split; [exact Hget|].
  apply in_obj_get, groupFilesByGranuleId_entry in Hget. apply Hget.
Qed.

(** Policy 'skip' with A1 in the catalog: the group B2 is what it was. *)
Lemma surviving_groups_are_unchanged_witness :
  obj_get "B2" (groupFilesByGranuleId stem_pattern
                  [file "B2.dat"; file "A1.dat"; file "B2.qa"])
  = Some [file "B2.dat"; file "B2.qa"] /\
  [file "B2.dat"; file "B2.qa"]
  = files_keyed stem_pattern "B2" [file "B2.dat"; file "A1.dat"; file "B2.qa"].
Proof.
  exact (proj2 (surviving_groups_are_unchanged
                  (example_world [] catalog_with_A1) stem_pattern
                  [file "B2.dat"; file "A1.dat"; file "B2.qa"] (VStr "skip")
                  [("B2", [file "B2.dat"; file "B2.qa"])] eq_refl)
               "B2" [file "B2.dat"; file "B2.qa"] eq_refl).
Defined.

Lemma all_ok_in {A} (rs : list (Result A)) (l : list A) (a : A) :
  all_ok rs = Ok l -> In a l -> In (Ok a) rs.
Proof.
  revert l. induction rs as [|[a0|e] rs IH]; simpl; intros l Hall Hin.
  - injection Hall as <-. destruct Hin.
  - destruct (all_ok rs) as [l'|]; [|discriminate].
    injection Hall as <-. destruct Hin as [->|Hin].
    + left. reflexivity.
    + right. apply (IH l' eq_refl Hin).
  - discriminate.
Qed.

Lemma handleDuplicates_unchecked_same (w : World) (groups surviving : Obj (list File))
    (policy : Value) :
  includes ["replace"; "version"] (effective_policy policy) = true ->
  outcome (handleDuplicates w groups policy) = Ok surviving ->
  surviving = groups.
Proof.
  intros Hrv Hhandle.
  unfold handleDuplicates in Hhandle. fold (effective_policy policy) in Hhandle.
  rewrite outcome_bind in Hhandle. simpl outcome at 1 in Hhandle.
  destruct (policy_cases (effective_policy policy)) as [[_ Hnot]|Hunchecked];
    [congruence|].
  rewrite Hunchecked, Hrv in Hhandle. injection Hhandle as <-. reflexivity.
Qed.

(** X8.  When the object whose groups become granules has the prototype
    of a plain object (policy 'skip' or 'error', or no listed file filed
    under __proto__), every granule that the task returns has a string as
    its id and is the granule that [buildGranule] makes of the listed
    files filed under that id, all of them and in listing order; the id
    is neither "null" nor __proto__, and the granule stems from at least
    one listed file. *)
Theorem granules_are_built_from_their_files
    (w : World) (config : Config) (out : Output) (g : Granule) :
  outcome (discoverGranules w config) = Ok out ->
  In g (granules out) ->
  exists listing,
    provider_list w (provider config) (useList config) (listed_path w config)
    = Ok listing /\
    (prototype_replaced (effective_policy (duplicateHandlingType w config))
                        (granuleIdExtraction (collection config)) listing = false ->
     exists id,
       granuleId g = VStr id /\
       id <> "null" /\ id <> "__proto__" /\
       files_keyed (granuleIdExtraction (collection config)) id listing <> [] /\
       buildGranule config
         (FileArray (files_keyed (granuleIdExtraction (collection config)) id listing))
         (VStr id) = Ok g).
Proof.
  unfold listed_path. rewrite discoverGranules_outcome.
  destruct (provider_list _ _ _ _) as [listing|]; [|discriminate].
  set (re := granuleIdExtraction (collection config)).
  set (policy := duplicateHandlingType w config).
  destruct (outcome (handleDuplicates _ _ _)) as [surviving|] eqn:Hhandle; [|discriminate].
  destruct (all_ok _) as [gs|] eqn:Hgs; [|discriminate].
  intros [= <-] Hin. simpl in Hin.
  exists listing. split; [reflexivity|].
  pose proof (isArrayLike_walked re listing policy) as Hwalk.
  destruct (handleDuplicates_selects _ _ _ _ _ Hhandle) as [keep Hkeep].
  intros Hplain.
  assert (Hlike : isArrayLike surviving
                    (prototype_after_handling policy
                       (groupFilesByGranuleId_prototype re listing)) = false).
  { destruct (prototype_after_handling policy _) as [element|] eqn:Hproto;
      [|reflexivity].
    assert (Hrv : includes ["replace"; "version"] (effective_policy policy) = true).
    { destruct (includes ["replace"; "version"] (effective_policy policy)) eqn:E;
        [reflexivity|].
      rewrite (prototype_after_handling_invalid _ _ E) in Hproto. discriminate. }
    rewrite (handleDuplicates_unchecked_same _ _ _ _ Hrv Hhandle), Hwalk.
    unfold walked_as_array. rewrite Hplain. reflexivity. }
  rewrite (lodash_map_not_array_like _ _ _ Hlike) in Hgs.
  apply (all_ok_in _ _ _ Hgs) in Hin. unfold map_object in Hin.
  apply in_map_iff in Hin. destruct Hin as ([k group] & Hbuild & Hentry).
  simpl in Hbuild.
  rewrite Hkeep in Hentry. apply filter_In in Hentry. destruct Hentry as [Hentry _].
  pose proof (groupFilesByGranuleId_entry_key _ _ _ _ Hentry) as Hproto.
  apply groupFilesByGranuleId_entry in Hentry. destruct Hentry as (Hnull & Hne & Hgroup).
  exists k. rewrite <- Hgroup.
  split; [apply (buildGranule_id _ _ _ _ Hbuild)|].
  repeat split; assumption.
Qed.

(** The granule B2 of a listing with two files of it. *)
Lemma granules_are_built_from_their_files_witness :
  exists id,
    VStr "B2" = VStr id /\
    id <> "null" /\ id <> "__proto__" /\
    files_keyed stem_pattern id [file "B2.dat"; file "A1.dat"; file "B2.qa"] <> [] /\
    buildGranule (example_config (VStr "replace") (VBool true) undefined)
                 (FileArray (files_keyed stem_pattern id
                               [file "B2.dat"; file "A1.dat"; file "B2.qa"]))
                 (VStr id)
    = Ok {| granuleId := "B2";
            granule_dataType := VStr "EX";
            granule_version := VStr "001";
            granule_files := [file "B2.dat"; file "B2.qa"] |}.
Proof.
  destruct (granules_are_built_from_their_files
              (example_world [file "B2.dat"; file "A1.dat"; file "B2.qa"] empty_catalog)
              (example_config (VStr "replace") (VBool true) undefined)
              {| granules :=
                   [{| granuleId := "B2";
                       granule_dataType := VStr "EX";
                       granule_version := VStr "001";
                       granule_files := [file "B2.dat"; file "B2.qa"] |};
                    {| granuleId := "A1";
                       granule_dataType := VStr "EX";
                       granule_version := VStr "001";
                       granule_files := [file "A1.dat"] |}] |}
              _ eq_refl (or_introl eq_refl))
    as (listing & Hlisting & Hplain).
  injection Hlisting as <-.
  exact (Hplain eq_refl).
Defined.

(** X9.  Under 'skip' and 'error', when the task returns, its granules
    are those of the keys of the classification that are not empty and
    that the catalog reported not found, in the order in which the keys
    are enumerated. *)
Theorem returned_granules_are_the_absent_keys
    (w : World) (config : Config) (out : Output) :
  includes ["skip"; "error"] (effective_policy (duplicateHandlingType w config)) = true ->
  outcome (discoverGranules w config) = Ok out ->
  exists tok listing,
    token_acquired w tok /\
    provider_list w (provider config) (useList config) (listed_path w config)
    = Ok listing /\
    map granuleId (granules out) =
    map VStr (filter (fun k => truthy_string k && absent w tok k)
                     (Object_keys (groups_of config listing))).
Proof.
  intros Hchecked. unfold listed_path, groups_of. rewrite discoverGranules_outcome.
  destruct (provider_list _ _ _ _) as [listing|]; [|discriminate].
  set (groups := groupFilesByGranuleId (granuleIdExtraction (collection config)) listing).
  rewrite (handleDuplicates_checked w groups _ Hchecked).
  destruct (outcome (filterDuplicates w (Object_keys groups) _)) as [kept|] eqn:Hkept;
    [|discriminate].
  destruct (all_ok _) as [gs|] eqn:Hgs; [|discriminate].
  intros [= <-]. simpl granules.
  destruct (filterDuplicates_ok_token _ _ _ _ Hkept) as [tok Htok].
  exists tok, listing. split; [exact Htok|]. split; [reflexivity|].
  rewrite (prototype_after_handling_checked _ _ Hchecked), lodash_map_plain in Hgs.
  rewrite (granule_ids_of_groups config _ gs Hgs). f_equal.
  rewrite (filterDuplicates_ok_shape w tok _ _ _ Htok Hkept).
  rewrite (pick_filter_keys (fun id => truthy_string id && absent w tok id) groups).
  - apply (Object_keys_filter (fun id => truthy_string id && absent w tok id)).
  - apply NoDup_keys_groupFilesByGranuleId.
  - apply enumeration_order_groupFilesByGranuleId.
Qed.

(** Policy 'skip' on the listing with the ids B2, 10, A1 and 2, A1 being
    in the catalog. *)
Lemma returned_granules_are_the_absent_keys_witness :
  map granuleId (granules mixed_output) = [VStr "2"; VStr "10"; VStr "B2"] /\
  exists tok listing,
    token_acquired (example_world mixed_listing catalog_with_A1) tok /\
    Ok mixed_listing = Ok listing /\
    map granuleId (granules mixed_output) =
    map VStr
        (filter (fun k => truthy_string k
                          && absent (example_world mixed_listing catalog_with_A1) tok k)
                (Object_keys (groups_of (example_config (VStr "skip") undefined undefined)
                                        listing))).
Proof.
  split; [reflexivity|].
  exact (returned_granules_are_the_absent_keys
           (example_world mixed_listing catalog_with_A1)
           (example_config (VStr "skip") undefined undefined)
           mixed_output eq_refl eq_refl).
Defined.

(** X19.  Policy 'replace' or 'version', a listed file filed under
    __proto__ and none under length: the groups are walked as an array
    and not key by key.  When the task returns, it returns a single
    granule, whose id is the number 0; [buildGranule] makes it of the
    files filed under the key 0 when there are any, and otherwise of the
    last listed file filed under __proto__, a single file and not an
    array, which [buildGranule] accepts only when the files configuration
    is ignored. *)
Theorem groups_walked_as_array_give_one_granule
    (w : World) (config : Config) (out : Output) (listing : list File) :
  provider_list w (provider config) (useList config) (listed_path w config)
  = Ok listing ->
  walked_as_array (effective_policy (duplicateHandlingType w config))
                  (granuleIdExtraction (collection config)) listing = true ->
  outcome (discoverGranules w config) = Ok out ->
  exists g files_,
    granules out = [g] /\
    granuleId g = VNum 0 /\
    buildGranule config files_ (VNum 0) = Ok g /\
    match files_keyed (granuleIdExtraction (collection config)) "0" listing with
    | [] =>
        exists file_,
          last_of (files_keyed (granuleIdExtraction (collection config))
                               "__proto__" listing) = Some file_ /\
          files_ = FileObject file_ /\
          truthy (returnAllFiles config) = true
    | group => files_ = FileArray group
    end.
Proof.
  unfold listed_path. intros Hlist Harray. rewrite discoverGranules_outcome, Hlist.
  set (re := granuleIdExtraction (collection config)) in *.
  set (policy := duplicateHandlingType w config) in *.
  destruct (outcome (handleDuplicates _ _ _)) as [surviving|] eqn:Hhandle; [|discriminate].
  destruct (all_ok _) as [gs|] eqn:Hgs; [|discriminate].
  intros [= <-]. simpl granules.
  pose proof (isArrayLike_walked re listing policy) as Hwalk.
  rewrite Harray in Hwalk.
  assert (Hrv : includes ["replace"; "version"] (effective_policy policy) = true).
  { unfold walked_as_array, prototype_replaced in Harray.
    destruct (includes ["replace"; "version"] (effective_policy policy));
      [reflexivity | discriminate]. }
  rewrite (handleDuplicates_unchecked_same _ _ _ _ Hrv Hhandle) in Hgs.
  destruct (lodash_map_array_like (groupFilesByGranuleId re listing) _
              (fun files_ key => buildGranule config (files_argument files_) key)
              Hwalk) as (element & Hproto & Hmap).
  rewrite Hmap in Hgs. simpl in Hgs.
  destruct (buildGranule config _ (VNum 0)) as [g|] eqn:Hg; [|discriminate].
  injection Hgs as <-.
  eexists g, _. split; [reflexivity|].
  split; [apply (buildGranule_id _ _ _ _ Hg)|].
  split; [exact Hg|].
  rewrite groupFilesByGranuleId_get in Hg |- *. simpl in Hg |- *.
  destruct (files_keyed re "0" listing) as [|f0 fs]; simpl in Hg |- *; [|reflexivity].
  exists element. split; [|split; [reflexivity|]].
  - rewrite <- groupFilesByGranuleId_prototype_last, <- Hproto. symmetry.
    apply prototype_after_handling_unchecked.
    unfold effective_policy in Hrv. destruct policy; try discriminate; exact Hrv.
  - unfold buildGranule in Hg.
    destruct (truthy (returnAllFiles config)); [reflexivity | discriminate].
Qed.

(** Policy 'replace' on the listing A1.dat, __proto__.dat, B2.dat, the
    files configuration being ignored: the file A1.dat and the file
    B2.dat are in no granule. *)
Lemma groups_walked_as_array_give_one_granule_witness :
  outcome (discoverGranules (example_world proto_listing empty_catalog)
                            (example_config (VStr "replace") (VBool true) undefined))
  = Ok proto_output /\
  Object_keys (groupFilesByGranuleId stem_pattern proto_listing) = ["A1"; "B2"] /\
  granules proto_output
  = [{| granuleId := VNum 0;
        granule_dataType := VStr "EX";
        granule_version := VStr "001";
        granule_files := FileObject (file "__proto__.dat") |}] /\
  exists g files_,
    granules proto_output = [g] /\
    granuleId g = VNum 0 /\
    buildGranule (example_config (VStr "replace") (VBool true) undefined)
                 files_ (VNum 0) = Ok g /\
    exists file_,
      last_of (files_keyed stem_pattern "__proto__" proto_listing) = Some file_ /\
      files_ = FileObject file_ /\
      truthy (returnAllFiles (example_config (VStr "replace") (VBool true) undefined))
      = true.
Proof.
  split; [reflexivity|]. split; [reflexivity|]. split; [reflexivity|].
  exact (groups_walked_as_array_give_one_granule
           (example_world proto_listing empty_catalog)
           (example_config (VStr "replace") (VBool true) undefined)
           proto_output proto_listing eq_refl eq_refl eq_refl).
Defined.

(* ===================================================================== *)
(** ** Further properties of enrichment and classification *)
(* ===================================================================== *)

Lemma bucket_name_at_missing (config : Config) (rule : CollectionFileConfig) :
  obj_get (bucket rule) (buckets config) = None ->
  inherited (bucket rule) = None ->
  bucket_name_at (buckets config) (bucket rule)
  = Err (TypeError "Cannot read property 'name' of undefined").
Proof.
  intros Hown Hinh. unfold bucket_name_at. rewrite Hown, Hinh. reflexivity.
Qed.

Lemma enrich_fails_on_missing_bucket (config : Config) (fs : list File) :
  (exists file, In file fs /\ bucket_missing config file) ->
  all_ok (map (updateFileFromCollectionFileConfig config)
              (filter (fileHasCollectionFileConfig (files (collection config))) fs))
  = Err (TypeError "Cannot read property 'name' of undefined").
Proof.
  induction fs as [|f fs IH]; intros (file & Hin & rule & Hrule & Hown & Hinh).
  - destruct Hin.
  - simpl. unfold fileHasCollectionFileConfig at 1.
    destruct (getCollectionFileConfig (files (collection config)) f) as [r|] eqn:Hf.
    + simpl. unfold updateFileFromCollectionFileConfig at 1. rewrite Hf.
      destruct (bucket_name_at (buckets config) (bucket r)) as [b|e] eqn:Hb.
      * destruct Hin as [->|Hin].
        -- rewrite Hrule in Hf. injection Hf as ->.
           rewrite (bucket_name_at_missing config r Hown Hinh) in Hb. discriminate.
        -- rewrite IH; [reflexivity|]. exists file. split; [exact Hin|].
           exists rule. repeat split; assumption.
      * apply bucket_name_at_err in Hb. destruct Hb as (_ & _ & ->). reflexivity.
    + destruct Hin as [->|Hin]; [congruence|].
      apply IH. exists file. split; [exact Hin|]. exists rule. repeat split; assumption.
Qed.

Lemma enrich_failure_is_missing_bucket (config : Config) (fs : list File) (e : Thrown) :
  all_ok (map (updateFileFromCollectionFileConfig config)
              (filter (fileHasCollectionFileConfig (files (collection config))) fs))
  = Err e ->
  exists file, In file fs /\ bucket_missing config file.
Proof.
  induction fs as [|f fs IH]; simpl; [discriminate|].
  unfold fileHasCollectionFileConfig at 1.
  destruct (getCollectionFileConfig (files (collection config)) f) as [r|] eqn:Hf.
  - simpl. unfold updateFileFromCollectionFileConfig at 1. rewrite Hf.
    destruct (bucket_name_at (buckets config) (bucket r)) as [b|e'] eqn:Hb.
    + destruct (all_ok _) as [l|e'] eqn:Hrest; [discriminate|].
      intros H. destruct (IH H) as (file & Hin & Hmiss).
      exists file. split; [right; exact Hin | exact Hmiss].
    + intros _. exists f. split; [left; reflexivity|].
      apply bucket_name_at_err in Hb. destruct Hb as (Hown & Hinh & _).
      exists r. repeat split; assumption.
  - intros H. destruct (IH H) as (file & Hin & Hmiss).
    exists file. split; [right; exact Hin | exact Hmiss].
Qed.

(** X10.  When the files configuration is not ignored, [buildGranule]
    fails on the array of a group exactly when a file of the group has
    its first matching rule name a bucket that is found nowhere: the
    bucket table has no entry under that key, and the key names no member
    of [Object.prototype].  The failure is the type error of reading the
    name of an undefined bucket. *)
Theorem granule_fails_on_unknown_bucket
    (config : Config) (files_ : list File) (id : Value) :
  returnAllFiles config = VBool false ->
  ((exists file, In file files_ /\ bucket_missing config file) ->
   buildGranule config files_ id
   = Err (TypeError "Cannot read property 'name' of undefined")) /\
  (forall e,
      buildGranule config files_ id = Err e ->
      e = TypeError "Cannot read property 'name' of undefined" /\
      exists file, In file files_ /\ bucket_missing config file).
Proof.
  intros Hoverride. split.
  - intros Hmissing. unfold buildGranule. rewrite Hoverride. simpl.
    rewrite (enrich_fails_on_missing_bucket config files_ Hmissing). reflexivity.
  - intros e He. unfold buildGranule in He. rewrite Hoverride in He. simpl in He.
    destruct (all_ok _) as [l|e'] eqn:Hall; [discriminate|].
    injection He as ->.
    pose proof (enrich_failure_is_missing_bucket config files_ e Hall) as Hmissing.
    split; [|exact Hmissing].
    rewrite (enrich_fails_on_missing_bucket config files_ Hmissing) in Hall.
    injection Hall as <-. reflexivity.
Qed.

(** A1.txt matches a rule whose bucket, public, is not in the table. *)
Lemma granule_fails_on_unknown_bucket_witness :
  buildGranule config_with_unknown_bucket [file "A1.dat"; file "A1.txt"] "A1"
  = Err (TypeError "Cannot read property 'name' of undefined").
Proof.
  apply (proj1 (granule_fails_on_unknown_bucket
                  config_with_unknown_bucket [file "A1.dat"; file "A1.txt"] (VStr "A1")
                  eq_refl)).
  exists (file "A1.txt"). split; [right; left; reflexivity|].
  exists txt_rule. repeat split; reflexivity.
Defined.

(** The bucket key constructor is not in the bucket table of the
    examples; the granule is built, and the bucket of its file is the
    name of the function that the table inherits under that key. *)
Lemma inherited_bucket_key_does_not_fail :
  obj_get "constructor" (buckets (example_config_with [constructor_rule])) = None /\
  exists out,
    buildGranule (example_config_with [constructor_rule]) [file "A1.dat"] "A1"
    = Ok {| granuleId := "A1";
            granule_dataType := VStr "EX";
            granule_version := VStr "001";
            granule_files := [out] |} /\
    obj_get "bucket" (properties out) = Some (VStr "Object").
Proof.
  split; [reflexivity|]. eexists. split; reflexivity.
Qed.

Lemma obj_update_same {V} (o : Obj V) (k : string) (v : V) :
  obj_get k o = Some v -> obj_update k v o = o.
Proof.
  induction o as [|[k0 v0] o IH]; simpl; [reflexivity|].
  destruct (k0 =? k).
  - intros [= ->]. reflexivity.
  - intros H. rewrite (IH H). reflexivity.
Qed.

Lemma with_property_same (key : string) (value : Value) (file_ : File) :
  obj_get key (properties file_) = Some value ->
  with_property key value file_ = file_.
Proof.
  intros Hget. unfold with_property, obj_set, obj_has. rewrite Hget.
  rewrite (obj_update_same _ _ _ Hget). destruct file_; reflexivity.
Qed.

(** X11.  Enrichment is idempotent: a file that
    [updateFileFromCollectionFileConfig] has returned is returned as it
    is when it is given to the function again. *)
Theorem enrichment_is_idempotent (config : Config) (file_ enriched_file : File) :
  updateFileFromCollectionFileConfig config file_ = Ok enriched_file ->
  updateFileFromCollectionFileConfig config enriched_file = Ok enriched_file.
Proof.
  unfold updateFileFromCollectionFileConfig.
  destruct (getCollectionFileConfig (files (collection config)) file_) as [rule|] eqn:Hrule.
  - destruct (bucket_name_at (buckets config) (bucket rule)) as [b|] eqn:Hb;
      [|discriminate].
    intros [= <-].
    set (t := or_else (type rule) (VStr "")).
    set (u := or_else (or_else (file_url_path rule) (url_path (collection config)))
                      (VStr "")).
    set (once := with_property "type" t
                   (with_property "url_path" u
                      (with_property "bucket" b file_))).
    assert (Hsame : getCollectionFileConfig (files (collection config)) once = Some rule)
      by exact Hrule.
    rewrite Hsame, Hb. cbv beta iota. fold t u. f_equal.
    rewrite (with_property_same "bucket" b once).
    + rewrite (with_property_same "url_path" u once).
      * apply with_property_same. unfold once, with_property. simpl.
        rewrite obj_get_set. reflexivity.
      * unfold once, with_property. simpl. rewrite !obj_get_set. reflexivity.
    + unfold once, with_property. simpl. rewrite !obj_get_set. reflexivity.
  - intros [= <-]. rewrite Hrule. reflexivity.
Qed.

(** A1.qa, enriched once and once more. *)
Lemma enrichment_is_idempotent_witness :
  exists enriched_file,
    updateFileFromCollectionFileConfig
      (example_config (VStr "skip") undefined undefined) (file "A1.qa")
    = Ok enriched_file /\
    updateFileFromCollectionFileConfig
      (example_config (VStr "skip") undefined undefined) enriched_file
    = Ok enriched_file.
Proof.
  eexists. split; [reflexivity|].
  exact (enrichment_is_idempotent
           (example_config (VStr "skip") undefined undefined) (file "A1.qa") _ eq_refl).
Defined.

Section Partition.
Variable granuleIdRegex : RegExp.

Lemma grouped_files_update (o : Obj (list File)) (k : string) (g : list File) (f : File) :
  obj_get k o = Some g ->
  Permutation (grouped_files (obj_update k (g ++ [f])%list o)) (f :: grouped_files o).
Proof.
  unfold grouped_files.
  induction o as [|[k0 g0] o IH]; simpl; [discriminate|].
  destruct (k0 =? k).
  - intros [= ->]. simpl. rewrite <- app_assoc. simpl.
    apply Permutation_sym, Permutation_middle.
  - intros Hget. simpl. apply Permutation_trans with (g0 ++ f :: List.concat (map snd o))%list.
    + apply Permutation_app_head, IH, Hget.
    + apply Permutation_sym, Permutation_middle.
Qed.

Lemma grouped_files_insert_index (o : Obj (list File)) (n : N) (k : string) (f : File) :
  Permutation (grouped_files (obj_insert_index n k [f] o)) (f :: grouped_files o).
Proof.
  unfold grouped_files.
  induction o as [|[k0 g0] o IH]; simpl; [apply Permutation_refl|].
  destruct (array_index k0) as [n0|]; [|apply Permutation_refl].
  destruct (n0 <=? n)%N; [|apply Permutation_refl].
  simpl. apply Permutation_trans with (g0 ++ f :: List.concat (map snd o))%list.
  - apply Permutation_app_head, IH.
  - apply Permutation_sym, Permutation_middle.
Qed.

Lemma grouped_files_step (acc : Obj (list File)) (f : File) :
  group_key granuleIdRegex f <> "__proto__" ->
  Permutation (grouped_files (groupBy_step (granuleIdOfFile granuleIdRegex) acc f))
              (f :: grouped_files acc).
Proof.
  intros Hkey. unfold groupBy_step. fold (group_key granuleIdRegex f).
  destruct (obj_get _ acc) as [g|] eqn:Hget.
  - apply grouped_files_update, Hget.
  - apply String.eqb_neq in Hkey. rewrite Hkey.
    unfold obj_set, obj_has. rewrite Hget.
    destruct (array_index _) as [n|].
    + apply grouped_files_insert_index.
    + unfold grouped_files. rewrite map_app, concat_app. simpl.
      apply Permutation_sym, Permutation_cons_append.
Qed.

Lemma grouped_files_step_proto (acc : Obj (list File)) (f : File) :
  obj_get "__proto__" acc = None ->
  group_key granuleIdRegex f = "__proto__" ->
  groupBy_step (granuleIdOfFile granuleIdRegex) acc f = acc.
Proof.
  intros Hacc Hkey. unfold groupBy_step. fold (group_key granuleIdRegex f).
  rewrite Hkey, Hacc. reflexivity.
Qed.

Lemma grouped_files_groupBy_from (fs : list File) :
  forall acc : Obj (list File),
    obj_get "__proto__" acc = None ->
    Permutation
      (grouped_files (fold_left (groupBy_step (granuleIdOfFile granuleIdRegex)) fs acc))
      (grouped_files acc
       ++ filter (fun f => negb (group_key granuleIdRegex f =? "__proto__")) fs)%list.
Proof.
  induction fs as [|f fs IH]; intros acc Hacc; simpl.
  - rewrite app_nil_r. apply Permutation_refl.
  - destruct (String.eqb_spec (group_key granuleIdRegex f) "__proto__") as [E|Hne]; simpl.
    + rewrite (grouped_files_step_proto acc f Hacc E). apply IH, Hacc.
    + eapply Permutation_trans;
        [apply IH, groupBy_step_no_proto, Hacc|].
      eapply Permutation_trans;
        [apply Permutation_app_tail, grouped_files_step, Hne|].
      simpl. apply Permutation_middle.
Qed.

Lemma filter_all {A} (p : A -> bool) (l : list A) :
  (forall x, In x l -> p x = true) -> filter p l = l.
Proof.
  induction l as [|x l IH]; simpl; intros H; [reflexivity|].
  rewrite (H x (or_introl eq_refl)), IH; [reflexivity|].
  intros y Hy. apply H. right. exact Hy.
Qed.

Lemma filter_none {A} (p : A -> bool) (l : list A) :
  (forall x, In x l -> p x = false) -> filter p l = [].
Proof.
  induction l as [|x l IH]; simpl; intros H; [reflexivity|].
  rewrite (H x (or_introl eq_refl)). apply IH.
  intros y Hy. apply H. right. exact Hy.
Qed.

Lemma grouped_files_delete (o : Obj (list File)) (d : string) :
  (forall k g, In (k, g) o -> forall x, In x g -> group_key granuleIdRegex x = k) ->
  grouped_files (obj_delete d o) =
  filter (fun x => negb (group_key granuleIdRegex x =? d)) (grouped_files o).
Proof.
  unfold grouped_files.
  induction o as [|[k0 g0] o IH]; simpl; intros Hkeys; [reflexivity|].
  assert (Hrest : forall k g, In (k, g) o ->
                              forall x, In x g -> group_key granuleIdRegex x = k)
    by (intros k g Hin; apply (Hkeys k g); right; exact Hin).
  rewrite filter_app, <- (IH Hrest).
  destruct (String.eqb_spec k0 d) as [->|Hne].
  - rewrite filter_none; [reflexivity|].
    intros x Hx. rewrite (Hkeys d g0 (or_introl eq_refl) x Hx), String.eqb_refl.
    reflexivity.
  - simpl. rewrite filter_all; [reflexivity|].
    intros x Hx. rewrite (Hkeys k0 g0 (or_introl eq_refl) x Hx).
    apply String.eqb_neq in Hne. rewrite Hne. reflexivity.
Qed.

Lemma groupBy_entries_keyed (fs : list File) (k : string) (g : list File) :
  In (k, g) (groupBy fs (granuleIdOfFile granuleIdRegex)) ->
  forall x, In x g -> group_key granuleIdRegex x = k.
Proof.
  unfold groupBy. intros Hin x Hx.
  apply obj_get_of_in in Hin;
    [|apply NoDup_keys_groupBy_from; constructor].
  assert (Hk : k <> "__proto__").
  { intros ->. rewrite groupBy_from_no_proto in Hin; [discriminate | reflexivity]. }
  rewrite (groupBy_from_get _ _ _ _ Hk) in Hin. simpl in Hin.
  destruct (files_keyed granuleIdRegex k fs) as [|f0 l] eqn:E; [discriminate|].
  injection Hin as <-. rewrite <- E in Hx. unfold files_keyed in Hx.
  apply filter_In in Hx. apply String.eqb_eq, Hx.
Qed.

Lemma Permutation_filter_keep {A} (p : A -> bool) (l l' : list A) :
  Permutation l l' -> Permutation (filter p l) (filter p l').
Proof.
  induction 1 as [|x l l' _ IH|x y l|l l' l'' _ IH1 _ IH2]; simpl.
  - constructor.
  - destruct (p x); [constructor|]; exact IH.
  - destruct (p x), (p y); try apply Permutation_refl. constructor.
  - eapply Permutation_trans; eassumption.
Qed.
End Partition.

(** X12.  Classification repeats no file and loses only the files filed
    under "null" and under __proto__: put one after the other, its groups
    hold, up to their order, the listed files other than those, each as
    many times as it was listed. *)
Theorem classification_partitions_the_listing
    (granuleIdRegex : RegExp) (listing : list File) :
  Permutation
    (grouped_files (groupFilesByGranuleId granuleIdRegex listing))
    (filter (fun f => negb (group_key granuleIdRegex f =? "null")
                      && negb (group_key granuleIdRegex f =? "__proto__"))
            listing).
Proof.
  unfold groupFilesByGranuleId.
  rewrite (grouped_files_delete granuleIdRegex);
    [|apply groupBy_entries_keyed].
  rewrite <- filter_filter_and.
  apply Permutation_filter_keep. unfold groupBy.
  apply (grouped_files_groupBy_from granuleIdRegex listing empty_obj). reflexivity.
Qed.

(* ===================================================================== *)
(** ** Migration of the provider records *)
(* ===================================================================== *)

Import ProviderMigration.

Section RecordMigration.
Variable s : Services.

Lemma decrypt_cases (value : Value) :
  (exists plaintext,
      decrypt s value = Done plaintext /\
      (decryptBase64String s value = inl plaintext /\ plaintext <> undefined \/
       S3KeyPairProvider_decrypt s value = inl plaintext)) \/
  (exists message,
      decrypt s value = Failed (ServiceFailure "S3KeyPairProvider.decrypt" message) /\
      S3KeyPairProvider_decrypt s value = inr message).
Proof.
  unfold decrypt, try_catch, and_then, service.
  destruct (decryptBase64String s value) as [plaintext|m] eqn:Hkms.
  - destruct plaintext;
      try (left; eexists; split; [reflexivity | left; split; [reflexivity | discriminate]]).
    destruct (S3KeyPairProvider_decrypt s value) as [p|m'].
    + left. exists p. split; [reflexivity | right; reflexivity].
    + right. exists m'. split; reflexivity.
  - destruct (S3KeyPairProvider_decrypt s value) as [p|m'].
    + left. exists p. split; [reflexivity | right; reflexivity].
    + right. exists m'. split; reflexivity.
Qed.

Lemma credential_step (providerKmsKeyId : string) (encrypted credential : Value) :
  (forall stored,
      (if truthy credential then
         and_then (if truthy encrypted then decrypt s credential else Done credential)
                  (fun plaintext =>
                     service "KMS.encrypt" (KMS_encrypt s providerKmsKeyId plaintext))
       else Done credential) = Done stored ->
      stored_credential s providerKmsKeyId encrypted credential stored) /\
  (forall e,
      (if truthy credential then
         and_then (if truthy encrypted then decrypt s credential else Done credential)
                  (fun plaintext =>
                     service "KMS.encrypt" (KMS_encrypt s providerKmsKeyId plaintext))
       else Done credential) = Failed e ->
      instanceof_RecordAlreadyMigrated e = false).
Proof.
  unfold stored_credential.
  destruct (truthy credential); [|split; [intros stored [= <-]; reflexivity | discriminate]].
  destruct (truthy encrypted).
  - destruct (decrypt_cases credential) as [(p & Hd & _)|(m & Hd & _)]; rewrite Hd; simpl.
    + unfold service. destruct (KMS_encrypt s providerKmsKeyId p) as [c|m] eqn:Henc.
      * split; [|discriminate]. intros stored [= <-]. exists p. split; [reflexivity | exact Henc].
      * split; [discriminate|]. intros e [= <-]. reflexivity.
    + split; [discriminate|]. intros e [= <-]. reflexivity.
  - simpl. unfold service.
    destruct (KMS_encrypt s providerKmsKeyId credential) as [c|m] eqn:Henc.
    + split; [|discriminate]. intros stored [= <-].
      exists credential. split; [reflexivity | exact Henc].
    + split; [discriminate|]. intros e [= <-]. reflexivity.
Qed.

Lemma find_by_name (providers : Table) (id : string) :
  find (fun row => RDS.name row =? id) providers = None <-> ~ In id (names providers).
Proof.
  unfold names. induction providers as [|row providers IH]; simpl.
  - split; [intros _ [] | reflexivity].
  - destruct (String.eqb_spec (RDS.name row) id) as [->|Hne].
    + split; [discriminate | intros H; exfalso; apply H; left; reflexivity].
    + rewrite IH. split.
      * intros H [E|Hin]; [contradiction | apply H, Hin].
      * intros H Hin. apply H. right. exact Hin.
Qed.

(** The three ways in which the migration of one record ends. *)
Lemma migrateProviderRecord_cases (record : Dynamo.Record_) (providerKmsKeyId : string)
    (providers : Table) :
  (exists row,
      migrateProviderRecord s record providerKmsKeyId providers
      = (Done tt, (providers ++ [row])%list) /\
      recordIsValid s record = None /\
      select_failure s (Dynamo.id record) = None /\
      ~ In (Dynamo.id record) (names providers) /\
      insert_failure s row = None /\
      RDS.name row = Dynamo.id record /\
      RDS.protocol row = Dynamo.protocol record /\
      RDS.host row = Dynamo.host record /\
      RDS.port row = Dynamo.port record /\
      RDS.globalConnectionLimit row = Dynamo.globalConnectionLimit record /\
      RDS.privateKey row = Dynamo.privateKey record /\
      RDS.cmKeyId row = Dynamo.cmKeyId record /\
      RDS.certificateUri row = Dynamo.certificateUri record /\
      RDS.created_at row = NewDate (Dynamo.createdAt record) /\
      RDS.updated_at row =
        (if truthy (Dynamo.updatedAt record)
         then Some (NewDate (Dynamo.updatedAt record)) else None) /\
      stored_credential s providerKmsKeyId (Dynamo.encrypted record)
                        (Dynamo.username record) (RDS.username row) /\
      stored_credential s providerKmsKeyId (Dynamo.encrypted record)
                        (Dynamo.password record) (RDS.password row))
  \/
  (migrateProviderRecord s record providerKmsKeyId providers
   = (Failed (RecordAlreadyMigrated
                ("Provider name " ++ Dynamo.id record
                 ++ " was already migrated, skipping")),
      providers) /\
   recordIsValid s record = None /\
   select_failure s (Dynamo.id record) = None /\
   In (Dynamo.id record) (names providers))
  \/
  (exists e,
      migrateProviderRecord s record providerKmsKeyId providers = (Failed e, providers) /\
      instanceof_RecordAlreadyMigrated e = false /\
      (recordIsValid s record <> None \/
       select_failure s (Dynamo.id record) <> None \/
       ~ In (Dynamo.id record) (names providers))).
Proof.
  unfold migrateProviderRecord.
  destruct (recordIsValid s record) as [m|] eqn:Hvalid.
  { right; right. eexists. split; [reflexivity|]. split; [reflexivity|].
    left. discriminate. }
  destruct (select_failure s (Dynamo.id record)) as [m|] eqn:Hselect.
  { right; right. eexists. split; [reflexivity|]. split; [reflexivity|].
    right; left. discriminate. }
  destruct (find _ providers) as [existing|] eqn:Hfind.
  { right; left. split; [reflexivity|]. split; [reflexivity|]. split; [reflexivity|].
    destruct (in_dec string_dec (Dynamo.id record) (names providers)) as [Hin|Hout];
      [exact Hin|].
    apply find_by_name in Hout. rewrite Hout in Hfind. discriminate. }
  apply find_by_name in Hfind.
  destruct (credential_step providerKmsKeyId (Dynamo.encrypted record)
                            (Dynamo.username record)) as [Huser Huser_fail].
  destruct (credential_step providerKmsKeyId (Dynamo.encrypted record)
                            (Dynamo.password record)) as [Hpass Hpass_fail].
  destruct (if truthy (Dynamo.username record) then _ else _) as [user|e].
  2:{ right; right. exists e. split; [reflexivity|]. split; [apply Huser_fail; reflexivity|].
      right; right. exact Hfind. }
  destruct (if truthy (Dynamo.password record) then _ else _) as [pass|e].
  2:{ right; right. exists e. split; [reflexivity|]. split; [apply Hpass_fail; reflexivity|].
      right; right. exact Hfind. }
  cbv zeta.
  destruct (insert_failure s _) as [m|] eqn:Hinsert.
  { right; right. eexists. split; [reflexivity|]. split; [reflexivity|].
    right; right. exact Hfind. }
  left. eexists. split; [reflexivity|]. simpl.
  repeat (split; [first [reflexivity | assumption]|]).
  split; [apply Huser | apply Hpass]; reflexivity.
Qed.
End RecordMigration.

(** X13.  [decrypt] returns what KMS decrypts when that is defined, and
    otherwise, when KMS fails or gives undefined, exactly what the S3 key
    pair provider answers for the same value, its failure included; the
    error 'Unable to decrypt' that it raises on the way never leaves
    it. *)
Theorem decrypt_falls_back_to_key_pair (s : Services) (value : Value) :
  (forall plaintext,
      decryptBase64String s value = inl plaintext -> plaintext <> undefined ->
      decrypt s value = Done plaintext) /\
  (decryptBase64String s value = inl undefined \/
   (exists message, decryptBase64String s value = inr message) ->
   decrypt s value =
   service "S3KeyPairProvider.decrypt" (S3KeyPairProvider_decrypt s value)) /\
  decrypt s value <> Failed UnableToDecrypt.
Proof.
  split; [|split].
  - intros plaintext Hkms Hdef. unfold decrypt. rewrite Hkms. simpl.
    destruct plaintext; try reflexivity. contradiction.
  - intros [Hkms|(m & Hkms)]; unfold decrypt; rewrite Hkms; reflexivity.
  - destruct (decrypt_cases s value) as [(p & Hd & _)|(m & Hd & _)];
      rewrite Hd; discriminate.
Qed.

(** KMS cannot decrypt the value, the key pair provider can. *)
Lemma decrypt_falls_back_to_key_pair_witness :
  decrypt (example_services []) (VStr "s3:bob") = Done (VStr "legacy(s3:bob)") /\
  decrypt (example_services []) (VStr "bob") = Done (VStr "plain(bob)").
Proof.
  pose proof (decrypt_falls_back_to_key_pair (example_services [])) as H.
  split.
  - apply (proj1 (proj2 (H (VStr "s3:bob")))). right. eexists. reflexivity.
  - apply (proj1 (H (VStr "bob")) (VStr "plain(bob)")); [reflexivity | discriminate].
Defined.

(** X14.  A record that is migrated adds exactly one row at the end of
    the table and changes no other row.  The row has the id of the record
    as its name, the attributes of the record under their names,
    created_at and updated_at made of createdAt and updatedAt (no
    updated_at for a falsy updatedAt), and for username and password the
    KMS encryption, under the key of the providers, of the plain text (a
    falsy credential is kept as it is and not encrypted).  The record was
    valid and no row had its name. *)
Theorem migrated_record_is_one_new_row
    (s : Services) (record : Dynamo.Record_) (providerKmsKeyId : string)
    (providers providers' : Table) :
  migrateProviderRecord s record providerKmsKeyId providers = (Done tt, providers') ->
  exists row,
    providers' = (providers ++ [row])%list /\
    recordIsValid s record = None /\
    ~ In (Dynamo.id record) (names providers) /\
    RDS.name row = Dynamo.id record /\
    RDS.protocol row = Dynamo.protocol record /\
    RDS.host row = Dynamo.host record /\
    RDS.port row = Dynamo.port record /\
    RDS.globalConnectionLimit row = Dynamo.globalConnectionLimit record /\
    RDS.privateKey row = Dynamo.privateKey record /\
    RDS.cmKeyId row = Dynamo.cmKeyId record /\
    RDS.certificateUri row = Dynamo.certificateUri record /\
    RDS.created_at row = NewDate (Dynamo.createdAt record) /\
    RDS.updated_at row =
      (if truthy (Dynamo.updatedAt record)
       then Some (NewDate (Dynamo.updatedAt record)) else None) /\
    stored_credential s providerKmsKeyId (Dynamo.encrypted record)
                      (Dynamo.username record) (RDS.username row) /\
    stored_credential s providerKmsKeyId (Dynamo.encrypted record)
                      (Dynamo.password record) (RDS.password row).
Proof.
  intros Hdone.
  destruct (migrateProviderRecord_cases s record providerKmsKeyId providers)
    as [(row & Hrow & Hvalid & _ & Hfresh & _ & Hmap)|[(Hskip & _)|(e & Hfail & _)]].
  - rewrite Hrow in Hdone. injection Hdone as <-.
    exists row. split; [reflexivity|]. split; [exact Hvalid|]. split; [exact Hfresh|].
    exact Hmap.
  - rewrite Hskip in Hdone. discriminate.
  - rewrite Hfail in Hdone. discriminate.
Qed.

(** The record p2, whose username is marked encrypted. *)
Lemma migrated_record_is_one_new_row_witness :
  exists row,
    [row] = ([] ++ [row])%list /\
    RDS.name row = "p2" /\
    RDS.username row = VStr "kms[key-1](legacy(s3:bob))" /\
    RDS.password row = undefined.
Proof.
  destruct (migrated_record_is_one_new_row
              (example_services []) (provider_record "p2" "s3:bob" true) "key-1" []
              _ eq_refl)
    as (row & Hrows & _ & _ & Hname & _).
  exists row. simpl in Hrows. injection Hrows as <-.
  repeat split; reflexivity.
Defined.

(** X15.  The migration of a record ends with the error
    RecordAlreadyMigrated exactly when the record is valid, the query of
    the table answers and a row of the table has the id of the record as
    its name; a record whose id names a row is never inserted, whatever
    else holds; and whenever the migration of a record fails, the table
    is as it was. *)
Theorem already_migrated_record_is_refused
    (s : Services) (record : Dynamo.Record_) (providerKmsKeyId : string)
    (providers : Table) :
  ((exists message,
       fst (migrateProviderRecord s record providerKmsKeyId providers)
       = Failed (RecordAlreadyMigrated message))
   <->
   recordIsValid s record = None /\
   select_failure s (Dynamo.id record) = None /\
   In (Dynamo.id record) (names providers)) /\
  (In (Dynamo.id record) (names providers) ->
   fst (migrateProviderRecord s record providerKmsKeyId providers) <> Done tt) /\
  (forall e,
      fst (migrateProviderRecord s record providerKmsKeyId providers) = Failed e ->
      snd (migrateProviderRecord s record providerKmsKeyId providers) = providers).
Proof.
  destruct (migrateProviderRecord_cases s record providerKmsKeyId providers)
    as [(row & Hrow & _ & _ & Hfresh & _)
       |[(Hskip & Hvalid & Hselect & Hin)|(e & Hfail & Hother & Hwhy)]].
  - rewrite Hrow. simpl. split; [split|split].
    + intros (m & Hm). discriminate.
    + intros (_ & _ & Hin). contradiction.
    + intros Hin. contradiction.
    + discriminate.
  - rewrite Hskip. simpl. split; [split|split].
    + intros _. repeat split; assumption.
    + intros _. eexists. reflexivity.
    + discriminate.
    + reflexivity.
  - rewrite Hfail. simpl. split; [split|split].
    + intros (m & [= ->]). discriminate.
    + intros (Hvalid & Hselect & Hin).
      destruct Hwhy as [H|[H|H]]; contradiction.
    + discriminate.
    + reflexivity.
Qed.

(** A row named p1 is in the table. *)
Lemma already_migrated_record_is_refused_witness :
  exists message,
    fst (migrateProviderRecord (example_services [])
           (provider_record "p1" "alice" false) "key-1"
           (snd (migrateProviderRecord (example_services [])
                   (provider_record "p1" "carol" false) "key-1" [])))
    = Failed (RecordAlreadyMigrated message).
Proof.
  apply (proj2 (proj1 (already_migrated_record_is_refused
                         (example_services [])
                         (provider_record "p1" "alice" false) "key-1" _))).
  repeat split; try reflexivity. left. reflexivity.
Defined.

Section QueueMigration.
Variable s : Services.
Variable providerKmsKeyId : string.

(** What the loop over the queue does to the counters, the table and the
    log. *)
Lemma migrate_queue_spec (records : list Dynamo.Record_) :
  forall (summary : MigrationSummary) (providers : Table) (log : list LogLine)
         (summary' : MigrationSummary) (providers' : Table) (log' : list LogLine),
    migrate_queue s providerKmsKeyId records summary providers log
    = (summary', providers', log') ->
    dynamoRecords summary' = dynamoRecords summary + List.length records /\
    success summary <= success summary' /\
    failed summary <= failed summary' /\
    skipped summary <= skipped summary' /\
    success summary' + failed summary' + skipped summary'
    = success summary + failed summary + skipped summary + List.length records /\
    List.length log' + failed summary + skipped summary
    = List.length log + failed summary' + skipped summary' /\
    exists added,
      providers' = (providers ++ added)%list /\
      List.length added + success summary = success summary' /\
      (forall row, In row added ->
                   exists record,
                     In record records /\ RDS.name row = Dynamo.id record /\
                     recordIsValid s record = None) /\
      (NoDup (names providers) -> NoDup (names providers')).
Proof.
  induction records as [|record rest IH];
    intros summary providers log summary' providers' log' Hrun; simpl in Hrun.
  - injection Hrun as <- <- <-. simpl.
    repeat (split; [lia|]). exists []. rewrite app_nil_r.
    repeat split; [intros row [] | intros H; exact H].
  - destruct (migrateProviderRecord_cases s record providerKmsKeyId providers)
      as [(row & Hrow & Hvalid & _ & Hfresh & _ & Hname & _)
         |[(Hskip & _)|(e & Hfail & Hother & _)]].
    + rewrite Hrow in Hrun. apply IH in Hrun. simpl in Hrun.
      destruct Hrun as (Hd & Hs & Hf & Hk & Hsum & Hlog & added & Ht & Hlen & Hrows & Hnd).
      repeat (split; [simpl; lia|]).
      subst providers'. exists (row :: added). rewrite <- app_assoc. simpl.
      split; [reflexivity|]. split; [lia|]. split.
      * intros r [<-|Hr].
        -- exists record. split; [left; reflexivity|]. split; assumption.
        -- destruct (Hrows r Hr) as (rec & Hin & Hrest).
           exists rec. split; [right; exact Hin | exact Hrest].
      * intros Hnd0. rewrite <- app_assoc in Hnd. simpl in Hnd. apply Hnd.
        unfold names in *. rewrite map_app. simpl.
        apply NoDup_app; [exact Hnd0 | constructor; [intros [] | constructor] |].
        intros x Hx [<-|[]]. rewrite Hname in Hx. contradiction.
    + rewrite Hskip in Hrun. simpl in Hrun. apply IH in Hrun. simpl in Hrun.
      destruct Hrun as (Hd & Hs & Hf & Hk & Hsum & Hlog & added & Ht & Hlen & Hrows & Hnd).
      rewrite length_app in Hlog. simpl in Hlog.
      repeat (split; [simpl; lia|]).
      exists added. split; [exact Ht|]. split; [exact Hlen|]. split; [|exact Hnd].
      intros r Hr. destruct (Hrows r Hr) as (rec & Hin & Hrest).
      exists rec. split; [right; exact Hin | exact Hrest].
    + rewrite Hfail, Hother in Hrun. apply IH in Hrun. simpl in Hrun.
      destruct Hrun as (Hd & Hs & Hf & Hk & Hsum & Hlog & added & Ht & Hlen & Hrows & Hnd).
      rewrite length_app in Hlog. simpl in Hlog.
      repeat (split; [simpl; lia|]).
      exists added. split; [exact Ht|]. split; [exact Hlen|]. split; [|exact Hnd].
      intros r Hr. destruct (Hrows r Hr) as (rec & Hin & Hrest).
      exists rec. split; [right; exact Hin | exact Hrest].
Qed.

(** After a loop without failures, every record of the queue is valid,
    the query for it answers, and its id names a row. *)
Lemma migrate_queue_without_failure (records : list Dynamo.Record_) :
  forall (summary : MigrationSummary) (providers : Table) (log : list LogLine)
         (summary' : MigrationSummary) (providers' : Table) (log' : list LogLine),
    migrate_queue s providerKmsKeyId records summary providers log
    = (summary', providers', log') ->
    failed summary' = failed summary ->
    forall record,
      In record records ->
      recordIsValid s record = None /\
      select_failure s (Dynamo.id record) = None /\
      In (Dynamo.id record) (names providers').
Proof.
  induction records as [|record rest IH];
    intros summary providers log summary' providers' log' Hrun Hfailed r Hr;
    [destruct Hr|].
  simpl in Hrun.
  assert (Hgrow : forall sum t lg,
            migrate_queue s providerKmsKeyId rest sum t lg = (summary', providers', log') ->
            forall x, In x (names t) -> In x (names providers')).
  { intros sum t lg Hrest x Hx. apply migrate_queue_spec in Hrest.
    destruct Hrest as (_ & _ & _ & _ & _ & _ & added & -> & _).
    unfold names in *. rewrite map_app. apply in_or_app. left. exact Hx. }
  destruct (migrateProviderRecord_cases s record providerKmsKeyId providers)
    as [(row & Hrow & Hvalid & Hselect & _ & _ & Hname & _)
       |[(Hskip & Hvalid & Hselect & Hin)|(e & Hfail & Hother & _)]].
  - rewrite Hrow in Hrun. destruct Hr as [<-|Hr].
    + split; [exact Hvalid|]. split; [exact Hselect|].
      apply (Hgrow _ _ _ Hrun). unfold names. rewrite map_app. apply in_or_app.
      right. left. exact Hname.
    + apply (IH _ _ _ _ _ _ Hrun Hfailed r Hr).
  - rewrite Hskip in Hrun. simpl in Hrun. destruct Hr as [<-|Hr].
    + split; [exact Hvalid|]. split; [exact Hselect|]. apply (Hgrow _ _ _ Hrun), Hin.
    + apply (IH _ _ _ _ _ _ Hrun Hfailed r Hr).
  - rewrite Hfail, Hother in Hrun. exfalso.
    apply migrate_queue_spec in Hrun. simpl in Hrun. lia.
Qed.

(** A loop over records that are valid and already migrated skips them
    all. *)
Lemma migrate_queue_all_migrated (records : list Dynamo.Record_) (providers : Table) :
  (forall record,
      In record records ->
      recordIsValid s record = None /\
      select_failure s (Dynamo.id record) = None /\
      In (Dynamo.id record) (names providers)) ->
  forall (summary : MigrationSummary) (log : list LogLine),
  exists log',
    migrate_queue s providerKmsKeyId records summary providers log
    = ({| dynamoRecords := dynamoRecords summary + List.length records;
          success := success summary;
          failed := failed summary;
          skipped := skipped summary + List.length records |},
       providers, log').
Proof.
  induction records as [|record rest IH]; intros Hall summary log; simpl.
  - exists log. rewrite !Nat.add_0_r. destruct summary; reflexivity.
  - destruct (Hall record (or_introl eq_refl)) as (Hvalid & Hselect & Hin).
    destruct (migrateProviderRecord_cases s record providerKmsKeyId providers)
      as [(row & _ & _ & _ & Hfresh & _)|[(Hskip & _)|(e & _ & _ & Hwhy)]].
    + contradiction.
    + rewrite Hskip.
      cbn [instanceof_RecordAlreadyMigrated dynamoRecords success failed skipped].
      edestruct (IH (fun r Hr => Hall r (or_intror Hr))) as [log' Hrest].
      exists log'. rewrite Hrest.
      cbn [dynamoRecords success failed skipped List.length].
      f_equal. f_equal. f_equal; lia.
    + destruct Hwhy as [H|[H|H]]; contradiction.
Qed.
End QueueMigration.

(** A run of [migrateProviders] with both environment variables set. *)
Lemma migrateProviders_run (s : Services) (env : string -> Value) (providers : Table)
    (table key : string) :
  getRequiredEnvVar s "ProvidersTable" env = inl table ->
  getRequiredEnvVar s "provider_kms_key_id" env = inl key ->
  migrateProviders s env providers =
  (let '(summary, providers', log) :=
     migrate_queue s key (fst (scan s table))
                   {| dynamoRecords := 0; success := 0; failed := 0; skipped := 0 |}
                   providers [] in
   match snd (scan s table) with
   | Some message =>
       (Failed (ServiceFailure "DynamoDbSearchQueue" message), providers', log)
   | None =>
       (Done summary, providers',
        (log ++ [InfoLine ("successfully migrated "
                           ++ ToString (VNum (Z.of_nat (success summary)))
                           ++ " provider records")])%list)
   end).
Proof.
  intros Htable Hkey. unfold migrateProviders. rewrite Htable, Hkey. simpl.
  destruct (migrate_queue _ _ _ _ _ _) as [[summary providers'] log]. reflexivity.
Qed.

Lemma migrateProviders_done (s : Services) (env : string -> Value)
    (providers providers' : Table) (summary : MigrationSummary) (log : list LogLine) :
  migrateProviders s env providers = (Done summary, providers', log) ->
  exists table key queue_log,
    getRequiredEnvVar s "ProvidersTable" env = inl table /\
    getRequiredEnvVar s "provider_kms_key_id" env = inl key /\
    snd (scan s table) = None /\
    migrate_queue s key (fst (scan s table))
                  {| dynamoRecords := 0; success := 0; failed := 0; skipped := 0 |}
                  providers [] = (summary, providers', queue_log).
Proof.
  unfold migrateProviders.
  destruct (getRequiredEnvVar s "ProvidersTable" env) as [table|] eqn:Htable;
    [|discriminate].
  destruct (getRequiredEnvVar s "provider_kms_key_id" env) as [key|] eqn:Hkey;
    [|discriminate].
  simpl.
  destruct (migrate_queue _ _ _ _ _ _) as [[summary0 providers0] log0] eqn:Hrun.
  destruct (snd (scan s table)) eqn:Hqueue; [discriminate|].
  intros [= <- <- _]. exists table, key, log0. repeat split; assumption.
Qed.

(** X16.  With both environment variables set and the queue answering
    to the end, [migrateProviders] returns its summary whatever happens
    to the single records: it counts every record of the queue, each
    record is counted as exactly one of success, failed and skipped, and
    the log has one line for each record failed or skipped and the
    closing line.  It fails only for a missing environment variable, and
    then it has touched neither the table nor the log, or for a failure
    of the queue. *)
Theorem migration_counts_every_record
    (s : Services) (env : string -> Value) (providers : Table) :
  (forall table key,
      getRequiredEnvVar s "ProvidersTable" env = inl table ->
      getRequiredEnvVar s "provider_kms_key_id" env = inl key ->
      snd (scan s table) = None ->
      exists summary providers' log,
        migrateProviders s env providers = (Done summary, providers', log) /\
        dynamoRecords summary = List.length (fst (scan s table)) /\
        success summary + failed summary + skipped summary = dynamoRecords summary /\
        List.length log = failed summary + skipped summary + 1) /\
  (forall e providers' log,
      migrateProviders s env providers = (Failed e, providers', log) ->
      (providers' = providers /\ log = [] /\
       ((exists message, getRequiredEnvVar s "ProvidersTable" env = inr message) \/
        (exists message, getRequiredEnvVar s "provider_kms_key_id" env = inr message)))
      \/
      (exists table message,
          getRequiredEnvVar s "ProvidersTable" env = inl table /\
          snd (scan s table) = Some message /\
          e = ServiceFailure "DynamoDbSearchQueue" message)).
Proof.
  split.
  - intros table key Htable Hkey Hqueue.
    rewrite (migrateProviders_run s env providers table key Htable Hkey), Hqueue.
    destruct (migrate_queue _ _ _ _ _ _) as [[summary providers'] log] eqn:Hrun.
    apply migrate_queue_spec in Hrun. simpl in Hrun.
    destruct Hrun as (Hd & _ & _ & _ & Hsum & Hlog & _).
    eexists _, _, _. split; [reflexivity|]. rewrite length_app. simpl.
    repeat split; lia.
  - intros e providers' log. unfold migrateProviders.
    destruct (getRequiredEnvVar s "ProvidersTable" env) as [table|m] eqn:Htable.
    + destruct (getRequiredEnvVar s "provider_kms_key_id" env) as [key|m] eqn:Hkey.
      * simpl. destruct (migrate_queue _ _ _ _ _ _) as [[summary0 providers0] log0].
        destruct (snd (scan s table)) as [m|] eqn:Hqueue; [|discriminate].
        intros [= <- <- <-]. right. exists table, m.
        split; [reflexivity|]. split; [exact Hqueue | reflexivity].
      * simpl. intros [= <- <- <-]. left. repeat split. right. exists m. reflexivity.
    + simpl. intros [= <- <- <-]. left. repeat split. left. exists m. reflexivity.
Qed.

(** The queue of four records, of which one is invalid and one comes
    twice. *)
Lemma migration_counts_every_record_witness :
  exists summary providers' log,
    migrateProviders (example_services example_queue) migration_env []
    = (Done summary, providers', log) /\
    dynamoRecords summary = 4 /\
    success summary + failed summary + skipped summary = dynamoRecords summary /\
    List.length log = failed summary + skipped summary + 1.
Proof.
  exact (proj1 (migration_counts_every_record
                  (example_services example_queue) migration_env [])
               "providers-table" "key-1" eq_refl eq_refl eq_refl).
Defined.

(** X17.  Whatever its outcome, [migrateProviders] only appends to the
    table: the rows that were there stay as they are and in their place,
    each row added has the id of a valid record of the queue as its name,
    and when the names of the table were distinct before the migration
    they are distinct after it.  When it returns its summary, the rows
    added are as many as the summary counts successes. *)
Theorem migration_only_appends_new_names
    (s : Services) (env : string -> Value) (providers providers' : Table)
    (result : Attempt MigrationSummary) (log : list LogLine) :
  migrateProviders s env providers = (result, providers', log) ->
  exists added,
    providers' = (providers ++ added)%list /\
    (forall row,
        In row added ->
        exists table record,
          getRequiredEnvVar s "ProvidersTable" env = inl table /\
          In record (fst (scan s table)) /\
          RDS.name row = Dynamo.id record /\
          recordIsValid s record = None) /\
    (NoDup (names providers) -> NoDup (names providers')) /\
    (forall summary, result = Done summary -> List.length added = success summary).
Proof.
  unfold migrateProviders.
  assert (Hnothing :
            exists added : Table,
              providers = (providers ++ added)%list /\
              (forall row,
                  In row added ->
                  exists table record,
                    getRequiredEnvVar s "ProvidersTable" env = inl table /\
                    In record (fst (scan s table)) /\
                    RDS.name row = Dynamo.id record /\
                    recordIsValid s record = None) /\
              (NoDup (names providers) -> NoDup (names providers))).
  { exists []. rewrite app_nil_r. split; [reflexivity|].
    split; [intros row [] | intros H; exact H]. }
  destruct (getRequiredEnvVar s "ProvidersTable" env) as [table|m] eqn:Htable; simpl.
  2:{ intros [= <- <- _]. destruct Hnothing as (added & H1 & H2 & H3).
      exists added. repeat split; try assumption. discriminate. }
  destruct (getRequiredEnvVar s "provider_kms_key_id" env) as [key|m] eqn:Hkey; simpl.
  2:{ intros [= <- <- _]. destruct Hnothing as (added & H1 & H2 & H3).
      exists added. repeat split; try assumption. discriminate. }
  clear Hnothing.
  destruct (migrate_queue _ _ _ _ _ _) as [[summary0 providers0] log0] eqn:Hrun.
  apply migrate_queue_spec in Hrun. simpl in Hrun.
  destruct Hrun as (_ & _ & _ & _ & _ & _ & added & Ht & Hlen & Hrows & Hnd).
  intros Hresult.
  assert (Hp : providers0 = providers')
    by (destruct (snd (scan s table)); injection Hresult as _ <- _; reflexivity).
  rewrite Hp in Ht, Hnd. exists added. split; [exact Ht|]. split; [|split; [exact Hnd|]].
  - intros row Hrow. destruct (Hrows row Hrow) as (record & Hin & Hname & Hvalid).
    exists table, record. repeat split; assumption.
  - intros summary ->.
    destruct (snd (scan s table)); [discriminate|].
    injection Hresult as <- _. lia.
Qed.

(** The queue of four records on an empty table: the rows p1 and p2. *)
Lemma migration_only_appends_new_names_witness :
  exists providers',
    fst (fst (migrateProviders (example_services example_queue) migration_env []))
    = Done {| dynamoRecords := 4; success := 2; failed := 1; skipped := 1 |} /\
    snd (fst (migrateProviders (example_services example_queue) migration_env []))
    = providers' /\
    names providers' = ["p1"; "p2"] /\
    NoDup (names providers').
Proof.
  eexists. split; [reflexivity|]. split; [reflexivity|]. split; [reflexivity|].
  destruct (migration_only_appends_new_names
              (example_services example_queue) migration_env [] _ _ _ eq_refl)
    as (added & _ & _ & Hnd & _).
  apply Hnd. constructor.
Defined.

(** X18.  Running the migration again over the same queue, after a run
    in which no record failed and with the validation, the database and
    the queue answering as before, migrates nothing: every record is
    skipped as already migrated, and the table is left as the first run
    made it. *)
Theorem second_run_skips_every_record
    (s : Services) (env : string -> Value) (providers providers' : Table)
    (summary : MigrationSummary) (log : list LogLine) :
  migrateProviders s env providers = (Done summary, providers', log) ->
  failed summary = 0 ->
  exists log2,
    migrateProviders s env providers' =
    (Done {| dynamoRecords := dynamoRecords summary;
             success := 0;
             failed := 0;
             skipped := dynamoRecords summary |},
     providers', log2).
Proof.
  intros Hrun Hfailed.
  destruct (migrateProviders_done _ _ _ _ _ _ Hrun)
    as (table & key & queue_log & Htable & Hkey & Hanswers & Hqueue).
  pose proof (migrate_queue_without_failure s key (fst (scan s table)) _ _ _ _ _ _
                Hqueue Hfailed) as Hall.
  apply migrate_queue_spec in Hqueue. simpl in Hqueue.
  destruct Hqueue as (Hcount & _).
  destruct (migrate_queue_all_migrated s key (fst (scan s table)) providers' Hall
              {| dynamoRecords := 0; success := 0; failed := 0; skipped := 0 |} [])
    as [log2 Hsecond].
  rewrite (migrateProviders_run s env providers' table key Htable Hkey), Hsecond, Hanswers.
  simpl. rewrite Hcount. eexists. reflexivity.
Qed.

(** Two valid records, migrated and then presented again. *)
Lemma second_run_skips_every_record_witness :
  exists providers' log2,
    names providers' = ["p1"; "p2"] /\
    migrateProviders
      (example_services [provider_record "p1" "alice" false;
                         provider_record "p2" "s3:bob" true])
      migration_env providers' =
    (Done {| dynamoRecords := 2; success := 0; failed := 0; skipped := 2 |},
     providers', log2).
Proof.
  destruct (second_run_skips_every_record
              (example_services [provider_record "p1" "alice" false;
                                 provider_record "p2" "s3:bob" true])
              migration_env [] _ _ _ eq_refl eq_refl) as [log2 Hsecond].
  eexists _, log2. split; [|exact Hsecond]. reflexivity.
Defined.
